(** * SmartFarm TZ: content-based plant identification

    A shallow embedding of [ai-service/identify_plant.py]: the feature
    extractor, the cosine scorer, the nearest-neighbour scan of
    [identify_plant] and the teaching step of [learn_plant], together
    with the properties of the design document that concern them.

    Numbers are modelled as the code has them.  NumPy's [float32] and
    Python's [float] are IEEE-754 binary32 and binary64, taken from the
    standard library's [SpecFloat] (round to nearest, ties to even).
    OpenCV, PIL, [hashlib] and the clock are outside the repository and
    enter as an interface ([Platform]). *)

From Stdlib Require Import ZArith List String Ascii Bool Lia.
From Stdlib Require Import Reals Lra.
From Stdlib Require Import Floats.SpecFloat.
From stdpp Require Import gmap strings.
Import ListNotations.

Local Open Scope Z_scope.

(** ** Floating-point numbers *)

(** [np.float32] *)
Definition f32 : Type := spec_float.
(** Python [float] and [np.float64] *)
Definition f64 : Type := spec_float.

Definition f32_add : f32 -> f32 -> f32 := SFadd 24 128.
Definition f32_mul : f32 -> f32 -> f32 := SFmul 24 128.
Definition f32_div : f32 -> f32 -> f32 := SFdiv 24 128.
Definition f32_sqrt : f32 -> f32 := SFsqrt 24 128.
Definition f64_div : f64 -> f64 -> f64 := SFdiv 53 1024.

Definition pzero : spec_float := S754_zero false.

(** An integer as a [float32] / [float64] (rounded when it does not fit). *)
Definition f32_of_Z (n : Z) : f32 := binary_normalize 24 128 n 0 false.
Definition f64_of_Z (n : Z) : f64 := binary_normalize 53 1024 n 0 false.

(** [float(x)] for [x : np.float32]: the same value in binary64 (exact). *)
Definition py_float (x : f32) : f64 :=
  match x with
  | S754_finite s m e => binary_round 53 1024 s m e
  | _ => x
  end.

(** [x.astype(np.float32)] for [x : np.float64]. *)
Definition f32_of_f64 (x : f64) : f32 :=
  match x with
  | S754_finite s m e => binary_round 24 128 s m e
  | _ => x
  end.

(** Python's comparisons on floats; every comparison with NaN is false. *)
Definition py_gt (x y : f64) : bool := SFltb y x.
Definition py_ge (x y : f64) : bool := SFleb y x.
Definition is_nan (x : spec_float) : bool :=
  match x with S754_nan => true | _ => false end.

(** [x == 0] *)
Definition is_zero (x : spec_float) : bool := SFeqb x pzero.

(** Rounding a quotient [a / b] of integers ([0 < b]) to the nearest
    integer, ties to even. *)
Definition div_half_even (a b : Z) : Z :=
  let q := a / b in
  let r := a mod b in
  match 2 * r ?= b with
  | Lt => q
  | Gt => q + 1
  | Eq => if Z.even q then q else q + 1
  end.

(** [round(x, 3)] on a Python float: the exact binary value is rounded to
    three decimals (ties to even) and the decimal is read back as the
    nearest float.  Infinities and NaN round to themselves, and so does a
    float with a non-negative exponent, which is an integer. *)
Definition py_round3 (x : f64) : f64 :=
  match x with
  | S754_finite s m e =>
      if 0 <=? e then x
      else
        match div_half_even (Zpos m * 1000) (2 ^ (- e)) with
        | Zpos n => f64_div (S754_finite s n 0) (S754_finite false 1000 0)
        | _ => S754_zero s
        end
  | _ => x
  end.

(** [CONFIG['similarity_threshold']], the float [0.7]. *)
Definition similarity_threshold : f64 :=
  S754_finite false 6305039478318694 (-53).

(** ** SimilarityScorer *)

(** The arithmetic [calculate_similarity] runs on.  The code runs it on
    [np.float32]; the instance on the reals is the arithmetic the design
    document reasons in. *)
Record arith (A : Type) : Type := Arith {
  a_zero : A;
  a_add : A -> A -> A;
  a_mul : A -> A -> A;
  a_div : A -> A -> A;
  a_sqrt : A -> A;
  a_eq0 : A -> bool
}.
Arguments Arith {A}.
Arguments a_zero {A}.
Arguments a_add {A}.
Arguments a_mul {A}.
Arguments a_div {A}.
Arguments a_sqrt {A}.
Arguments a_eq0 {A}.

Definition f32_arith : arith f32 :=
  Arith pzero f32_add f32_mul f32_div f32_sqrt is_zero.

Definition R_arith : arith R :=
  Arith 0%R Rplus Rmult Rdiv sqrt
        (fun x => if Req_dec_T x 0%R then true else false).

Section Scorer.
Context {A : Type} (ops : arith A).

(** [np.dot(u, v)] on two one-dimensional arrays of one length.  The
    products are summed left to right; NumPy leaves the order of the
    summation to its BLAS library, so where the partial sums are not
    exact the last bits of its result may differ from this one. *)
Definition np_dot (u v : list A) : A :=
  fold_left (fun acc p => a_add ops acc (a_mul ops (fst p) (snd p)))
            (combine u v) (a_zero ops).

(** [np.linalg.norm(u)]: [sqrt(u.dot(u))]. *)
Definition np_norm (u : list A) : A := a_sqrt ops (np_dot u u).

(** [calculate_similarity], before the final [float(...)].  [np.dot]
    raises on arrays of different lengths; the handler returns [0.0]. *)
Definition cosine (features1 features2 : list A) : A :=
  let norm1 := np_norm features1 in
  let norm2 := np_norm features2 in
  if a_eq0 ops norm1 || a_eq0 ops norm2 then a_zero ops
  else if negb (Nat.eqb (length features1) (length features2))
       then a_zero ops
       else a_div ops (np_dot features1 features2) (a_mul ops norm1 norm2).
End Scorer.

(** A feature vector: a one-dimensional [float32] array. *)
Definition fvec : Type := list f32.

Definition calculate_similarity (features1 features2 : fvec) : f64 :=
  py_float (cosine f32_arith features1 features2).

Definition f64_one : f64 := f64_of_Z 1.

(** ** Strings, as [learn_plant] and [identify_plant] use them

    A Python [str] is modelled by [string], a character standing for a
    code point below 256. *)

Local Open Scope string_scope.

(** [c.isspace()]: tab, line feed, vertical tab, form feed, carriage
    return, the four separators 0x1c..0x1f, the space, next line (0x85)
    and the no-break space (0xa0). *)
Definition is_space (c : ascii) : bool :=
  let n := nat_of_ascii c in
  ((9 <=? n) && (n <=? 13) || (28 <=? n) && (n <=? 32)
   || (n =? 133) || (n =? 160))%nat.

Fixpoint lstrip (s : string) : string :=
  match s with
  | String c rest => if is_space c then lstrip rest else s
  | EmptyString => EmptyString
  end.

(** The string without its trailing white space. *)
Fixpoint rstrip (s : string) : string :=
  match s with
  | EmptyString => EmptyString
  | String c rest =>
      match rstrip rest with
      | EmptyString => if is_space c then EmptyString else String c EmptyString
      | r => String c r
      end
  end.

(** [s.strip()] *)
Definition strip (s : string) : string := rstrip (lstrip s).

(** [c.lower()]: the letters [A] to [Z], and the capital letters 0xc0 to
    0xde (the multiplication sign 0xd7 is no letter). *)
Definition lower_char (c : ascii) : ascii :=
  let n := nat_of_ascii c in
  if ((65 <=? n) && (n <=? 90)
      || (192 <=? n) && (n <=? 222) && negb (n =? 215))%nat
  then ascii_of_nat (n + 32) else c.

(** [s.lower()] *)
Fixpoint lower (s : string) : string :=
  match s with
  | EmptyString => EmptyString
  | String c rest => String (lower_char c) (lower rest)
  end.

(** [s.replace(a, b)] for single characters. *)
Fixpoint replace_char (a b : ascii) (s : string) : string :=
  match s with
  | EmptyString => EmptyString
  | String c rest =>
      String (if Ascii.eqb c a then b else c) (replace_char a b rest)
  end.

(** [s.split(sep)[0]]: the part of [s] before the first [sep], all of [s]
    when it has none. *)
Fixpoint split_head (sep : ascii) (s : string) : string :=
  match s with
  | EmptyString => EmptyString
  | String c rest =>
      if Ascii.eqb c sep then EmptyString else String c (split_head sep rest)
  end.

Fixpoint contains_char (a : ascii) (s : string) : bool :=
  match s with
  | EmptyString => false
  | String c rest => Ascii.eqb c a || contains_char a rest
  end.

(** The names [glob('*.jpg')] matches. *)
Fixpoint matches_jpg (name : string) : bool :=
  match name with
  | EmptyString => false
  | String _ rest => String.eqb name ".jpg" || matches_jpg rest
  end.

(** [Path(name).stem] for a name that [glob('*.jpg')] matched: the name
    without its final [.jpg] (a name that is just [.jpg] has no suffix and
    is its own stem). *)
Fixpoint stem (name : string) : string :=
  match name with
  | EmptyString => EmptyString
  | String c rest =>
      if String.eqb rest ".jpg" then String c EmptyString
      else String c (stem rest)
  end.

(** The cleaning step of [learn_plant]:
    [plant_name.strip().lower().replace(' ', '_')]. *)
Definition clean_plant_name (plant_name : string) : string :=
  replace_char " " "_" (lower (strip plant_name)).

(** The label [identify_plant] derives from a learned file:
    [learned_file.stem.split('_')[0]]. *)
Definition learned_name_of (file_name : string) : string :=
  split_head "_" (stem file_name).

(** ** The clock *)

Record datetime : Type := Datetime {
  year : Z; month : Z; day : Z;
  hour : Z; minute : Z; second : Z; microsecond : Z
}.

Definition digit_char (d : Z) : ascii := ascii_of_nat (48 + Z.to_nat d).

(** [n] written with exactly [w] decimal digits, zero padded. *)
Fixpoint digits (w : nat) (n : Z) : string :=
  match w with
  | O => EmptyString
  | S w' => digits w' (n / 10) ++ String (digit_char (n mod 10)) EmptyString
  end.

(** [%Y] of [strftime]: the year as the C library writes it, without
    leading zeros. *)
Definition year_digits (y : Z) : string :=
  if Z.ltb y 10 then digits 1 y
  else if Z.ltb y 100 then digits 2 y
  else if Z.ltb y 1000 then digits 3 y
  else digits 4 y.

(** [now.strftime('%Y%m%d_%H%M%S')] *)
Definition strftime_stamp (now : datetime) : string :=
  year_digits (year now) ++ digits 2 (month now) ++ digits 2 (day now) ++ "_"
  ++ digits 2 (hour now) ++ digits 2 (minute now) ++ digits 2 (second now).

(** [now.isoformat()] *)
Definition isoformat (now : datetime) : string :=
  digits 4 (year now) ++ "-" ++ digits 2 (month now) ++ "-"
  ++ digits 2 (day now) ++ "T" ++ digits 2 (hour now) ++ ":"
  ++ digits 2 (minute now) ++ ":" ++ digits 2 (second now)
  ++ (if Z.eqb (microsecond now) 0 then "" else "." ++ digits 6 (microsecond now)).

Local Close Scope string_scope.

(** ** Images and the libraries outside the repository *)

(** The content of a file. *)
Definition bytes : Type := list Byte.byte.

(** A two-dimensional array, as a list of rows (height x width). *)
Definition plane (A : Type) : Type := list (list A).

Definition shape0 {A} (a : plane A) : nat := length a.
Definition shape1 {A} (a : plane A) : nat := length (hd [] a).
Definition pmap {A B} (f : A -> B) (a : plane A) : plane B := map (map f) a.

(** [a[i, j]] on a [uint8] array; the loops below never leave the array. *)
Definition at2 (a : plane Z) (i j : nat) : Z := nth j (nth i a []) 0.

(** A three-channel [uint8] image and a three-channel [float32] image. *)
Definition u8_image : Type := plane (Z * Z * Z).
Definition f32_image : Type := plane (f32 * f32 * f32).

(** [CONFIG['image_size']] *)
Definition image_size : nat * nat := (224%nat, 224%nat).

(** What the code calls in OpenCV, PIL and [hashlib].  A call that raises
    (or, for [cv2.imread], returns [None]) is [None].  The two laws are
    OpenCV's contract for [calcHist]: a histogram has as many bins as
    were asked for. *)
Class Platform : Type := {
  cv_imread : bytes -> option u8_image;
  cv_resize : u8_image -> nat * nat -> option u8_image;
  cv_rgb2gray : u8_image -> option (plane Z);
  cv_rgb2hsv : u8_image -> option u8_image;
  cv_calcHist_f32 : plane f32 -> nat -> Z -> Z -> option (list f32);
  cv_calcHist_u8 : plane Z -> nat -> Z -> Z -> option (list f32);
  cv_Canny : plane Z -> Z -> Z -> option (plane Z);
  pil_verify : bytes -> bool;
  md5_hex8 : bytes -> string;
  cv_calcHist_f32_bins : forall p n lo hi h,
    cv_calcHist_f32 p n lo hi = Some h -> length h = n;
  cv_calcHist_u8_bins : forall p n lo hi h,
    cv_calcHist_u8 p n lo hi = Some h -> length h = n
}.

(** [x.astype(np.uint8)] for a [float32]: truncation, modulo 256. *)
Definition u8_of_f32 (x : f32) : Z :=
  match x with
  | S754_finite s m e =>
      let t := if 0 <=? e then Zpos m * 2 ^ e else Zpos m / 2 ^ (- e) in
      (cond_Zopp s t) mod 256
  | _ => 0
  end.

(** [(image * 255).astype(np.uint8)] *)
Definition scale_u8 (image : f32_image) : u8_image :=
  let k := fun x => u8_of_f32 (f32_mul x (f32_of_Z 255)) in
  pmap (fun '(r, g, b) => (k r, k g, k b)) image.

(** [image[:, :, c]] *)
Definition channel {A} (c : nat) (image : plane (A * A * A)) : plane A :=
  pmap (fun '(x0, x1, x2) =>
          match c with O => x0 | S O => x1 | _ => x2 end) image.

(** [np.histogram(values, bins, range=(lo, hi))[0]] on integers: equal
    width bins, the last one closed on the right, values outside the range
    dropped.  The edges of the one call below, [k * 255 / 16], are binary
    fractions, so NumPy places every value by its exact edge. *)
Definition histogram_bin (bins : nat) (lo hi v : Z) : option nat :=
  if (v <? lo) || (hi <? v) then None
  else Some (Z.to_nat (Z.min (Z.of_nat bins - 1)
                             (Z.of_nat bins * (v - lo) / (hi - lo)))).

Definition in_bin (bins : nat) (lo hi : Z) (k : nat) (v : Z) : bool :=
  match histogram_bin bins lo hi v with
  | Some b => Nat.eqb b k
  | None => false
  end.

Definition np_histogram (values : list Z) (bins : nat) (lo hi : Z) : list Z :=
  map (fun k => Z.of_nat (length (List.filter (in_bin bins lo hi k) values)))
      (seq 0 bins).

(** ** ImagePreprocessor and FeatureExtractor *)

Section Pipeline.
Context `{Platform}.

(** [preprocess_image], on the content of the file at [image_path]. *)
Definition preprocess_bytes (content : bytes) : option f32_image :=
  image ← cv_imread content;
  let image := pmap (fun '(b, g, r) => (r, g, b)) image in
  image ← cv_resize image image_size;
  let k := fun v => f32_div (f32_of_Z v) (f32_of_Z 255) in
  Some (pmap (fun '(r, g, b) => (k r, k g, k b)) image).

(** The pattern of the pixel at [(i, j)], lines 101 to 110. *)
Definition lbp_pattern (gray : plane Z) (i j : nat) : Z :=
  let center := at2 gray i j in
  let pattern := 0 in
  let pattern := pattern + Z.b2z (at2 gray (i-1) (j-1) >? center) * 1 in
  let pattern := pattern + Z.b2z (at2 gray (i-1) j >? center) * 2 in
  let pattern := pattern + Z.b2z (at2 gray (i-1) (j+1) >? center) * 4 in
  let pattern := pattern + Z.b2z (at2 gray i (j+1) >? center) * 8 in
  let pattern := pattern + Z.b2z (at2 gray (i+1) (j+1) >? center) * 16 in
  let pattern := pattern + Z.b2z (at2 gray (i+1) j >? center) * 32 in
  let pattern := pattern + Z.b2z (at2 gray (i+1) (j-1) >? center) * 64 in
  let pattern := pattern + Z.b2z (at2 gray i (j-1) >? center) * 128 in
  pattern.

(** The two loops of lines 98 to 111:
    [for i in range(1, gray.shape[0]-1)],
    [for j in range(1, gray.shape[1]-1)]. *)
Definition texture_features (gray : plane Z) : list Z :=
  flat_map (fun i => map (fun j => lbp_pattern gray i j)
                         (seq 1 (shape1 gray - 2)))
           (seq 1 (shape0 gray - 2)).

Definition texture_hist (gray : plane Z) : list Z :=
  np_histogram (texture_features gray) 16 0 255.

(** [np.sum(edges > 0) / (edges.shape[0] * edges.shape[1])] *)
Definition edge_density (edges : plane Z) : f64 :=
  f64_div
    (f64_of_Z (Z.of_nat (length (List.filter (fun v => v >? 0) (concat edges)))))
    (f64_of_Z (Z.of_nat (shape0 edges * shape1 edges))).

(** The parts of the descriptor, in the order of the code. *)
Record feature_parts : Type := FeatureParts {
  hist_r : list f32; hist_g : list f32; hist_b : list f32;
  hist_h : list f32; hist_s : list f32;
  p_edge_density : f64;
  p_texture_hist : list Z
}.

Definition extract_parts (image : f32_image) : option feature_parts :=
  gray ← cv_rgb2gray (scale_u8 image);
  hsv ← cv_rgb2hsv (scale_u8 image);
  hist_r ← cv_calcHist_f32 (channel 0 image) 32 0 1;
  hist_g ← cv_calcHist_f32 (channel 1 image) 32 0 1;
  hist_b ← cv_calcHist_f32 (channel 2 image) 32 0 1;
  hist_h ← cv_calcHist_u8 (channel 0 hsv) 32 0 180;
  hist_s ← cv_calcHist_u8 (channel 1 hsv) 32 0 256;
  edges ← cv_Canny gray 50 150;
  Some (FeatureParts hist_r hist_g hist_b hist_h hist_s
                     (edge_density edges) (texture_hist gray)).

(** [np.concatenate([...]).astype(np.float32)] *)
Definition concat_parts (p : feature_parts) : fvec :=
  hist_r p ++ hist_g p ++ hist_b p ++ hist_h p ++ hist_s p
  ++ [f32_of_f64 (p_edge_density p)]
  ++ map (fun c => f32_of_f64 (f64_of_Z c)) (p_texture_hist p).

(** [extract_features]; any exception is re-raised as [ValueError]. *)
Definition extract_features (image : f32_image) : option fvec :=
  concat_parts <$> extract_parts image.

(** [extract_features(preprocess_image(path))] on a file's content. *)
Definition descriptor (content : bytes) : option fvec :=
  preprocess_bytes content ≫= extract_features.
End Pipeline.

(** ** ReferenceStore: the state on disk *)

Definition dataset_path : string := "ai-service/plant_dataset".
Definition learned_dataset_path : string := "ai-service/learned_plants".

(** [dir / name] *)
Definition path_join (dir name : string) : string :=
  (dir ++ "/" ++ name)%string.

(** An entry of [learning_log.json]. *)
Record log_entry : Type := LogEntry {
  le_timestamp : string;
  le_plant_name : string;
  le_image_path : string;
  le_original_path : string
}.

(** The files the two functions see.  The static dataset is a list of
    label directories, each with its files; the learned directory is a
    flat list of files; both are kept in the order in which the operating
    system enumerates them.  [None] is a directory or file that
    does not exist.  [w_cache] is the dictionary pickled in
    [features_cache.pkl], [w_log] the array in [learning_log.json]; both
    files, when present, are taken to load.  Paths that name directories
    are not modelled. *)
Record world : Type := World {
  w_files : gmap string bytes;
  w_dataset : option (list (string * list (string * bytes)));
  w_learned : option (list (string * bytes));
  w_cache : option (gmap string fvec);
  w_log : option (list log_entry)
}.

Definition set_learned (l : list (string * bytes)) (w : world) : world :=
  World (w_files w) (w_dataset w) (Some l) (w_cache w) (w_log w).
Definition set_cache (c : gmap string fvec) (w : world) : world :=
  World (w_files w) (w_dataset w) (w_learned w) (Some c) (w_log w).
Definition set_log (l : list log_entry) (w : world) : world :=
  World (w_files w) (w_dataset w) (w_learned w) (w_cache w) (Some l).

(** The files of a directory listing with their full paths. *)
Definition with_paths (dir : string) (files : list (string * bytes))
  : list (string * bytes) :=
  map (fun e => (path_join dir (fst e), snd e)) files.

Definition dataset_files (w : world) : list (string * bytes) :=
  flat_map (fun d => with_paths (path_join dataset_path (fst d)) (snd d))
           (default [] (w_dataset w)).

Definition learned_files (w : world) : list (string * bytes) :=
  with_paths learned_dataset_path (default [] (w_learned w)).

Definition lookup_path (p : string) (files : list (string * bytes))
  : option bytes :=
  snd <$> find (fun e => String.eqb (fst e) p) files.

(** [open(path, 'rb').read()] *)
Definition read_file (w : world) (p : string) : option bytes :=
  match w_files w !! p with
  | Some c => Some c
  | None =>
      match lookup_path p (learned_files w) with
      | Some c => Some c
      | None => lookup_path p (dataset_files w)
      end
  end.

(** [os.path.exists(path)] *)
Definition path_exists (w : world) (p : string) : bool :=
  match read_file w p with Some _ => true | None => false end.

(** Writing a file into a directory listing: an existing file of that
    name is overwritten where it stands, a new one is listed last. *)
Definition store_file (name : string) (content : bytes)
           (files : list (string * bytes)) : list (string * bytes) :=
  if existsb (fun e => String.eqb (fst e) name) files
  then map (fun e => if String.eqb (fst e) name then (name, content) else e)
           files
  else files ++ [(name, content)].

(** ** IdentificationService *)

(** The dictionaries [identify_plant] returns, one constructor for each
    [return]; the [message] and the exception texts are left out. *)
Inductive identify_result : Type :=
| IdNotFound (image_path : string)
| IdInvalid
| IdMatch (plant_name : option string) (confidence : f64)
| IdUnknown (confidence : f64)
| IdFailed.

Definition id_success (r : identify_result) : bool :=
  match r with IdMatch _ _ => true | _ => false end.

Definition id_needs_learning (r : identify_result) : bool :=
  match r with IdUnknown _ => true | _ => false end.

Definition id_confidence (r : identify_result) : option f64 :=
  match r with
  | IdMatch _ c => Some c
  | IdUnknown c => Some c
  | _ => None
  end.

Definition id_plant_name (r : identify_result) : option string :=
  match r with IdMatch n _ => n | _ => None end.

(** [(max_similarity, best_match_name)] *)
Definition best : Type := f64 * option string.

(** [directory.glob('*.jpg')] on the files of a directory. *)
Definition glob_jpg (files : list (string * bytes)) : list (string * bytes) :=
  List.filter (fun e => matches_jpg (fst e)) files.

Section Services.
Context `{Platform}.

(** [if similarity > max_similarity: ...] *)
Definition update_best (similarity : f64) (label : string) (b : best) : best :=
  if py_gt similarity (fst b) then (similarity, Some label) else b.

(** The body of the loop over a label directory, lines 191 to 201. *)
Definition static_step (features : fvec) (label : string) (b : best)
           (image_file : string * bytes) : best :=
  match descriptor (snd image_file) with
  | Some dataset_features =>
      update_best (calculate_similarity features dataset_features) label b
  | None => b
  end.

Definition scan_label_dir (features : fvec) (b : best)
           (label_dir : string * list (string * bytes)) : best :=
  fold_left (static_step features (fst label_dir))
            (glob_jpg (snd label_dir)) b.

(** Lines 186 to 201. *)
Definition scan_dataset (w : world) (features : fvec) (b : best) : best :=
  match w_dataset w with
  | Some dirs => fold_left (scan_label_dir features) dirs b
  | None => b
  end.

(** The descriptor of a learned entry: the cached one, or on a miss the
    file's own, which is then put into the cache (lines 209 to 214). *)
Definition learned_features (cached_features : gmap string fvec)
           (learned_name : string) (content : bytes)
  : option (fvec * gmap string fvec) :=
  match cached_features !! learned_name with
  | Some f => Some (f, cached_features)
  | None =>
      f ← descriptor content;
      Some (f, <[learned_name := f]> cached_features)
  end.

(** The body of the loop over the learned files, lines 207 to 223. *)
Definition learned_step (features : fvec) (st : gmap string fvec * best)
           (learned_file : string * bytes) : gmap string fvec * best :=
  let learned_name := learned_name_of (fst learned_file) in
  match learned_features (fst st) learned_name (snd learned_file) with
  | Some (f, cached_features) =>
      (cached_features,
       update_best (calculate_similarity features f) learned_name (snd st))
  | None => st
  end.

(** Lines 204 to 223. *)
Definition scan_learned (w : world) (features : fvec)
           (st : gmap string fvec * best) : gmap string fvec * best :=
  match w_learned w with
  | Some files => fold_left (learned_step features) (glob_jpg files) st
  | None => st
  end.

(** Lines 230 to 243. *)
Definition decide_result (b : best) : identify_result :=
  let max_similarity := fst b in
  if py_gt max_similarity similarity_threshold
  then IdMatch (snd b) (py_round3 max_similarity)
  else IdUnknown (if py_gt max_similarity pzero
                  then py_round3 max_similarity else pzero).

(** The scan of one call: the state after lines 175 to 223. *)
Definition scan (w : world) (features : fvec) : gmap string fvec * best :=
  let cached_features := default ∅ (w_cache w) in
  scan_learned w features
               (cached_features, scan_dataset w features (pzero, None)).

(** [identify_plant].  The cache is written back after every scan
    (lines 226 to 228), also when no entry was added. *)
Definition identify_plant (w : world) (image_path : string)
  : identify_result * world :=
  if negb (path_exists w image_path) then (IdNotFound image_path, w)
  else
    match read_file w image_path with
    | None => (IdInvalid, w)
    | Some content =>
        if negb (pil_verify content) then (IdInvalid, w)
        else
          match descriptor content with
          | None => (IdFailed, w)
          | Some features =>
              let st := scan w features in
              (decide_result (snd st), set_cache (fst st) w)
          end
    end.

(** ** LearningService *)

Inductive learn_result : Type :=
| LearnNotFound (image_path : string)
| LearnEmptyName
| LearnStored (plant_name stored_path : string)
| LearnFailed.

Definition learn_success (r : learn_result) : bool :=
  match r with LearnStored _ _ => true | _ => false end.

(** [f"{plant_name}_{timestamp}_{image_hash}.jpg"] *)
Definition learned_file_name (plant_name timestamp image_hash : string)
  : string :=
  (plant_name ++ "_" ++ timestamp ++ "_" ++ image_hash ++ ".jpg")%string.

(** [learn_plant]; [now] and [now'] are the two readings of the clock
    (file name, log entry).  A copy of a file onto itself fails.

    The store holds the learned directory as a flat list of files, so it
    records a copy under a file name without [/] only.  A cleaned name
    with a [/] makes the destination a path into another directory
    ([a/b], [../x]); what the code does then depends on the directory
    tree around the learned directory, which the store does not hold.
    The embedding ends such a call with [LearnFailed]; it follows the
    code for names without [/], and the properties of stored files are
    stated for those.  The cache and the log are taken to load (see
    [world]), so no call fails between the write of the cache and the
    write of the log, as the code does on a log it cannot parse. *)
Definition learn_plant (now now' : datetime) (w : world)
           (image_path plant_name : string) : learn_result * world :=
  if negb (path_exists w image_path) then (LearnNotFound image_path, w)
  else if String.eqb plant_name "" || String.eqb (strip plant_name) ""
  then (LearnEmptyName, w)
  else
    let plant_name := clean_plant_name plant_name in
    let w := set_learned (default [] (w_learned w)) w in
    let timestamp := strftime_stamp now in
    match read_file w image_path with
    | None => (LearnFailed, w)
    | Some content =>
        let filename :=
          learned_file_name plant_name timestamp (md5_hex8 content) in
        let destination := path_join learned_dataset_path filename in
        if contains_char "/" filename || String.eqb image_path destination
        then (LearnFailed, w)
        else
          let w := set_learned
                     (store_file filename content (default [] (w_learned w)))
                     w in
          (* the copy is read back: it holds [content] *)
          match descriptor content with
          | None => (LearnFailed, w)
          | Some features =>
              let cached_features := default ∅ (w_cache w) in
              let w := set_cache (<[plant_name := features]> cached_features)
                                 w in
              let entry := LogEntry (isoformat now') plant_name destination
                                    image_path in
              let w := set_log (default [] (w_log w) ++ [entry]) w in
              (LearnStored plant_name destination, w)
          end
    end.
End Services.

(** ** Notions the properties are stated with *)

(** A float that is zero, positive or plus infinity. *)
Definition nonneg (x : spec_float) : Prop := SFleb pzero x = true.

(** The texture step in the words of the design document: the eight
    neighbours of a pixel, clockwise from the top left, as offsets
    (row, column); neighbour [k] weighs [2^k] when it is brighter than
    the centre. *)
Definition clockwise_neighbours : list (Z * Z) :=
  [(-1, -1); (-1, 0); (-1, 1); (0, 1); (1, 1); (1, 0); (1, -1); (0, -1)].

Definition neighbour (gray : plane Z) (i j : nat) (d : Z * Z) : Z :=
  at2 gray (Z.to_nat (Z.of_nat i + fst d)) (Z.to_nat (Z.of_nat j + snd d)).

Definition spec_lbp_pattern (gray : plane Z) (i j : nat) : Z :=
  fold_right Z.add 0
    (map (fun kd => if neighbour gray i j (snd kd) >? at2 gray i j
                    then 2 ^ Z.of_nat (fst kd) else 0)
         (combine (seq 0 8) clockwise_neighbours)).

(** Bin [k] of sixteen equal bins over [[0, 255]]: the values [p] with
    [255 k / 16 <= p < 255 (k + 1) / 16], the last bin taking [255] too. *)
Definition spec_in_bin16 (k : nat) (p : Z) : bool :=
  (0 <=? p) && (p <=? 255)
  && ((255 * Z.of_nat k <=? 16 * p) && (16 * p <? 255 * (Z.of_nat k + 1))
      || Nat.eqb k 15 && (p =? 255)).

(** A four by four picture with one bright corner. *)
Definition corner_gray : plane Z :=
  [[9; 1; 1; 1]; [1; 5; 5; 1]; [1; 5; 5; 1]; [1; 1; 1; 7]].

(** A descriptor-sized vector whose computed self-similarity is above one:
    [(1, 1, 0, ..., 0)]. *)
Definition unit_pair : fvec := [f32_of_Z 1; f32_of_Z 1] ++ repeat pzero 175.

(** The number of entries a label has in a descriptor cache. *)
Definition entries_for (label : string) (cache : gmap string fvec) : nat :=
  length (List.filter (fun e => String.eqb (fst e) label) (map_to_list cache)).

Definition set_dataset (d : list (string * list (string * bytes))) (w : world)
  : world :=
  World (w_files w) (Some d) (w_learned w) (w_cache w) (w_log w).

Section Compared.
Context `{Platform}.

(** The reference entries one scan compares the query with, each with
    its label and its score, in the order of the scan.  A file whose
    processing fails contributes no entry. *)
Definition static_entry (features : fvec) (label : string)
           (image_file : string * bytes) : list (string * f64) :=
  match descriptor (snd image_file) with
  | Some d => [(label, calculate_similarity features d)]
  | None => []
  end.

Definition static_compared (w : world) (features : fvec)
  : list (string * f64) :=
  flat_map (fun dir => flat_map (static_entry features (fst dir))
                               (glob_jpg (snd dir)))
           (default [] (w_dataset w)).

Fixpoint learned_compared (features : fvec) (cached : gmap string fvec)
         (files : list (string * bytes)) : list (string * f64) :=
  match files with
  | [] => []
  | file :: rest =>
      let name := learned_name_of (fst file) in
      match learned_features cached name (snd file) with
      | Some (f, cached') =>
          (name, calculate_similarity features f)
            :: learned_compared features cached' rest
      | None => learned_compared features cached rest
      end
  end.

Definition compared (w : world) (features : fvec) : list (string * f64) :=
  static_compared w features
  ++ learned_compared features (default ∅ (w_cache w))
                      (glob_jpg (default [] (w_learned w))).

(** The running best over a list of entries. *)
Definition best_of (entries : list (string * f64)) (b : best) : best :=
  fold_left (fun b e => update_best (snd e) (fst e) b) entries b.
End Compared.

(** The float [0.999]. *)
Definition confidence_floor : f64 := S754_finite false 8998192055486251 (-53).

(** A positive normal [float32] between [2^-77] and [2^84]: neither
    zero, subnormal, infinite nor NaN, and far from the ends of the
    range. *)
Definition positive_normal (x : f32) : bool :=
  match x with
  | S754_finite false m e =>
      Pos.eqb (digits2_pos m) 24 && (-100 <=? e) && (e <=? 60)
  | _ => false
  end.

(** A [float] as Python holds it: a finite one has a mantissa of 53
    digits (the scores, converted from [float32], are never subnormal). *)
Definition f64_canonical (x : f64) : Prop :=
  match x with
  | S754_finite _ m _ => Zpos (digits2_pos m) = 53
  | _ => True
  end.

(** The value of a mantissa and an exponent: [m * 2^e]. *)
Definition bpow (e : Z) : R := powerRZ 2 e.
Definition F2R (m e : Z) : R := (IZR m * bpow e)%R.

(** ** The command line *)

(** What [main] prints: the usage error, or the dictionary of the service
    it ran. *)
Inductive main_output : Type :=
| OutUsage
| OutLearn (result : learn_result)
| OutIdentify (result : identify_result).

Definition out_success (o : main_output) : bool :=
  match o with
  | OutUsage => false
  | OutLearn r => learn_success r
  | OutIdentify r => id_success r
  end.

Section CommandLine.
Context `{Platform}.

(** [main], on [sys.argv] (the script name first): what is printed, the
    exit code, and the store afterwards.  The two services catch their
    own exceptions, so the handlers of [main] are never entered. *)
Definition main (now now' : datetime) (w : world) (argv : list string)
  : main_output * Z * world :=
  if (length argv <? 2)%nat then (OutUsage, 1, w)
  else
    let image_path := nth 1 argv EmptyString in
    if (length argv =? 3)%nat then
      let plant_name := nth 2 argv EmptyString in
      let '(result, w') := learn_plant now now' w image_path plant_name in
      (OutLearn result, if learn_success result then 0 else 1, w')
    else
      let '(result, w') := identify_plant w image_path in
      (OutIdentify result, if id_success result then 0 else 1, w').
End CommandLine.

(** ** More notions for the properties *)

(** A channel value that fits [uint8]. *)
Definition is_u8 (v : Z) : Prop := 0 <= v <= 255.

(** A [uint8] image: every channel of every pixel fits. *)
Definition u8_pixels (image : u8_image) : Prop :=
  Forall (Forall (fun px => is_u8 (fst (fst px)) /\ is_u8 (snd (fst px))
                            /\ is_u8 (snd px))) image.

(** A [float32] between zero and one. *)
Definition unit_range (x : f32) : Prop :=
  SFleb pzero x = true /\ SFleb x (f32_of_Z 1) = true.

Definition unit_pixels (image : f32_image) : Prop :=
  Forall (Forall (fun px => unit_range (fst (fst px)) /\ unit_range (snd (fst px))
                            /\ unit_range (snd px))) image.

(** The sum of a list of counts. *)
Definition total (l : list Z) : Z := fold_right Z.add 0 l.

(** An array of [width] columns. *)
Definition rectangular {A} (width : nat) (a : plane A) : Prop :=
  Forall (fun row => length row = width) a.

(** The files the static scan enumerates, each with the name of its label
    directory, in the order of the scan. *)
Definition labelled_files (dirs : list (string * list (string * bytes)))
  : list (string * (string * bytes)) :=
  flat_map (fun d => map (pair (fst d)) (glob_jpg (snd d))) dirs.

(** The normalisation of [preprocess_image], line 71, on one channel. *)
Definition normalise_u8 (v : Z) : f32 := f32_div (f32_of_Z v) (f32_of_Z 255).

(** A reading of the clock whose fields are in the ranges of Python's
    [datetime]. *)
Definition valid_datetime (t : datetime) : Prop :=
  1 <= year t <= 9999 /\ 1 <= month t <= 12 /\ 1 <= day t <= 31 /\
  0 <= hour t <= 23 /\ 0 <= minute t <= 59 /\ 0 <= second t <= 59.

(** Two readings within the same second. *)
Definition same_second (t t' : datetime) : Prop :=
  year t = year t' /\ month t = month t' /\ day t = day t' /\
  hour t = hour t' /\ minute t = minute t' /\ second t = second t'.

(** ** A small platform for examples

    A stand-in for OpenCV, PIL and [hashlib] on pictures of three by three
    pixels, nine BGR triples in a file.  It is used only to run the
    services on concrete files. *)
Module Demo.

Definition byte_val (b : Byte.byte) : Z := Z.of_N (Byte.to_N b).

Fixpoint pixels (content : list Z) : list (Z * Z * Z) :=
  match content with
  | b :: g :: r :: rest => (b, g, r) :: pixels rest
  | _ => []
  end.

Fixpoint rows {A} (width : nat) (n : nat) (l : list A) : plane A :=
  match n with
  | O => []
  | S n' => firstn width l :: rows width n' (skipn width l)
  end.

Definition imread (content : bytes) : option u8_image :=
  if Nat.eqb (length content) 27
  then Some (rows 3 3 (pixels (map byte_val content)))
  else None.

(** The stand-in keeps the picture at its size. *)
Definition resize (image : u8_image) (size : nat * nat) : option u8_image :=
  Some image.

Definition rgb2gray (image : u8_image) : option (plane Z) :=
  Some (pmap (fun '(r, g, b) => (299 * r + 587 * g + 114 * b + 500) / 1000)
             image).

Definition rgb2hsv (image : u8_image) : option u8_image :=
  Some (pmap (fun '(r, g, b) =>
                let hi := Z.max r (Z.max g b) in
                let lo := Z.min r (Z.min g b) in
                ((r + 2 * g + 3 * b) mod 180, hi - lo, hi))
             image).

Definition count_bins (idx : list (option Z)) (n : nat) : list f32 :=
  map (fun k => f32_of_Z (Z.of_nat (length
         (List.filter (fun i => match i with
                                | Some i => i =? Z.of_nat k
                                | None => false
                                end) idx))))
      (seq 0 n).

Definition bin_u8 (n : nat) (lo hi v : Z) : option Z :=
  if (lo <=? v) && (v <? hi)
  then Some ((v - lo) * Z.of_nat n / (hi - lo)) else None.

Definition bin_f32 (n : nat) (lo hi : Z) (x : f32) : option Z :=
  match x with
  | S754_zero _ => bin_u8 n lo hi 0
  | S754_finite false m e =>
      let d := if 0 <=? e then 1 else 2 ^ (- e) in
      let v := if 0 <=? e then Zpos m * 2 ^ e else Zpos m in
      if (lo * d <=? v) && (v <? hi * d)
      then Some ((v - lo * d) * Z.of_nat n / ((hi - lo) * d)) else None
  | _ => None
  end.

Definition calcHist_u8 (p : plane Z) (n : nat) (lo hi : Z)
  : option (list f32) :=
  Some (count_bins (map (bin_u8 n lo hi) (concat p)) n).

Definition calcHist_f32 (p : plane f32) (n : nat) (lo hi : Z)
  : option (list f32) :=
  Some (count_bins (map (bin_f32 n lo hi) (concat p)) n).

Definition Canny (gray : plane Z) (t1 t2 : Z) : option (plane Z) :=
  Some (pmap (fun v => if t2 <? v then 255 else 0) gray).

Definition verify (content : bytes) : bool := Nat.eqb (length content) 27.

Definition hex8 (content : bytes) : string :=
  digits 8 (fold_left Z.add (map byte_val content) 0).

Lemma count_bins_length idx n : length (count_bins idx n) = n.
Proof. unfold count_bins. now rewrite length_map, length_seq. Qed.

Lemma calcHist_f32_bins p n lo hi h :
  calcHist_f32 p n lo hi = Some h -> length h = n.
Proof. intros Hh. injection Hh as <-. apply count_bins_length. Qed.

Lemma calcHist_u8_bins p n lo hi h :
  calcHist_u8 p n lo hi = Some h -> length h = n.
Proof. intros Hh. injection Hh as <-. apply count_bins_length. Qed.

#[export] Instance platform : Platform := {|
  cv_imread := imread;
  cv_resize := resize;
  cv_rgb2gray := rgb2gray;
  cv_rgb2hsv := rgb2hsv;
  cv_calcHist_f32 := calcHist_f32;
  cv_calcHist_u8 := calcHist_u8;
  cv_Canny := Canny;
  pil_verify := verify;
  md5_hex8 := hex8;
  cv_calcHist_f32_bins := calcHist_f32_bins;
  cv_calcHist_u8_bins := calcHist_u8_bins
|}.

(** Three pictures: a grey ramp, the same ramp a little brighter, and a
    checkerboard. *)
Definition picture (vals : list N) : bytes :=
  flat_map (fun v => let b := default Byte.x00 (Byte.of_N v) in [b; b; b])
           vals.

Definition ramp : bytes := picture [10; 20; 30; 40; 50; 60; 70; 80; 90]%N.
Definition ramp' : bytes := picture [10; 20; 30; 40; 55; 60; 70; 80; 95]%N.
Definition checker : bytes :=
  picture [250; 5; 250; 5; 250; 5; 250; 5; 250]%N.
Definition broken : bytes := [Byte.x00; Byte.x01].

Definition noon : datetime := Datetime 2024 5 17 12 0 0 0.

Definition later : datetime := Datetime 2024 5 17 12 0 7 0.

(** Stores with one static reference, the ramp under [maize], and a
    query file: a picture close to the reference, an unrelated one, and
    the reference itself. *)
Definition store_with (query : bytes) : world :=
  World {[ "query.jpg"%string := query ]}
        (Some [("maize"%string, [("m1.jpg"%string, ramp)])])
        None None None.

Definition farm : world := store_with ramp'.
Definition pasture : world := store_with checker.
Definition garden : world := store_with ramp.

(** A store with no reference at all and two files to teach. *)
Definition cellar : world :=
  World {[ "query.jpg"%string := ramp; "second.jpg"%string := checker ]}
        None None None None.

(** The descriptor of a picture the platform can read. *)
Definition features_of (content : bytes) : fvec :=
  default [] (descriptor (H := platform) content).

(** Teaching [query.jpg] under a name, and asking about it right after. *)
Definition taught (w : world) (name : string) : learn_result * world :=
  learn_plant (H := platform) later later w "query.jpg" name.

Definition asked (w : world) (name : string) : identify_result :=
  fst (identify_plant (H := platform) (snd (taught w name)) "query.jpg").

(** The cellar after the checkerboard was taught as [sweet]. *)
Definition primed : world :=
  snd (learn_plant (H := platform) noon noon cellar "second.jpg" "sweet").

(** The cellar after the ramp was taught as [Rose], and then the
    checkerboard under the same cleaned name. *)
Definition rose_store : world :=
  snd (learn_plant (H := platform) noon noon cellar "query.jpg" "Rose").

Definition rose_store' : world :=
  snd (learn_plant (H := platform) later later rose_store "second.jpg"
                   " rose ").

Definition foo_store : world :=
  snd (learn_plant (H := platform) noon noon cellar "query.jpg" "Foo").

Definition torn : string * bytes := ("torn.jpg"%string, broken).

(** The ramp as [cv2.imread] returns it, after the resize, and after
    [preprocess_image]. *)
Definition ramp_raw : u8_image := default [] (imread ramp).
Definition ramp_resized : u8_image :=
  default [] (resize (pmap (fun '(b, g, r) => (r, g, b)) ramp_raw) image_size).
Definition ramp_image : f32_image :=
  default [] (preprocess_bytes (H := platform) ramp).

(** A dataset of two label directories, and the same listed the other
    way round. *)
Definition two_labels : list (string * list (string * bytes)) :=
  [("maize"%string, [("m1.jpg"%string, ramp)]);
   ("apple"%string, [("a1.jpg"%string, checker)])].

Definition orchard : world :=
  World {[ "query.jpg"%string := ramp' ]} (Some two_labels) None None None.

(** A store whose only file is not a picture. *)
Definition attic : world :=
  World {[ "torn.jpg"%string := broken ]} None None None None.

Definition double (x : Z) : Z := 2 * x + 1.
End Demo.

(** * Properties *)

(** ** The order of floats *)

Lemma compare_cont_Eq (p q : positive) : Pos.compare_cont Eq p q = (p ?= q)%positive.
Proof. reflexivity. Qed.

Ltac sf_cases :=
  repeat match goal with
         | s : bool |- _ => destruct s
         end;
  simpl in *; try congruence; try discriminate;
  repeat match goal with
         | H : context [(?a ?= ?b)%Z] |- _ =>
             destruct (Z.compare_spec a b); simpl in H; try discriminate
         | H : context [Pos.compare_cont Eq ?a ?b] |- _ =>
             rewrite compare_cont_Eq in H;
             destruct (Pos.compare_spec a b); simpl in H; try discriminate
         end;
  repeat match goal with
         | |- context [(?a ?= ?b)%Z] =>
             destruct (Z.compare_spec a b); simpl; try lia
         | |- context [Pos.compare_cont Eq ?a ?b] =>
             rewrite compare_cont_Eq;
             destruct (Pos.compare_spec a b); simpl; try lia
         end;
  try reflexivity; try discriminate; try lia.

Lemma SFltb_trans (a b c : spec_float) :
  SFltb a b = true -> SFltb b c = true -> SFltb a c = true.
Proof.
  unfold SFltb, SFcompare. destruct a, b, c; intros H1 H2; sf_cases.
Qed.

Lemma SFleb_trans (a b c : spec_float) :
  SFleb a b = true -> SFleb b c = true -> SFleb a c = true.
Proof.
  unfold SFleb, SFcompare. destruct a, b, c; intros H1 H2; sf_cases.
Qed.

Lemma SFleb_ltb_trans (a b c : spec_float) :
  SFleb a b = true -> SFltb b c = true -> SFltb a c = true.
Proof.
  unfold SFleb, SFltb, SFcompare. destruct a, b, c; intros H1 H2; sf_cases.
Qed.

Lemma SFltb_leb_trans (a b c : spec_float) :
  SFltb a b = true -> SFleb b c = true -> SFltb a c = true.
Proof.
  unfold SFleb, SFltb, SFcompare. destruct a, b, c; intros H1 H2; sf_cases.
Qed.

Lemma SFltb_leb (a b : spec_float) : SFltb a b = true -> SFleb a b = true.
Proof. unfold SFleb, SFltb. destruct (SFcompare a b) as [[]|]; congruence. Qed.

Lemma SFltb_total (a b : spec_float) :
  is_nan a = false -> is_nan b = false -> SFltb a b = false -> SFleb b a = true.
Proof.
  unfold SFleb, SFltb, SFcompare. destruct a, b; intros H1 H2 H3; sf_cases.
Qed.

Lemma SFltb_not_nan (a b : spec_float) :
  SFltb a b = true -> is_nan a = false /\ is_nan b = false.
Proof. unfold SFltb, SFcompare. destruct a, b; simpl; intros; try discriminate; auto. Qed.

Lemma SFleb_refl (a : spec_float) : is_nan a = false -> SFleb a a = true.
Proof.
  unfold SFleb, SFcompare. destruct a; intros; sf_cases.
  all: rewrite ?Z.compare_refl, ?Pos.compare_cont_refl; simpl; auto.
Qed.

Lemma SFltb_irrefl_leb (a b : spec_float) :
  SFleb a b = true -> SFltb b a = false.
Proof.
  unfold SFleb, SFltb, SFcompare. destruct a, b; intros H1; sf_cases.
Qed.

(** ** Rounding keeps the sign *)

Lemma iter_pos_invariant {A} (P : A -> Prop) (f : A -> A) :
  (forall x, P x -> P (f x)) -> forall p x, P x -> P (SpecFloat.iter_pos f p x).
Proof.
  intros Hf. induction p as [p IH | p IH |]; intros x Hx; simpl; auto.
Qed.

Lemma shr_1_nonneg (mrs : shr_record) : 0 <= shr_m mrs -> 0 <= shr_m (shr_1 mrs).
Proof.
  destruct mrs as [m r s]. simpl. destruct m as [| [p | p |] | [p | p |]]; simpl; lia.
Qed.

Lemma shr_fexp_nonneg (prec emax m e : Z) (l : location) :
  0 <= m -> 0 <= shr_m (fst (shr_fexp prec emax m e l)).
Proof.
  intros Hm. unfold shr_fexp, shr.
  assert (H0 : 0 <= shr_m (shr_record_of_loc m l))
    by (destruct l as [| []]; simpl; exact Hm).
  destruct (fexp prec emax (Zdigits2 m + e) - e); simpl; auto.
  apply (iter_pos_invariant (fun r => 0 <= shr_m r)); auto using shr_1_nonneg.
Qed.

Lemma round_nearest_even_nonneg (m : Z) (l : location) :
  0 <= m -> 0 <= round_nearest_even m l.
Proof.
  intros Hm. destruct l as [| []]; simpl; try lia. destruct (Z.even m); lia.
Qed.


Lemma binary_round_aux_nonneg (prec emax mx ex : Z) (lx : location) :
  0 <= mx -> nonneg (binary_round_aux prec emax false mx ex lx).
Proof.
  intros Hm. unfold binary_round_aux.
  pose proof (shr_fexp_nonneg prec emax mx ex lx Hm) as H1.
  destruct (shr_fexp prec emax mx ex lx) as [mrs' e']. simpl in H1.
  pose proof (shr_fexp_nonneg prec emax _ e' loc_Exact
                (round_nearest_even_nonneg _ (loc_of_shr_record mrs') H1)) as H2.
  destruct (shr_fexp prec emax (round_nearest_even (shr_m mrs') (loc_of_shr_record mrs')) e' loc_Exact)
    as [mrs'' e'']. simpl in H2.
  destruct (shr_m mrs''); try lia; [reflexivity |].
  destruct (e'' <=? emax - prec); reflexivity.
Qed.

Lemma SFdiv_nonneg (prec emax : Z) (m1 m2 : positive) (e1 e2 : Z) :
  nonneg (SFdiv prec emax (S754_finite false m1 e1) (S754_finite false m2 e2)).
Proof.
  unfold SFdiv, SFdiv_core_binary.
  set (e' := Z.min _ _). set (m' := match _ - _ - e' with 0 => _ | Z.pos _ => _ | Z.neg _ => _ end).
  assert (Hm' : 0 <= m').
  { subst m'. destruct (e1 - e2 - e'); try lia. apply Z.shiftl_nonneg. lia. }
  pose proof (Z_div_mod m' (Zpos m2) eq_refl) as Hd.
  destruct (Z.div_eucl m' (Z.pos m2)) as [q r]. simpl.
  apply binary_round_aux_nonneg. nia.
Qed.

Lemma gt_zero_cases (x : f64) :
  py_gt x pzero = true ->
  x = S754_infinity false \/ exists m e, x = S754_finite false m e.
Proof.
  unfold py_gt, SFltb, pzero. destruct x as [s | [] | | [] m e]; simpl; try discriminate; eauto.
Qed.

Lemma py_round3_nonneg (x : f64) : py_gt x pzero = true -> nonneg (py_round3 x).
Proof.
  intros Hx. destruct (gt_zero_cases x Hx) as [-> | (m & e & ->)]; [reflexivity |].
  unfold py_round3. destruct (0 <=? e); [reflexivity |].
  destruct (div_half_even _ _); try reflexivity.
  apply SFdiv_nonneg.
Qed.

(** ** The value of a rounded result

    The operations of [SpecFloat] round through [binary_round_aux].  On
    a mantissa of at least [prec] digits in the normal range, the result
    is that mantissa cut to [prec] digits, or one unit in the last place
    more; the lemmas below follow the definitions to that fact and read
    it on the reals. *)

(** *** Digits and shifts *)

Lemma Zdigits2_bounds (p : positive) :
  2 ^ (Zpos (digits2_pos p) - 1) <= Zpos p < 2 ^ Zpos (digits2_pos p).
Proof.
  induction p as [p IH | p IH |]; cbn [digits2_pos].
  - rewrite Pos2Z.inj_succ.
    replace (Z.succ (Zpos (digits2_pos p)) - 1) with (Z.succ (Zpos (digits2_pos p) - 1)) by lia.
    rewrite !Z.pow_succ_r by lia. lia.
  - rewrite Pos2Z.inj_succ.
    replace (Z.succ (Zpos (digits2_pos p)) - 1) with (Z.succ (Zpos (digits2_pos p) - 1)) by lia.
    rewrite !Z.pow_succ_r by lia. lia.
  - simpl. lia.
Qed.

Lemma Zdigits2_unique (p : positive) (k : Z) :
  2 ^ (k - 1) <= Zpos p < 2 ^ k -> Zpos (digits2_pos p) = k.
Proof.
  intros [Hl Hu]. pose proof (Zdigits2_bounds p) as [Bl Bu].
  assert (0 < k).
  { destruct k as [| k | k]; [simpl in Hu; lia | lia |].
    rewrite Z.pow_neg_r in Hu by lia. lia. }
  destruct (Z.lt_trichotomy (Zpos (digits2_pos p)) k) as [C | [C | C]]; [| exact C |].
  - assert (2 ^ Zpos (digits2_pos p) <= 2 ^ (k - 1)) by (apply Z.pow_le_mono_r; lia). lia.
  - assert (2 ^ k <= 2 ^ (Zpos (digits2_pos p) - 1)) by (apply Z.pow_le_mono_r; lia). lia.
Qed.

Lemma shr_1_m (mrs : shr_record) :
  0 <= shr_m mrs -> shr_m (shr_1 mrs) = shr_m mrs / 2.
Proof.
  destruct mrs as [m r s]. cbn [shr_m]. intros Hm.
  destruct m as [| [p | p |] | p]; cbn [shr_1 shr_m]; try lia; try reflexivity.
  - apply Z.div_unique with 1; lia.
  - apply Z.div_unique with 0; lia.
Qed.

Lemma iter_shr_1_m (p : positive) (mrs : shr_record) :
  0 <= shr_m mrs ->
  shr_m (SpecFloat.iter_pos shr_1 p mrs) = shr_m mrs / 2 ^ Zpos p.
Proof.
  revert mrs. induction p as [p IH | p IH |]; intros mrs Hm; cbn [SpecFloat.iter_pos].
  - assert (H1 : 0 <= shr_m (shr_1 mrs))
      by (rewrite shr_1_m by assumption; apply Z.div_pos; lia).
    assert (H2 : 0 <= shr_m (SpecFloat.iter_pos shr_1 p (shr_1 mrs)))
      by (rewrite IH by assumption; apply Z.div_pos; [assumption | apply Z.pow_pos_nonneg; lia]).
    rewrite IH by assumption. rewrite IH by assumption. rewrite shr_1_m by assumption.
    rewrite !Z.div_div by (try apply Z.pow_pos_nonneg; lia).
    f_equal. change (2 * (2 ^ Zpos p * 2 ^ Zpos p) = 2 ^ Zpos p~1).
    rewrite <- Z.pow_add_r by lia. rewrite <- Z.pow_succ_r by lia. f_equal. lia.
  - assert (H2 : 0 <= shr_m (SpecFloat.iter_pos shr_1 p mrs))
      by (rewrite IH by assumption; apply Z.div_pos; [assumption | apply Z.pow_pos_nonneg; lia]).
    rewrite IH by assumption. rewrite IH by assumption.
    rewrite !Z.div_div by (try apply Z.pow_pos_nonneg; lia).
    f_equal. rewrite <- Z.pow_add_r by lia. f_equal. lia.
  - now apply shr_1_m.
Qed.

Lemma shr_record_of_loc_m (m : Z) (l : location) :
  shr_m (shr_record_of_loc m l) = m.
Proof. destruct l as [| []]; reflexivity. Qed.

(** [shr] by [n]: the mantissa is divided by [2 ^ n] when [n] is
    positive, and the exponent raised by [n]. *)
Lemma shr_spec (mrs : shr_record) (e n : Z) :
  0 <= shr_m mrs ->
  shr_m (fst (shr mrs e n)) = shr_m mrs / 2 ^ Z.max 0 n /\
  snd (shr mrs e n) = e + Z.max 0 n.
Proof.
  intros Hm. destruct n as [| p | p]; cbn [shr fst snd].
  - simpl. rewrite Z.div_1_r. lia.
  - rewrite iter_shr_1_m by assumption. split; [| lia]. f_equal.
  - simpl. rewrite Z.div_1_r. lia.
Qed.

Lemma round_nearest_even_cases (m : Z) (l : location) :
  round_nearest_even m l = m \/ round_nearest_even m l = m + 1.
Proof.
  destruct l as [| []]; cbn [round_nearest_even]; auto.
  destruct (Z.even m); auto.
Qed.

Lemma Zdigits2_nonneg (m : Z) : 0 <= Zdigits2 m.
Proof. destruct m; simpl; lia. Qed.

Lemma Zdigits2_pos_bounds (m : Z) :
  0 < m -> 2 ^ (Zdigits2 m - 1) <= m < 2 ^ Zdigits2 m.
Proof. destruct m as [| p | p]; try lia. intros _. apply Zdigits2_bounds. Qed.

Lemma Zdigits2_pos_unique (m k : Z) :
  2 ^ (k - 1) <= m < 2 ^ k -> 0 < m -> Zdigits2 m = k.
Proof.
  destruct m as [| p | p]; try lia. intros Hb _. now apply Zdigits2_unique.
Qed.

Lemma div_pow2_bounds (m d n : Z) :
  0 <= n < d -> 2 ^ (d - 1) <= m < 2 ^ d ->
  2 ^ (d - n - 1) <= m / 2 ^ n < 2 ^ (d - n).
Proof.
  intros Hn [Hl Hu].
  assert (Hp : 0 < 2 ^ n) by (apply Z.pow_pos_nonneg; lia).
  split.
  - apply Z.div_le_lower_bound; [exact Hp |].
    rewrite <- Z.pow_add_r by lia. replace (n + (d - n - 1)) with (d - 1) by lia.
    exact Hl.
  - apply Z.div_lt_upper_bound; [exact Hp |].
    rewrite <- Z.pow_add_r by lia. replace (n + (d - n)) with d by lia.
    exact Hu.
Qed.

Lemma Zdigits2_div_pow2 (m n : Z) :
  0 < m -> 0 <= n < Zdigits2 m ->
  0 < m / 2 ^ n /\ Zdigits2 (m / 2 ^ n) = Zdigits2 m - n.
Proof.
  intros Hm Hn.
  pose proof (div_pow2_bounds m (Zdigits2 m) n Hn (Zdigits2_pos_bounds m Hm))
    as [Hl Hu].
  assert (0 < 2 ^ (Zdigits2 m - n - 1)) by (apply Z.pow_pos_nonneg; lia).
  split; [lia |].
  apply Zdigits2_pos_unique; [| lia]. split; [exact Hl | exact Hu].
Qed.

Lemma div_pow2_zero (m n : Z) :
  0 <= m -> Zdigits2 m <= n -> m / 2 ^ n = 0.
Proof.
  intros Hm Hn. apply Z.div_small. split; [exact Hm |].
  destruct (Z.eq_dec m 0) as [-> | Hne].
  - simpl in Hn. apply Z.pow_pos_nonneg; lia.
  - pose proof (Zdigits2_pos_bounds m ltac:(lia)) as [_ Hu].
    assert (2 ^ Zdigits2 m <= 2 ^ n)
      by (apply Z.pow_le_mono_r; [lia | exact Hn]).
    lia.
Qed.

Section Round.
Variables prec emax : Z.
Hypothesis prec_pos : 0 < prec.

(** After [shr_fexp] the mantissa has at most [prec] digits and the
    exponent is at least [emin]. *)
Lemma shr_fexp_shape (m e : Z) (l : location) :
  0 <= m ->
  0 <= shr_m (fst (shr_fexp prec emax m e l)) /\
  Zdigits2 (shr_m (fst (shr_fexp prec emax m e l))) <= prec /\
  emin prec emax <= snd (shr_fexp prec emax m e l) /\
  e <= snd (shr_fexp prec emax m e l).
Proof.
  intros Hm. unfold shr_fexp.
  set (n := fexp prec emax (Zdigits2 m + e) - e).
  assert (Hm' : 0 <= shr_m (shr_record_of_loc m l))
    by now rewrite shr_record_of_loc_m.
  destruct (shr_spec (shr_record_of_loc m l) e n Hm') as [Em Ee].
  rewrite Em, Ee, shr_record_of_loc_m.
  assert (Hf : emin prec emax <= fexp prec emax (Zdigits2 m + e)
               /\ Zdigits2 m + e - prec <= fexp prec emax (Zdigits2 m + e))
    by (unfold fexp; lia).
  pose proof (Zdigits2_nonneg m) as Hd.
  assert (Hp : 0 < 2 ^ Z.max 0 n) by (apply Z.pow_pos_nonneg; lia).
  split; [apply Z.div_pos; lia |].
  split; [| unfold n in *; lia].
  destruct (Z.le_gt_cases n 0) as [Hn | Hn].
  - replace (Z.max 0 n) with 0 by lia. rewrite Z.pow_0_r, Z.div_1_r.
    unfold n in *. lia.
  - replace (Z.max 0 n) with n by lia.
    destruct (Z.le_gt_cases (Zdigits2 m) n) as [Hdn | Hdn].
    + rewrite div_pow2_zero by assumption. simpl. lia.
    + assert (0 < m) by (destruct m; simpl in *; lia).
      destruct (Zdigits2_div_pow2 m n) as [_ ->]; [assumption | lia |].
      unfold n in *. lia.
Qed.

(** The shape of every rounded result. *)
Lemma binary_round_aux_shape (s : bool) (m e : Z) (l : location) :
  0 <= m ->
  match binary_round_aux prec emax s m e l with
  | S754_finite s' m' e' =>
      s' = s /\ Zpos (digits2_pos m') <= prec /\
      emin prec emax <= e' <= emax - prec /\ e <= e'
  | S754_zero s' => s' = s
  | S754_infinity s' => s' = s
  | S754_nan => False
  end.
Proof.
  intros Hm. unfold binary_round_aux.
  destruct (shr_fexp prec emax m e l) as [mrs' e'] eqn:E1.
  pose proof (shr_fexp_shape m e l Hm) as (A1 & _ & _ & A4).
  rewrite E1 in A1, A4. cbn [fst snd] in A1, A4.
  set (m2 := round_nearest_even (shr_m mrs') (loc_of_shr_record mrs')).
  assert (Hm2 : 0 <= m2)
    by (destruct (round_nearest_even_cases (shr_m mrs') (loc_of_shr_record mrs'));
        unfold m2; lia).
  destruct (shr_fexp prec emax m2 e' loc_Exact) as [mrs'' e''] eqn:E2.
  pose proof (shr_fexp_shape m2 e' loc_Exact Hm2) as (B1 & B2 & B3 & B4).
  rewrite E2 in B1, B2, B3, B4. cbn [fst snd] in B1, B2, B3, B4.
  destruct (shr_m mrs'') as [| p | p] eqn:Em; [reflexivity | | lia].
  destruct (e'' <=? emax - prec) eqn:Ele; [| reflexivity].
  apply Z.leb_le in Ele. simpl in B2. repeat split; lia.
Qed.

Lemma shr_fexp_spec (m e : Z) (l : location) :
  0 <= m ->
  shr_m (fst (shr_fexp prec emax m e l))
  = m / 2 ^ Z.max 0 (fexp prec emax (Zdigits2 m + e) - e) /\
  snd (shr_fexp prec emax m e l)
  = e + Z.max 0 (fexp prec emax (Zdigits2 m + e) - e).
Proof.
  intros Hm. unfold shr_fexp.
  assert (Hm' : 0 <= shr_m (shr_record_of_loc m l))
    by now rewrite shr_record_of_loc_m.
  destruct (shr_spec (shr_record_of_loc m l) e
                     (fexp prec emax (Zdigits2 m + e) - e) Hm') as [Em Ee].
  now rewrite Em, Ee, shr_record_of_loc_m.
Qed.

(** Rounding a mantissa of at least [prec] digits in the normal range:
    the result is the mantissa cut to [prec] digits, or that plus one
    unit in the last place. *)
Lemma binary_round_aux_normal (s : bool) (m e : Z) (l : location) :
  0 < m -> prec <= Zdigits2 m ->
  emin prec emax <= Zdigits2 m + e - prec ->
  Zdigits2 m + e - prec + 1 <= emax - prec ->
  exists m'' e'' m2,
    binary_round_aux prec emax s m e l = S754_finite s m'' e'' /\
    Zpos (digits2_pos m'') = prec /\
    m / 2 ^ (Zdigits2 m - prec) <= m2 <= m / 2 ^ (Zdigits2 m - prec) + 1 /\
    ((e'' = e + (Zdigits2 m - prec) /\ Zpos m'' = m2) \/
     (e'' = e + (Zdigits2 m - prec) + 1 /\ 2 * Zpos m'' = m2)).
Proof.
  intros Hm Hd Hlo Hhi. set (d := Zdigits2 m) in *.
  unfold binary_round_aux.
  destruct (shr_fexp prec emax m e l) as [mrs' e'] eqn:E1.
  destruct (shr_fexp_spec m e l ltac:(lia)) as [A1 A2].
  rewrite E1 in A1, A2. cbn [fst snd] in A1, A2. fold d in A1, A2.
  assert (Hn : Z.max 0 (fexp prec emax (d + e) - e) = d - prec)
    by (unfold fexp; lia).
  rewrite Hn in A1, A2.
  destruct (Zdigits2_div_pow2 m (d - prec) Hm ltac:(fold d; lia)) as [B1 B2].
  fold d in B2. rewrite <- A1 in B1, B2.
  replace (d - (d - prec)) with prec in B2 by lia.
  set (m1 := shr_m mrs') in *.
  set (m2 := round_nearest_even m1 (loc_of_shr_record mrs')).
  assert (Hm2 : m2 = m1 \/ m2 = m1 + 1) by apply round_nearest_even_cases.
  pose proof (Zdigits2_pos_bounds m1 B1) as [C1 C2]. rewrite B2 in C1, C2.
  destruct (shr_fexp prec emax m2 e' loc_Exact) as [mrs'' e''] eqn:E2.
  destruct (shr_fexp_spec m2 e' loc_Exact ltac:(lia)) as [D1 D2].
  rewrite E2 in D1, D2. cbn [fst snd] in D1, D2.
  destruct (Z.lt_ge_cases m2 (2 ^ prec)) as [Hlt | Hge].
  - assert (Hd2 : Zdigits2 m2 = prec)
      by (apply Zdigits2_pos_unique; lia).
    rewrite Hd2 in D1, D2.
    replace (Z.max 0 (fexp prec emax (prec + e') - e')) with 0 in D1, D2
      by (unfold fexp; lia).
    rewrite Z.pow_0_r, Z.div_1_r in D1. rewrite D1.
    destruct m2 as [| p | p] eqn:Ep; try lia.
    replace (e'' <=? emax - prec) with true by (symmetry; apply Z.leb_le; lia).
    exists p, e'', (Zpos p). split; [reflexivity |].
    split; [exact Hd2 |]. split; [lia |]. left. split; lia.
  - assert (Hm2' : m2 = 2 ^ prec) by lia.
    assert (Hd2 : Zdigits2 m2 = prec + 1).
    { apply Zdigits2_pos_unique; [| lia]. rewrite Hm2'.
      replace (prec + 1 - 1) with prec by lia. split; [lia |].
      apply Z.pow_lt_mono_r; lia. }
    rewrite Hd2 in D1, D2.
    replace (Z.max 0 (fexp prec emax (prec + 1 + e') - e')) with 1 in D1, D2
      by (unfold fexp; lia).
    assert (Hhalf : m2 / 2 ^ 1 = 2 ^ (prec - 1)).
    { rewrite Hm2'. rewrite <- Z.pow_sub_r by lia. reflexivity. }
    rewrite Hhalf in D1. rewrite D1.
    assert (Hpp : 0 < 2 ^ (prec - 1)) by (apply Z.pow_pos_nonneg; lia).
    assert (Hdbl : 2 ^ prec = 2 * 2 ^ (prec - 1)).
    { replace prec with (Z.succ (prec - 1)) at 1 by lia.
      now rewrite Z.pow_succ_r by lia. }
    destruct (2 ^ (prec - 1)) as [| p | p] eqn:Ep; try lia.
    replace (e'' <=? emax - prec) with true by (symmetry; apply Z.leb_le; lia).
    exists p, e'', m2. split; [reflexivity |].
    split.
    { apply (Zdigits2_unique p prec). rewrite <- Ep. split; [lia |].
      apply Z.pow_lt_mono_r; lia. }
    split; [lia |]. right. split; lia.
Qed.
End Round.

Local Open Scope R_scope.

(** *** Values on the reals *)

Lemma bpow_pos (e : Z) : 0 < bpow e.
Proof. apply powerRZ_lt. lra. Qed.

Lemma bpow_add (a b : Z) : bpow (a + b) = bpow a * bpow b.
Proof. apply powerRZ_add. lra. Qed.

Lemma bpow_0 : bpow 0 = 1.
Proof. reflexivity. Qed.

Lemma bpow_1 : bpow 1 = 2.
Proof. unfold bpow. simpl. lra. Qed.

Lemma bpow_IZR (n : Z) : (0 <= n)%Z -> bpow n = IZR (2 ^ n).
Proof.
  intros Hn. unfold bpow.
  rewrite <- (Z2Nat.id n Hn) at 2. rewrite <- pow_IZR.
  rewrite <- (Z2Nat.id n Hn) at 1. symmetry. apply pow_powerRZ.
Qed.

Lemma bpow_le (a b : Z) : (a <= b)%Z -> bpow a <= bpow b.
Proof.
  intros Hab. replace b with (a + (b - a))%Z by lia. rewrite bpow_add.
  assert (1 <= bpow (b - a)).
  { rewrite bpow_IZR by lia. apply IZR_le.
    assert (0 < 2 ^ (b - a))%Z by (apply Z.pow_pos_nonneg; lia). lia. }
  pose proof (bpow_pos a). nra.
Qed.

Lemma bpow_opp (a : Z) : bpow a * bpow (- a) = 1.
Proof. rewrite <- bpow_add. replace (a + - a)%Z with 0%Z by lia. reflexivity. Qed.

Lemma F2R_carry (m m2 e : Z) : (2 * m = m2)%Z -> F2R m (e + 1) = F2R m2 e.
Proof.
  intros <-. unfold F2R. rewrite bpow_add, bpow_1, mult_IZR. lra.
Qed.

(** The rounded value, relative to the value of the mantissa it was
    rounded from. *)
Lemma binary_round_aux_value (prec emax : Z) (s : bool) (m e : Z)
      (l : location) :
  (0 < prec)%Z -> (0 < m)%Z -> (prec <= Zdigits2 m)%Z ->
  (emin prec emax <= Zdigits2 m + e - prec)%Z ->
  (Zdigits2 m + e - prec + 1 <= emax - prec)%Z ->
  exists m'' e'',
    binary_round_aux prec emax s m e l = S754_finite s m'' e'' /\
    Zpos (digits2_pos m'') = prec /\
    (e + (Zdigits2 m - prec) <= e'' <= e + (Zdigits2 m - prec) + 1)%Z /\
    (1 - bpow (1 - prec)) * F2R m e <= F2R (Zpos m'') e''
    <= (1 + bpow (1 - prec)) * F2R m e.
Proof.
  intros Hprec Hm Hd Hlo Hhi.
  destruct (binary_round_aux_normal prec emax Hprec s m e l Hm Hd Hlo Hhi)
    as (m'' & e'' & m2 & E & Hdig & Hm2 & Hcase).
  exists m'', e''. split; [exact E |]. split; [exact Hdig |].
  split; [lia |].
  set (n := (Zdigits2 m - prec)%Z) in *.
  set (T := (2 ^ n)%Z) in *.
  assert (HT : (0 < T)%Z) by (apply Z.pow_pos_nonneg; lia).
  assert (HV : F2R (Zpos m'') e'' = IZR m2 * IZR T * bpow e).
  { assert (Hb : bpow (e + n) = IZR T * bpow e)
      by (rewrite bpow_add, (bpow_IZR n) by lia; fold T; lra).
    destruct Hcase as [[-> ->] | [-> H2]].
    - unfold F2R. rewrite Hb. lra.
    - rewrite (F2R_carry _ m2) by exact H2. unfold F2R. rewrite Hb. lra. }
  assert (Hdiv1 : (T * (m / T) <= m)%Z) by (apply Z.mul_div_le; lia).
  assert (Hdiv2 : (m < T * (m / T + 1))%Z).
  { pose proof (Z.mul_succ_div_gt m T HT). lia. }
  assert (HmT : (T * 2 ^ (prec - 1) <= m)%Z).
  { pose proof (Zdigits2_pos_bounds m Hm) as [Hl _].
    unfold T. rewrite <- Z.pow_add_r by lia.
    replace (n + (prec - 1))%Z with (Zdigits2 m - 1)%Z by (unfold n; lia).
    exact Hl. }
  assert (Hu : IZR T <= IZR m * bpow (1 - prec)).
  { apply IZR_le in HmT. rewrite mult_IZR, <- bpow_IZR in HmT by lia.
    pose proof (bpow_opp (prec - 1)) as Ho.
    replace (- (prec - 1))%Z with (1 - prec)%Z in Ho by lia.
    pose proof (bpow_pos (1 - prec)) as Hp.
    assert (IZR T * bpow (prec - 1) * bpow (1 - prec)
            <= IZR m * bpow (1 - prec)) as Hc
      by (apply Rmult_le_compat_r; lra).
    rewrite Rmult_assoc, Ho, Rmult_1_r in Hc. exact Hc. }
  pose proof (bpow_pos e) as Hpe.
  assert (H1 : IZR m - IZR T <= IZR m2 * IZR T).
  { rewrite <- minus_IZR, <- mult_IZR. apply IZR_le. nia. }
  assert (H2 : IZR m2 * IZR T <= IZR m + IZR T).
  { rewrite <- plus_IZR, <- mult_IZR. apply IZR_le. nia. }
  rewrite HV. unfold F2R. split.
  - apply Rle_trans with ((IZR m - IZR T) * bpow e); [| nra].
    nra.
  - apply Rle_trans with ((IZR m + IZR T) * bpow e); [nra |].
    nra.
Qed.

Local Open Scope Z_scope.

Lemma Zdigits2_range (m a b : Z) :
  0 <= a -> 2 ^ a <= m < 2 ^ b -> a + 1 <= Zdigits2 m <= b.
Proof.
  intros Ha [Hl Hu].
  assert (Hm : 0 < m) by (assert (0 < 2 ^ a) by (apply Z.pow_pos_nonneg; lia); lia).
  pose proof (Zdigits2_pos_bounds m Hm) as [Bl Bu].
  pose proof (Zdigits2_nonneg m) as Hd.
  split.
  - destruct (Z.lt_ge_cases a (Zdigits2 m)) as [C | C]; [lia |].
    assert (2 ^ Zdigits2 m <= 2 ^ a) by (apply Z.pow_le_mono_r; lia). lia.
  - destruct (Z.le_gt_cases (Zdigits2 m) b) as [C | C]; [lia |].
    assert (0 <= b).
    { destruct b as [| b | b]; try lia. rewrite Z.pow_neg_r in Hu by lia. lia. }
    assert (2 ^ b <= 2 ^ (Zdigits2 m - 1)) by (apply Z.pow_le_mono_r; lia). lia.
Qed.

(** A mantissa of exactly [prec] digits within the exponent range is
    returned as it is. *)
Lemma binary_round_aux_exact (prec emax : Z) (s : bool) (m : positive)
      (e : Z) :
  0 < prec -> Zpos (digits2_pos m) = prec ->
  emin prec emax <= e <= emax - prec ->
  binary_round_aux prec emax s (Zpos m) e loc_Exact = S754_finite s m e.
Proof.
  intros Hprec Hd He. unfold binary_round_aux, shr_fexp.
  cbn [Zdigits2]. rewrite Hd.
  replace (fexp prec emax (prec + e) - e) with 0 by (unfold fexp; lia).
  cbn [shr shr_record_of_loc shr_m loc_of_shr_record round_nearest_even Zdigits2].
  rewrite Hd.
  replace (fexp prec emax (prec + e) - e) with 0 by (unfold fexp; lia).
  cbn [shr shr_record_of_loc shr_m].
  replace (e <=? emax - prec) with true by (symmetry; apply Z.leb_le; lia).
  reflexivity.
Qed.

Lemma iter_xO (k m : positive) :
  Zpos (Pos.iter xO m k) = Zpos m * 2 ^ Zpos k.
Proof.
  induction k as [| k IH] using Pos.peano_ind.
  - simpl. lia.
  - rewrite Pos.iter_succ, Pos2Z.inj_xO, IH, Pos2Z.inj_succ, Z.pow_succ_r by lia.
    lia.
Qed.

(** Widening: a finite number with at most [p] digits is exactly
    representable with [prec > p] digits, the mantissa shifted up to
    [prec] digits. *)
Lemma binary_round_widen (prec emax : Z) (s : bool) (m : positive) (e : Z) :
  0 < prec -> Zpos (digits2_pos m) < prec ->
  emin prec emax <= Zpos (digits2_pos m) + e - prec ->
  Zpos (digits2_pos m) + e <= emax ->
  exists m',
    binary_round prec emax s m e
    = S754_finite s m' (Zpos (digits2_pos m) + e - prec) /\
    Zpos (digits2_pos m') = prec /\
    Zpos m' = Zpos m * 2 ^ (prec - Zpos (digits2_pos m)).
Proof.
  intros Hprec Hd Hlo Hhi. unfold binary_round, shl_align.
  set (d := Zpos (digits2_pos m)) in *.
  replace (fexp prec emax (d + e)) with (d + e - prec) by (unfold fexp; lia).
  destruct (d + e - prec - e) as [| k | k] eqn:Ek; try lia.
  assert (Hk : Zpos k = prec - d) by lia.
  exists (Pos.iter xO m k).
  assert (Hv : Zpos (Pos.iter xO m k) = Zpos m * 2 ^ (prec - d))
    by (rewrite iter_xO, Hk; reflexivity).
  assert (Hdig : Zpos (digits2_pos (Pos.iter xO m k)) = prec).
  { apply Zdigits2_unique. rewrite Hv.
    pose proof (Zdigits2_bounds m) as [Bl Bu]. fold d in Bl, Bu.
    assert (Hp : 0 < 2 ^ (prec - d)) by (apply Z.pow_pos_nonneg; lia).
    assert (E1 : 2 ^ (prec - 1) = 2 ^ (d - 1) * 2 ^ (prec - d))
      by (rewrite <- Z.pow_add_r by lia; f_equal; lia).
    assert (E2 : 2 ^ prec = 2 ^ d * 2 ^ (prec - d))
      by (rewrite <- Z.pow_add_r by lia; f_equal; lia).
    rewrite E1, E2. split; nia. }
  split; [| split; assumption].
  apply binary_round_aux_exact; [lia | exact Hdig | lia].
Qed.

(** ** binary32 operations on normal numbers *)

Lemma normal24_bounds (m : positive) :
  Zpos (digits2_pos m) = 24 -> 8388608 <= Zpos m < 16777216.
Proof. intros Hd. pose proof (Zdigits2_bounds m) as B. rewrite Hd in B. exact B. Qed.

Lemma emin32 : emin 24 128 = -149.
Proof. reflexivity. Qed.

Lemma emin64 : emin 53 1024 = -1074.
Proof. reflexivity. Qed.

Lemma f32_mul_value (ma mb : positive) (ea eb : Z) :
  Zpos (digits2_pos ma) = 24 -> Zpos (digits2_pos mb) = 24 ->
  -170 <= ea + eb <= 70 ->
  exists mp ep,
    SFmul 24 128 (S754_finite false ma ea) (S754_finite false mb eb)
    = S754_finite false mp ep /\
    Zpos (digits2_pos mp) = 24 /\
    ea + eb + 23 <= ep <= ea + eb + 25 /\
    ((1 - bpow (-23)) * (F2R (Zpos ma) ea * F2R (Zpos mb) eb)
     <= F2R (Zpos mp) ep
     <= (1 + bpow (-23)) * (F2R (Zpos ma) ea * F2R (Zpos mb) eb))%R.
Proof.
  intros Ha Hb He. cbn [SFmul xorb].
  pose proof (normal24_bounds ma Ha) as Ba.
  pose proof (normal24_bounds mb Hb) as Bb.
  assert (Hd : 47 <= Zdigits2 (Zpos (ma * mb)) <= 48).
  { replace 47 with (46 + 1) by lia. apply Zdigits2_range; [lia |].
    rewrite Pos2Z.inj_mul. change (2 ^ 46) with 70368744177664.
    change (2 ^ 48) with 281474976710656. nia. }
  destruct (binary_round_aux_value 24 128 false (Zpos (ma * mb)) (ea + eb)
              loc_Exact) as (mp & ep & E & Hdig & Hep & Hv);
    try rewrite emin32; try lia.
  exists mp, ep. split; [exact E |]. split; [exact Hdig |].
  split; [lia |].
  replace (F2R (Zpos ma) ea * F2R (Zpos mb) eb)%R
    with (F2R (Zpos (ma * mb)) (ea + eb)); [exact Hv |].
  unfold F2R. rewrite Pos2Z.inj_mul, mult_IZR, bpow_add. ring.
Qed.

Lemma F2R_shift (m e s : Z) : 0 <= s -> F2R (m * 2 ^ s) e = F2R m (e + s).
Proof.
  intros Hs. unfold F2R. rewrite mult_IZR, bpow_add, (bpow_IZR s) by lia. ring.
Qed.

Lemma f32_sqrt_value (mx : positive) (ex : Z) :
  Zpos (digits2_pos mx) = 24 -> -100 <= ex <= 60 ->
  exists mn en m' q0 m2 e',
    SFsqrt 24 128 (S754_finite false mx ex) = S754_finite false mn en /\
    Zpos (digits2_pos mn) = 24 /\
    ex - 24 <= 2 * en <= ex - 21 /\
    8388608 <= q0 /\
    q0 * q0 <= m' < (q0 + 1) * (q0 + 1) /\
    q0 <= m2 <= q0 + 1 /\
    F2R (Zpos mx) ex = F2R m' (2 * e') /\
    F2R (Zpos mn) en = F2R m2 e'.
Proof.
  intros Hd He. pose proof (normal24_bounds mx Hd) as Bx.
  cbn [SFsqrt]. unfold SFsqrt_core_binary. cbn [Zdigits2]. rewrite Hd.
  set (e' := Z.min (fexp 24 128 (Z.div2 (24 + ex + 1))) (Z.div2 ex)).
  assert (He' : 2 * e' = ex - 23 \/ 2 * e' = ex - 24).
  { unfold e', fexp. rewrite emin32, !Z.div2_div.
    Z.div_mod_to_equations. lia. }
  assert (Hs : exists s, ex - 2 * e' = Zpos s /\ (Zpos s = 23 \/ Zpos s = 24)).
  { destruct (ex - 2 * e') as [| s | s] eqn:Es; try lia. exists s. lia. }
  destruct Hs as (s & Es & Hs). rewrite Es. cbv iota.
  rewrite Z.shiftl_mul_pow2 by lia.
  set (m' := Zpos mx * 2 ^ Zpos s).
  assert (Bm : 2 ^ 46 <= m' < 2 ^ 48).
  { unfold m'. destruct Hs as [-> | ->].
    - change (2 ^ 23) with 8388608. change (2 ^ 46) with 70368744177664.
      change (2 ^ 48) with 281474976710656. lia.
    - change (2 ^ 24) with 16777216. change (2 ^ 46) with 70368744177664.
      change (2 ^ 48) with 281474976710656. lia. }
  change (2 ^ 46) with 70368744177664 in Bm.
  change (2 ^ 48) with 281474976710656 in Bm.
  pose proof (Z.sqrtrem_spec m' ltac:(lia)) as Hsq.
  destruct (Z.sqrtrem m') as [q r]. destruct Hsq as [Hq Hr].
  assert (Bq : 8388608 <= q < 16777216) by nia.
  assert (Hdq : Zdigits2 q = 24) by (apply Zdigits2_pos_unique; simpl; lia).
  match goal with
  | |- context [binary_round_aux 24 128 false q e' ?l] =>
      destruct (binary_round_aux_normal 24 128 ltac:(lia) false q e' l)
        as (mn & en & m2 & E & Hdig & Hm2 & Hcase)
  end; try rewrite Hdq; try rewrite emin32; try lia.
  rewrite Hdq in Hm2, Hcase. change (2 ^ (24 - 24)) with 1 in Hm2.
  rewrite Z.div_1_r in Hm2.
  exists mn, en, m', q, m2, e'.
  split; [exact E |]. split; [exact Hdig |].
  split; [lia |]. split; [lia |]. split; [nia |]. split; [lia |].
  split.
  - unfold m'. rewrite F2R_shift by lia. f_equal. lia.
  - destruct Hcase as [[-> ->] | [-> H2]].
    + f_equal. lia.
    + replace (e' + (24 - 24) + 1) with (e' + 1) by lia.
      now apply F2R_carry.
Qed.

Lemma f32_div_value (mx mp : positive) (ex ep : Z) :
  Zpos (digits2_pos mx) = 24 -> Zpos (digits2_pos mp) = 24 ->
  -60 <= ex - ep <= 60 ->
  exists mq eq,
    SFdiv 24 128 (S754_finite false mx ex) (S754_finite false mp ep)
    = S754_finite false mq eq /\
    Zpos (digits2_pos mq) = 24 /\
    ex - ep - 24 <= eq <= ex - ep - 22 /\
    ((1 - bpow (-23)) * F2R (Zpos mx) ex
     <= (1 + bpow (-23)) * (F2R (Zpos mq) eq * F2R (Zpos mp) ep))%R.
Proof.
  intros Hdx Hdp He.
  pose proof (normal24_bounds mx Hdx) as Bx.
  pose proof (normal24_bounds mp Hdp) as Bp.
  cbn [SFdiv xorb]. unfold SFdiv_core_binary. cbn [Zdigits2].
  rewrite Hdx, Hdp.
  replace (Z.min (fexp 24 128 (24 + ex - (24 + ep))) (ex - ep))
    with (ex - ep - 24) by (unfold fexp; rewrite emin32; lia).
  replace (ex - ep - (ex - ep - 24)) with 24 by lia. cbv iota.
  rewrite Z.shiftl_mul_pow2 by lia. change (2 ^ 24) with 16777216.
  set (m' := Zpos mx * 16777216).
  pose proof (Z.div_eucl_eq m' (Zpos mp) ltac:(lia)) as Heq.
  pose proof (Z.mod_pos_bound m' (Zpos mp) ltac:(lia)) as Hmod.
  unfold Z.modulo in Hmod.
  destruct (Z.div_eucl m' (Zpos mp)) as [q r]. cbn [snd] in Hmod.
  assert (Bq : 8388608 <= q < 33554432) by (unfold m' in *; nia).
  assert (Hdq : 24 <= Zdigits2 q <= 25).
  { replace 24 with (23 + 1) at 1 by lia. apply Zdigits2_range; [lia |].
    change (2 ^ 23) with 8388608. change (2 ^ 25) with 33554432. exact Bq. }
  destruct (binary_round_aux_value 24 128 false q (ex - ep - 24)
              (new_location (Zpos mp) r))
    as (mq & eq & E & Hdig & Heq' & Hv);
    try rewrite emin32; try lia.
  exists mq, eq. split; [exact E |]. split; [exact Hdig |].
  split; [lia |].
  destruct Hv as [Hv _].
  change (1 - 24)%Z with (-23)%Z in Hv.
  set (u := bpow (-23)) in *.
  assert (Hu : u = (/ 8388608)%R).
  { unfold u, bpow. simpl. lra. }
  set (P := F2R (Zpos mp) ep).
  set (B := bpow (ex - 24)).
  assert (HB : (0 < B)%R) by apply bpow_pos.
  assert (HX : F2R (Zpos mx) ex = (IZR m' * B)%R).
  { unfold m', B, F2R. rewrite mult_IZR.
    replace ex with ((ex - 24) + 24) at 1 by lia.
    rewrite bpow_add, (bpow_IZR 24) by lia. change (2 ^ 24) with 16777216.
    ring. }
  assert (HQP : (F2R q (ex - ep - 24) * P = IZR q * IZR (Zpos mp) * B)%R).
  { unfold P, B, F2R.
    replace (ex - 24) with ((ex - ep - 24) + ep) by lia.
    rewrite bpow_add. ring. }
  assert (Hlt : (IZR m' <= (IZR q + 1) * IZR (Zpos mp))%R).
  { rewrite <- (plus_IZR q 1), <- mult_IZR. apply IZR_le. nia. }
  assert (Hq1 : (IZR q + 1 <= (1 + u) * IZR q)%R).
  { assert (8388608 <= IZR q)%R by (apply IZR_le; lia). rewrite Hu. lra. }
  assert (HP : (0 < P)%R).
  { unfold P, F2R. apply Rmult_lt_0_compat; [apply IZR_lt; lia | apply bpow_pos]. }
  assert (Hmp : (0 < IZR (Zpos mp))%R) by (apply IZR_lt; lia).
  assert (Hqpos : (0 < IZR q)%R) by (apply IZR_lt; lia).
  (* X <= (1 + u) * (F2R q e' * P) *)
  assert (H1 : (F2R (Zpos mx) ex <= (1 + u) * (F2R q (ex - ep - 24) * P))%R).
  { rewrite HX, HQP.
    apply Rle_trans with ((IZR q + 1) * IZR (Zpos mp) * B)%R.
    - apply Rmult_le_compat_r; lra.
    - replace ((1 + u) * (IZR q * IZR (Zpos mp) * B))%R
        with (((1 + u) * IZR q) * (IZR (Zpos mp) * B))%R by ring.
      rewrite Rmult_assoc. apply Rmult_le_compat_r; [| exact Hq1].
      apply Rlt_le, Rmult_lt_0_compat; lra. }
  assert (H2 : ((1 - u) * (F2R q (ex - ep - 24) * P)
                <= F2R (Zpos mq) eq * P)%R).
  { rewrite <- Rmult_assoc. apply Rmult_le_compat_r; lra. }
  assert (Hu1 : (0 < 1 - u)%R) by (rewrite Hu; lra).
  assert (Hu2 : (0 < 1 + u)%R) by (rewrite Hu; lra).
  apply Rle_trans with ((1 - u) * ((1 + u) * (F2R q (ex - ep - 24) * P)))%R.
  - apply Rmult_le_compat_l; lra.
  - replace ((1 - u) * ((1 + u) * (F2R q (ex - ep - 24) * P)))%R
      with ((1 + u) * ((1 - u) * (F2R q (ex - ep - 24) * P)))%R by ring.
    apply Rmult_le_compat_l; lra.
Qed.

(** The cosine of a vector with itself in binary32, from its squared
    norm [x]: [x / (sqrt x * sqrt x)] is within a few units in the last
    place of one. *)
Lemma self_score_f32 (mx : positive) (ex : Z) :
  Zpos (digits2_pos mx) = 24 -> -100 <= ex <= 60 ->
  exists mn en mq eq,
    SFsqrt 24 128 (S754_finite false mx ex) = S754_finite false mn en /\
    SFdiv 24 128 (S754_finite false mx ex)
          (SFmul 24 128 (SFsqrt 24 128 (S754_finite false mx ex))
                        (SFsqrt 24 128 (S754_finite false mx ex)))
    = S754_finite false mq eq /\
    Zpos (digits2_pos mq) = 24 /\
    -24 <= eq <= -21 /\
    (eq = -24 -> 16777200 <= Zpos mq).
Proof.
  intros Hd He.
  destruct (f32_sqrt_value mx ex Hd He)
    as (mn & en & m' & q0 & m2 & e' & En & Hdn & Hen & Hq0 & Hm' & Hm2 & HX & HN).
  destruct (f32_mul_value mn mn en en Hdn Hdn ltac:(lia))
    as (mp & ep & Ep & Hdp & Hep & [_ HP]).
  destruct (f32_div_value mx mp ex ep Hd Hdp ltac:(lia))
    as (mq & eq & Eq & Hdq & Heq & HQ).
  exists mn, en, mq, eq. rewrite En, Ep, Eq.
  split; [reflexivity |]. split; [reflexivity |]. split; [exact Hdq |].
  set (u := bpow (-23)) in *.
  assert (Hu : u = (/ 8388608)%R) by (unfold u, bpow; simpl; lra).
  set (B := bpow e').
  assert (HB : (0 < B)%R) by apply bpow_pos.
  set (X := F2R (Zpos mx) ex) in *.
  set (N := F2R (Zpos mn) en) in *.
  set (P := F2R (Zpos mp) ep) in *.
  set (Qv := F2R (Zpos mq) eq) in *.
  assert (HXv : X = (IZR m' * (B * B))%R).
  { rewrite HX. unfold F2R, B. f_equal.
    replace (2 * e') with (e' + e') by lia. apply bpow_add. }
  assert (HNv : N = (IZR m2 * B)%R) by exact HN.
  assert (Hq0R : (8388608 <= IZR q0)%R) by (apply IZR_le; lia).
  assert (Hm2R : (0 <= IZR m2 <= IZR q0 + 1)%R).
  { split; [apply IZR_le; lia |]. rewrite <- (plus_IZR q0 1). apply IZR_le. lia. }
  assert (Hm'R : (IZR q0 * IZR q0 <= IZR m')%R).
  { rewrite <- mult_IZR. apply IZR_le. lia. }
  assert (HBB : (0 < B * B)%R) by (apply Rmult_lt_0_compat; lra).
  assert (Hq1 : (IZR q0 + 1 <= (1 + u) * IZR q0)%R) by (rewrite Hu; lra).
  (* N * N <= (1 + u)^2 * X *)
  assert (HNN : (N * N <= (1 + u) * (1 + u) * X)%R).
  { rewrite HNv, HXv.
    replace (IZR m2 * B * (IZR m2 * B))%R
      with ((IZR m2 * IZR m2) * (B * B))%R by ring.
    replace ((1 + u) * (1 + u) * (IZR m' * (B * B)))%R
      with (((1 + u) * (1 + u) * IZR m') * (B * B))%R by ring.
    apply Rmult_le_compat_r; [lra |].
    apply Rle_trans with (((1 + u) * IZR q0) * ((1 + u) * IZR q0))%R.
    - apply Rmult_le_compat; lra.
    - replace ((1 + u) * IZR q0 * ((1 + u) * IZR q0))%R
        with ((1 + u) * (1 + u) * (IZR q0 * IZR q0))%R by ring.
      apply Rmult_le_compat_l; [| exact Hm'R].
      rewrite Hu. lra. }
  assert (HXpos : (0 < X)%R).
  { rewrite HXv. apply Rmult_lt_0_compat; [| exact HBB].
    apply Rlt_le_trans with (IZR q0 * IZR q0)%R; [| exact Hm'R].
    apply Rmult_lt_0_compat; lra. }
  assert (HQpos : (0 < Qv)%R).
  { unfold Qv, F2R. apply Rmult_lt_0_compat; [apply IZR_lt; lia | apply bpow_pos]. }
  assert (Hu2 : (0 < 1 + u)%R) by (rewrite Hu; lra).
  assert (HPX : (P <= (1 + u) * ((1 + u) * (1 + u) * X))%R).
  { apply Rle_trans with ((1 + u) * (N * N))%R; [exact HP |].
    apply Rmult_le_compat_l; lra. }
  assert (Hfin : ((1 - u) * X
                  <= (1 + u) * (Qv * ((1 + u) * ((1 + u) * (1 + u) * X))))%R).
  { apply Rle_trans with ((1 + u) * (Qv * P))%R; [exact HQ |].
    apply Rmult_le_compat_l; [lra |].
    apply Rmult_le_compat_l; lra. }
  assert (Hq : ((1 - u) <= (1 + u) * (1 + u) * (1 + u) * (1 + u) * Qv)%R).
  { apply Rmult_le_reg_r with X; [exact HXpos |].
    replace ((1 + u) * (1 + u) * (1 + u) * (1 + u) * Qv * X)%R
      with ((1 + u) * (Qv * ((1 + u) * ((1 + u) * (1 + u) * X))))%R by ring.
    exact Hfin. }
  rewrite Hu in Hq.
  assert (Hlow : (16777199 / 16777216 < Qv)%R) by lra.
  pose proof (normal24_bounds mq Hdq) as Bq.
  assert (Hmq : (IZR (Zpos mq) < 16777216)%R) by (apply IZR_lt; lia).
  assert (Hge : -24 <= eq).
  { destruct (Z.le_gt_cases (-24) eq) as [C | C]; [exact C |].
    exfalso.
    assert (Hb : (bpow eq <= bpow (-25))%R) by (apply bpow_le; lia).
    assert (Hb25 : bpow (-25) = (/ 33554432)%R) by (unfold bpow; simpl; lra).
    pose proof (bpow_pos eq) as Hbp.
    assert (Qv <= IZR (Zpos mq) * bpow (-25))%R
      by (unfold Qv, F2R; apply Rmult_le_compat_l; [apply IZR_le; lia | exact Hb]).
    rewrite Hb25 in *. lra. }
  split; [lia |].
  intros ->.
  assert (Hb24 : bpow (-24) = (/ 16777216)%R) by (unfold bpow; simpl; lra).
  unfold Qv, F2R in Hlow. rewrite Hb24 in Hlow.
  assert (Hlt : (IZR 16777199 < IZR (Zpos mq))%R) by lra.
  apply lt_IZR in Hlt. lia.
Qed.

Local Close Scope R_scope.

(** ** The score of a descriptor against itself *)

Lemma f32_div_shape (a b : f32) :
  match f32_div a b with
  | S754_finite _ m e => Zpos (digits2_pos m) <= 24 /\ -149 <= e <= 104
  | _ => True
  end.
Proof.
  unfold f32_div.
  destruct a as [sa | sa | | sa ma ea], b as [sb | sb | | sb mb eb];
    cbn [SFdiv]; try exact I.
  unfold SFdiv_core_binary.
  set (m' := match _ - _ - _ with
             | Zpos _ => Z.shiftl (Zpos ma) _
             | Z0 => Zpos ma
             | Zneg _ => 0
             end).
  assert (Hm' : 0 <= m').
  { unfold m'. destruct (_ - _ - _); try lia. apply Z.shiftl_nonneg. lia. }
  pose proof (Z.div_pos m' (Zpos mb) Hm' ltac:(lia)) as Hq.
  unfold Z.div in Hq. destruct (Z.div_eucl m' (Zpos mb)) as [q r].
  cbn [fst] in Hq.
  match goal with
  | |- context [binary_round_aux 24 128 ?s q ?e ?l] =>
      pose proof (binary_round_aux_shape 24 128 ltac:(lia) s q e l Hq) as Hs;
      destruct (binary_round_aux 24 128 s q e l); try exact I
  end.
  rewrite emin32 in Hs. change (128 - 24) with 104 in Hs. lia.
Qed.

Lemma py_float_canonical (x : f32) :
  match x with
  | S754_finite _ m e => Zpos (digits2_pos m) <= 24 /\ -149 <= e <= 104
  | _ => True
  end ->
  f64_canonical (py_float x).
Proof.
  destruct x as [s | s | | s m e]; try (intros _; exact I).
  intros [Hd He]. cbn [py_float].
  destruct (binary_round_widen 53 1024 s m e) as (m' & E & Hdig & _);
    try rewrite emin64; try lia.
  rewrite E. exact Hdig.
Qed.

Lemma calculate_similarity_canonical (features1 features2 : fvec) :
  f64_canonical (calculate_similarity features1 features2).
Proof.
  unfold calculate_similarity, cosine. cbn [a_eq0 a_zero a_div f32_arith].
  destruct (_ || _); [exact I |].
  destruct (negb _); [exact I |].
  apply py_float_canonical, f32_div_shape.
Qed.

(** The self-similarity of a descriptor whose squared norm is a positive
    normal number: a [float] within [2^-20] of one. *)
Lemma self_score_shape (d : fvec) :
  positive_normal (np_dot f32_arith d d) = true ->
  exists ms es,
    calculate_similarity d d = S754_finite false ms es /\
    Zpos (digits2_pos ms) = 53 /\
    -53 <= es /\
    (es = -53 -> 9007190664806400 <= Zpos ms).
Proof.
  intros Hn. unfold calculate_similarity, cosine, np_norm.
  cbn [a_eq0 a_zero a_div a_mul a_sqrt f32_arith].
  destruct (np_dot f32_arith d d) as [| | | [] mx ex]; try discriminate.
  cbn [positive_normal] in Hn.
  apply andb_true_iff in Hn as [Hn He2]. apply andb_true_iff in Hn as [Hd He1].
  apply Pos.eqb_eq in Hd. apply Z.leb_le in He1, He2.
  destruct (self_score_f32 mx ex) as (mn & en & mq & eq & En & Eq & Hdq & Heq & Hmq);
    [rewrite Hd; reflexivity | lia |].
  unfold f32_sqrt, f32_mul, f32_div. rewrite Eq, En.
  cbn [is_zero SFeqb SFcompare pzero orb]. rewrite Nat.eqb_refl. cbn [negb].
  cbn [py_float].
  destruct (binary_round_widen 53 1024 false mq eq) as (ms & E & Hdig & Hv);
    try rewrite emin64; try lia.
  rewrite E. exists ms, (Zpos (digits2_pos mq) + eq - 53).
  split; [reflexivity |]. split; [exact Hdig |]. rewrite Hdq in *.
  split; [lia |]. intros Hes.
  rewrite Hv. change (2 ^ (53 - 24)) with 536870912.
  assert (eq = -24) by lia. specialize (Hmq ltac:(assumption)). lia.
Qed.

(** ** Rounding a score near one to three decimals *)

Lemma div_half_even_bounds (a b : Z) :
  0 < b -> a / b <= div_half_even a b <= a / b + 1.
Proof.
  intros Hb. unfold div_half_even.
  destruct (2 * (a mod b) ?= b); [destruct (Z.even (a / b)) | |]; lia.
Qed.

(** [n / 1000] in binary64, for an integer [n] of at least 1000: a
    number of exponent -52 or more, that is, at least one. *)
Lemma f64_div_1000 (n : positive) :
  1000 <= Zpos n < 2 ^ 62 ->
  exists mc ec,
    f64_div (S754_finite false n 0) (S754_finite false 1000 0)
    = S754_finite false mc ec /\ -52 <= ec.
Proof.
  intros Hn. unfold f64_div. cbn [SFdiv xorb]. unfold SFdiv_core_binary.
  change (Zdigits2 1000) with 10.
  set (d1 := Zdigits2 (Zpos n)).
  assert (Hd1 : 10 <= d1 <= 62).
  { replace 10 with (9 + 1) by lia. apply Zdigits2_range; [lia |].
    change (2 ^ 9) with 512. lia. }
  pose proof (Zdigits2_pos_bounds (Zpos n) ltac:(lia)) as Bn. fold d1 in Bn.
  replace (Z.min (fexp 53 1024 (d1 + 0 - (10 + 0))) (0 - 0)) with (d1 - 63)
    by (unfold fexp; rewrite emin64; lia).
  destruct (0 - 0 - (d1 - 63)) as [| s | s] eqn:Es; try lia.
  rewrite Z.shiftl_mul_pow2 by lia.
  assert (Hs : Zpos s = 63 - d1) by lia. rewrite Hs.
  set (T := 2 ^ (63 - d1)).
  assert (HT : 0 < T) by (apply Z.pow_pos_nonneg; lia).
  assert (HT62 : 2 ^ (d1 - 1) * T = 2 ^ 62)
    by (unfold T; rewrite <- Z.pow_add_r by lia; f_equal; lia).
  assert (HT63 : 2 ^ d1 * T = 2 ^ 63)
    by (unfold T; rewrite <- Z.pow_add_r by lia; f_equal; lia).
  change (2 ^ 62) with 4611686018427387904 in HT62.
  change (2 ^ 63) with 9223372036854775808 in HT63.
  set (m' := Zpos n * T).
  assert (Bm : 4611686018427387904 <= m' < 9223372036854775808)
    by (unfold m'; nia).
  assert (Bm2 : 1000 * T <= m') by (unfold m'; nia).
  pose proof (Z.div_eucl_eq m' 1000 ltac:(lia)) as Heq.
  pose proof (Z.mod_pos_bound m' 1000 ltac:(lia)) as Hmod.
  unfold Z.modulo in Hmod.
  destruct (Z.div_eucl m' 1000) as [q r]. cbn [snd] in Hmod.
  assert (Bq : 2 ^ 52 <= q < 2 ^ 54).
  { change (2 ^ 52) with 4503599627370496.
    change (2 ^ 54) with 18014398509481984. lia. }
  assert (Bq2 : T <= q) by lia.
  assert (Hdq : 53 <= Zdigits2 q <= 54).
  { replace 53 with (52 + 1) at 1 by lia. apply Zdigits2_range; [lia | exact Bq]. }
  assert (Hdq2 : 64 - d1 <= Zdigits2 q).
  { pose proof (Zdigits2_pos_bounds q ltac:(lia)) as [_ Bu].
    destruct (Z.le_gt_cases (64 - d1) (Zdigits2 q)) as [C | C]; [exact C |].
    assert (2 ^ Zdigits2 q <= T)
      by (unfold T; apply Z.pow_le_mono_r; lia).
    lia. }
  destruct (binary_round_aux_value 53 1024 false q (d1 - 63)
              (new_location 1000 r))
    as (mc & ec & E & _ & Hec & _);
    try rewrite emin64; try lia.
  exists mc, ec. split; [exact E | lia].
Qed.

(** A score of at least [1 - 2^-20] is reported with a confidence above
    [0.999]. *)
Lemma py_round3_near_one (mm : positive) (em : Z) :
  Zpos (digits2_pos mm) = 53 -> -53 <= em ->
  (em = -53 -> 9007190664806400 <= Zpos mm) ->
  py_gt (py_round3 (S754_finite false mm em)) confidence_floor = true.
Proof.
  intros Hd He Hm. unfold py_gt, py_round3.
  pose proof (Zdigits2_bounds mm) as Bm. rewrite Hd in Bm.
  change (2 ^ (53 - 1)) with 4503599627370496 in Bm.
  change (2 ^ 53) with 9007199254740992 in Bm.
  destruct (0 <=? em) eqn:E0.
  - apply Z.leb_le in E0. unfold SFltb, confidence_floor. cbn [SFcompare].
    destruct (Z.compare_spec (-53) em); try reflexivity; lia.
  - apply Z.leb_gt in E0.
    set (b := 2 ^ (- em)).
    assert (Hb : 2 <= b <= 9007199254740992).
    { unfold b. split.
      - change 2 with (2 ^ 1). apply Z.pow_le_mono_r; lia.
      - change 9007199254740992 with (2 ^ 53). apply Z.pow_le_mono_r; lia. }
    pose proof (div_half_even_bounds (Zpos mm * 1000) b ltac:(lia)) as Hn.
    assert (Hq : 1000 <= div_half_even (Zpos mm * 1000) b).
    { destruct (Z.eq_dec em (-53)) as [-> | Hne].
      - specialize (Hm eq_refl). unfold b. change (2 ^ (- -53)) with 9007199254740992.
        unfold div_half_even.
        pose proof (Z.div_mod (Zpos mm * 1000) 9007199254740992 ltac:(lia)) as Hdm.
        pose proof (Z.mod_pos_bound (Zpos mm * 1000) 9007199254740992 ltac:(lia)).
        destruct (Z.compare_spec (2 * ((Zpos mm * 1000) mod 9007199254740992))
                                 9007199254740992);
          [destruct (Z.even _) | |]; lia.
      - assert (b <= 4503599627370496).
        { unfold b. change 4503599627370496 with (2 ^ 52).
          apply Z.pow_le_mono_r; lia. }
        assert (1000 <= Zpos mm * 1000 / b)
          by (apply Z.div_le_lower_bound; nia).
        lia. }
    assert (Hlt : div_half_even (Zpos mm * 1000) b < 2 ^ 62).
    { change (2 ^ 62) with 4611686018427387904.
      assert (Zpos mm * 1000 / b <= 4503599627370496000).
      { apply Z.lt_succ_r. apply Z.div_lt_upper_bound; nia. }
      lia. }
    destruct (div_half_even (Zpos mm * 1000) b) as [| n | n]; try lia.
    destruct (f64_div_1000 n ltac:(lia)) as (mc & ec & E & Hec).
    rewrite E. unfold SFltb, confidence_floor. cbn [SFcompare].
    destruct (Z.compare_spec (-53) ec); try reflexivity; lia.
Qed.

(** ** SimilarityScorer *)

Lemma is_zero_inv (x : spec_float) : is_zero x = true -> exists s, x = S754_zero s.
Proof.
  unfold is_zero, SFeqb, SFcompare, pzero.
  destruct x as [s | [] | | [] m e]; simpl; try discriminate; eauto.
Qed.

Lemma np_dot_zero_vector (a : fvec) :
  Forall (fun x => is_zero x = true) a -> np_dot f32_arith a a = pzero.
Proof.
  unfold np_dot. simpl. induction 1 as [| x a Hx _ IH]; [reflexivity |].
  destruct (is_zero_inv x Hx) as [s ->].
  cbn [combine fold_left fst snd].
  replace (f32_add pzero (f32_mul (S754_zero s) (S754_zero s))) with pzero
    by (destruct s; reflexivity).
  exact IH.
Qed.

Lemma zero_norm_scores_zero (a b : fvec) :
  is_zero (np_norm f32_arith a) = true \/ is_zero (np_norm f32_arith b) = true ->
  calculate_similarity a b = pzero.
Proof.
  intros Hz. unfold calculate_similarity, cosine. cbn [a_eq0 f32_arith a_zero].
  destruct Hz as [-> | ->]; rewrite ?orb_true_r; reflexivity.
Qed.

(** *** The same function on the reals *)

Lemma fold_dot_R_acc (l : list (R * R)) (acc : R) :
  fold_left (fun acc p => acc + fst p * snd p)%R l acc
  = (acc + fold_left (fun acc p => acc + fst p * snd p) l 0)%R.
Proof.
  revert acc. induction l as [| p l IH]; intros acc; simpl; [lra |].
  rewrite IH, (IH (0 + _)%R). lra.
Qed.

Lemma np_dot_R_cons (x y : R) (u v : list R) :
  np_dot R_arith (x :: u) (y :: v) = (x * y + np_dot R_arith u v)%R.
Proof. unfold np_dot. simpl. rewrite fold_dot_R_acc. lra. Qed.

Lemma np_dot_R_nil_l (v : list R) : np_dot R_arith [] v = 0%R.
Proof. reflexivity. Qed.

Lemma np_dot_R_self_nonneg (u : list R) : (0 <= np_dot R_arith u u)%R.
Proof.
  induction u as [| x u IH]; [rewrite np_dot_R_nil_l; lra |].
  rewrite np_dot_R_cons. nra.
Qed.

Lemma np_dot_R_self_pos (u : list R) :
  Exists (fun x => x <> 0%R) u -> (0 < np_dot R_arith u u)%R.
Proof.
  induction 1 as [x u Hx | x u _ IH]; rewrite np_dot_R_cons.
  - pose proof (np_dot_R_self_nonneg u). nra.
  - nra.
Qed.

Lemma cauchy_step (x y A P Q : R) :
  (0 <= P -> 0 <= Q -> A * A <= P * Q ->
   (x * y + A) * (x * y + A) <= (x * x + P) * (y * y + Q))%R.
Proof.
  intros HP HQ HA.
  assert (H2 : (2 * (x * y * A) <= x * x * Q + y * y * P)%R).
  { set (s := (x * x * Q + y * y * P)%R).
    assert (Hs : (0 <= s)%R) by (subst s; nra).
    assert (Hsq : ((2 * (x * y * A)) * (2 * (x * y * A)) <= s * s)%R).
    { subst s.
      assert (H4 : (0 <= (x * y) * (x * y) * (P * Q - A * A))%R).
      { apply Rmult_le_pos; [apply Rle_0_sqr | lra]. }
      pose proof (Rle_0_sqr (x * x * Q - y * y * P)) as H5.
      unfold Rsqr in H5. lra. }
    destruct (Rle_or_lt (2 * (x * y * A)) s) as [Hle | Hgt]; [exact Hle |].
    assert (Hc : (s * s < (2 * (x * y * A)) * (2 * (x * y * A)))%R)
      by (apply Rmult_le_0_lt_compat; lra).
    lra. }
  lra.
Qed.

Lemma cauchy_schwarz (u v : list R) :
  length u = length v ->
  (np_dot R_arith u v * np_dot R_arith u v
   <= np_dot R_arith u u * np_dot R_arith v v)%R.
Proof.
  revert v. induction u as [| x u IH]; intros [| y v] Hlen; try discriminate.
  - rewrite !np_dot_R_nil_l. lra.
  - rewrite !np_dot_R_cons. apply cauchy_step.
    + apply np_dot_R_self_nonneg.
    + apply np_dot_R_self_nonneg.
    + apply IH. now injection Hlen.
Qed.

Lemma cosine_R_nonzero (u v : list R) :
  length u = length v ->
  np_norm R_arith u <> 0%R -> np_norm R_arith v <> 0%R ->
  cosine R_arith u v
  = (np_dot R_arith u v / (np_norm R_arith u * np_norm R_arith v))%R.
Proof.
  intros Hlen Hu Hv. unfold cosine. cbn [a_eq0 R_arith a_zero a_div a_mul].
  destruct (Req_dec_T (np_norm R_arith u) 0); [contradiction |].
  destruct (Req_dec_T (np_norm R_arith v) 0); [contradiction |].
  rewrite Hlen, Nat.eqb_refl. reflexivity.
Qed.

Lemma cosine_R_zero_norm (u v : list R) :
  np_norm R_arith u = 0%R \/ np_norm R_arith v = 0%R ->
  cosine R_arith u v = 0%R.
Proof.
  intros Hz. unfold cosine. cbn [a_eq0 R_arith a_zero].
  destruct (Req_dec_T (np_norm R_arith u) 0); [reflexivity |].
  destruct (Req_dec_T (np_norm R_arith v) 0); [reflexivity |].
  destruct Hz; contradiction.
Qed.

Lemma cosine_R_bounds (u v : list R) :
  length u = length v -> (-1 <= cosine R_arith u v <= 1)%R.
Proof.
  intros Hlen.
  destruct (Req_dec_T (np_norm R_arith u) 0) as [Hu | Hu];
    [rewrite cosine_R_zero_norm by auto; lra |].
  destruct (Req_dec_T (np_norm R_arith v) 0) as [Hv | Hv];
    [rewrite cosine_R_zero_norm by auto; lra |].
  rewrite cosine_R_nonzero by assumption.
  pose proof (cauchy_schwarz u v Hlen) as Hcs.
  pose proof (np_dot_R_self_nonneg u) as HP.
  pose proof (np_dot_R_self_nonneg v) as HQ.
  unfold np_norm in *. cbn [a_sqrt R_arith] in *.
  set (A := np_dot R_arith u v) in *.
  set (nu := sqrt (np_dot R_arith u u)) in *.
  set (nv := sqrt (np_dot R_arith v v)) in *.
  assert (Hnu : (0 <= nu)%R) by apply sqrt_pos.
  assert (Hnv : (0 <= nv)%R) by apply sqrt_pos.
  assert (Hnu2 : (nu * nu = np_dot R_arith u u)%R) by (apply sqrt_sqrt; exact HP).
  assert (Hnv2 : (nv * nv = np_dot R_arith v v)%R) by (apply sqrt_sqrt; exact HQ).
  assert (Hd : (0 < nu * nv)%R) by nra.
  assert (Hsq : (A * A <= (nu * nv) * (nu * nv))%R) by nra.
  assert (Habs : (- (nu * nv) <= A <= nu * nv)%R) by nra.
  split.
  - apply Rmult_le_reg_r with (nu * nv)%R; [exact Hd |].
    unfold Rdiv. rewrite Rmult_assoc, Rinv_l by lra. lra.
  - apply Rmult_le_reg_r with (nu * nv)%R; [exact Hd |].
    unfold Rdiv. rewrite Rmult_assoc, Rinv_l by lra. lra.
Qed.

Lemma cosine_R_self (u : list R) :
  Exists (fun x => x <> 0%R) u -> cosine R_arith u u = 1%R.
Proof.
  intros Hu. pose proof (np_dot_R_self_pos u Hu) as HP.
  assert (Hn : np_norm R_arith u <> 0%R).
  { unfold np_norm. cbn [a_sqrt R_arith]. pose proof (sqrt_lt_R0 _ HP). lra. }
  rewrite cosine_R_nonzero by auto.
  unfold np_norm. cbn [a_sqrt R_arith]. rewrite sqrt_sqrt by lra.
  unfold Rdiv. apply Rinv_r. lra.
Qed.

(** C3, as stated, fails on the code: in [float32] the norm of
    [unit_pair] is [sqrt 2] rounded, its square is below [2], and the
    quotient is [1 + 2^-23]: the score of a nonzero vector with itself is
    neither [1.0] nor at most [1]. *)
Lemma calculate_similarity_self_above_one :
  length unit_pair = 177%nat /\
  is_zero (np_norm f32_arith unit_pair) = false /\
  calculate_similarity unit_pair unit_pair
  = S754_finite false 4503600164241408 (-52) /\
  py_ge f64_one (calculate_similarity unit_pair unit_pair) = false /\
  SFeqb (calculate_similarity unit_pair unit_pair) f64_one = false.
Proof. vm_compute. repeat split. Qed.

(** C3, amended.  In the code's [float32] arithmetic the score is exactly
    [0.0] whenever the computed norm of either vector is zero, which
    includes every zero vector, and nothing is divided.  On the reals the
    same function is the cosine: for vectors of one length it lies in
    [[-1, 1]], it is [0] when a norm is zero and [1] for a nonzero vector
    against itself. *)
Theorem calculate_similarity_contract (a b : fvec) (u v : list R) :
  length u = length v ->
  (is_zero (np_norm f32_arith a) = true \/ is_zero (np_norm f32_arith b) = true ->
   calculate_similarity a b = pzero) /\
  (Forall (fun x => is_zero x = true) a ->
   is_zero (np_norm f32_arith a) = true /\ calculate_similarity a b = pzero) /\
  (-1 <= cosine R_arith u v <= 1)%R /\
  (np_norm R_arith u = 0%R \/ np_norm R_arith v = 0%R ->
   cosine R_arith u v = 0%R) /\
  (Exists (fun x => x <> 0%R) u -> cosine R_arith u u = 1%R).
Proof.
  intros Hlen. split; [apply zero_norm_scores_zero |].
  split.
  { intros Ha.
    assert (Hn : is_zero (np_norm f32_arith a) = true).
    { unfold np_norm. rewrite np_dot_zero_vector by exact Ha. reflexivity. }
    split; [exact Hn |]. apply zero_norm_scores_zero. now left. }
  split; [now apply cosine_R_bounds |].
  split; [apply cosine_R_zero_norm | apply cosine_R_self].
Qed.

Lemma calculate_similarity_contract_witness :
  length [3%R; 4%R] = length [4%R; 3%R] /\
  calculate_similarity (repeat pzero 177) unit_pair = pzero /\
  (-1 <= cosine R_arith [3%R; 4%R] [4%R; 3%R] <= 1)%R.
Proof.
  pose proof (calculate_similarity_contract (repeat pzero 177) unit_pair
                [3%R; 4%R] [4%R; 3%R] eq_refl) as (_ & Hz & Hb & _).
  split; [reflexivity |]. split; [| exact Hb].
  apply Hz. vm_compute. repeat constructor.
Defined.

(** ** FeatureExtractor *)

Lemma nth_flat_map_rows {A B} (f : A -> list B) (n : nat) (d : B) :
  (forall x, length (f x) = n) ->
  forall (l : list A) (a b : nat) (x : A),
    nth_error l a = Some x -> (b < n)%nat ->
    nth (a * n + b) (flat_map f l) d = nth b (f x) d.
Proof.
  intros Hf. induction l as [| y l IH]; intros [| a] b x Hx Hb;
    simpl in *; try discriminate.
  - injection Hx as ->. rewrite app_nth1 by (rewrite Hf; lia). reflexivity.
  - rewrite app_nth2 by (rewrite Hf; lia). rewrite Hf.
    replace (n + a * n + b - n)%nat with (a * n + b)%nat by lia.
    now apply IH.
Qed.

Lemma length_flat_map_rows {A B} (f : A -> list B) (n : nat) :
  (forall x, length (f x) = n) ->
  forall l : list A, length (flat_map f l) = (length l * n)%nat.
Proof.
  intros Hf. induction l as [| y l IH]; simpl; [reflexivity |].
  rewrite length_app, Hf, IH. reflexivity.
Qed.

Lemma nth_error_seq (start len a : nat) :
  (a < len)%nat -> nth_error (seq start len) a = Some (start + a)%nat.
Proof.
  revert start a. induction len as [| len IH]; intros start [| a] Ha; simpl;
    try lia.
  - f_equal. lia.
  - rewrite IH by lia. f_equal. lia.
Qed.

Lemma texture_features_length (gray : plane Z) :
  length (texture_features gray)
  = ((shape0 gray - 2) * (shape1 gray - 2))%nat.
Proof.
  unfold texture_features.
  rewrite (length_flat_map_rows _ (shape1 gray - 2)).
  - now rewrite length_seq.
  - intros x. now rewrite length_map, length_seq.
Qed.

Lemma texture_features_nth (gray : plane Z) (i j : nat) :
  (1 <= i < shape0 gray - 1)%nat -> (1 <= j < shape1 gray - 1)%nat ->
  nth ((i - 1) * (shape1 gray - 2) + (j - 1)) (texture_features gray) (-1)
  = lbp_pattern gray i j.
Proof.
  intros Hi Hj. unfold texture_features.
  rewrite (nth_flat_map_rows _ (shape1 gray - 2) (-1)) with (x := i).
  - rewrite nth_indep with (d' := lbp_pattern gray i 0)
      by (rewrite length_map, length_seq; lia).
    rewrite (map_nth (fun j => lbp_pattern gray i j)), seq_nth by lia.
    f_equal. lia.
  - intros x. now rewrite length_map, length_seq.
  - rewrite nth_error_seq by lia. f_equal. lia.
  - lia.
Qed.

Lemma lbp_pattern_spec (gray : plane Z) (i j : nat) :
  (1 <= i)%nat -> (1 <= j)%nat ->
  lbp_pattern gray i j = spec_lbp_pattern gray i j.
Proof.
  intros Hi Hj. unfold lbp_pattern, spec_lbp_pattern, neighbour. simpl.
  replace (Z.to_nat (Z.of_nat i + -1)) with (i - 1)%nat by lia.
  replace (Z.to_nat (Z.of_nat j + -1)) with (j - 1)%nat by lia.
  replace (Z.to_nat (Z.of_nat i + 0)) with i by lia.
  replace (Z.to_nat (Z.of_nat j + 0)) with j by lia.
  replace (Z.to_nat (Z.of_nat i + 1)) with (i + 1)%nat by lia.
  replace (Z.to_nat (Z.of_nat j + 1)) with (j + 1)%nat by lia.
  repeat match goal with
         | |- context [?a >? ?b] => destruct (a >? b)
         end; reflexivity.
Qed.

Lemma spec_lbp_pattern_bits (gray : plane Z) (i j : nat) :
  0 <= spec_lbp_pattern gray i j <= 255 /\
  forall (k : nat) (d : Z * Z),
    nth_error clockwise_neighbours k = Some d ->
    Z.testbit (spec_lbp_pattern gray i j) (Z.of_nat k)
    = (neighbour gray i j d >? at2 gray i j).
Proof.
  unfold spec_lbp_pattern. cbn [combine seq clockwise_neighbours map fst snd fold_right].
  split.
  - repeat match goal with
           | |- context [?a >? ?b] => destruct (a >? b)
           end; simpl; lia.
  - intros k d Hk.
    do 8 (destruct k as [| k]; [injection Hk as <-;
      repeat match goal with
             | |- context [?a >? ?b] => destruct (a >? b)
             end; reflexivity |]).
    destruct k; discriminate.
Qed.

Lemma in_bin16_spec (k : nat) (p : Z) :
  (k < 16)%nat -> in_bin 16 0 255 k p = spec_in_bin16 k p.
Proof.
  intros Hk. unfold in_bin, histogram_bin, spec_in_bin16.
  replace (Z.of_nat 16 - 1) with 15 by reflexivity.
  replace (Z.of_nat 16 * (p - 0) / (255 - 0)) with (16 * p / 255)
    by (f_equal; lia).
  pose proof (Z.div_mod (16 * p) 255) as Hdm.
  pose proof (Z.mod_pos_bound (16 * p) 255) as Hmb.
  apply eq_true_iff_eq.
  destruct (p <? 0) eqn:E1, (255 <? p) eqn:E2; simpl;
    rewrite ?Z.ltb_lt, ?Z.ltb_ge in E1, E2;
    rewrite ?andb_true_iff, ?orb_true_iff, ?andb_true_iff, ?Nat.eqb_eq,
      ?Z.leb_le, ?Z.ltb_lt, ?Z.eqb_eq; try lia.
Qed.

Lemma np_histogram_nth (values : list Z) (bins : nat) (lo hi : Z) (k : nat) :
  (k < bins)%nat ->
  nth k (np_histogram values bins lo hi) 0
  = Z.of_nat (length (List.filter (in_bin bins lo hi k) values)).
Proof.
  intros Hk. unfold np_histogram.
  rewrite nth_indep with (d' := (fun k => Z.of_nat (length
            (List.filter (in_bin bins lo hi k) values))) O)
    by (rewrite length_map, length_seq; exact Hk).
  rewrite (map_nth (fun k => Z.of_nat (length
            (List.filter (in_bin bins lo hi k) values)))).
  now rewrite seq_nth.
Qed.

Lemma texture_hist_length (gray : plane Z) : length (texture_hist gray) = 16%nat.
Proof. unfold texture_hist, np_histogram. now rewrite length_map, length_seq. Qed.

(** C5.  The texture component holds one pattern for every interior pixel
    [(i, j)], row by row; the pattern is the one of the design document
    (neighbour [k], clockwise from the top left, sets bit [k] exactly when
    it is strictly brighter than the centre), it fits eight bits, and the
    texture histogram counts the patterns in sixteen equal bins over
    [[0, 255]]. *)
Theorem texture_is_local_binary_pattern (gray : plane Z) (i j : nat) :
  (1 <= i < shape0 gray - 1)%nat -> (1 <= j < shape1 gray - 1)%nat ->
  let p := nth ((i - 1) * (shape1 gray - 2) + (j - 1))
               (texture_features gray) (-1) in
  p = lbp_pattern gray i j /\
  p = spec_lbp_pattern gray i j /\
  0 <= p <= 255 /\
  (forall (k : nat) (d : Z * Z),
      nth_error clockwise_neighbours k = Some d ->
      Z.testbit p (Z.of_nat k) = (neighbour gray i j d >? at2 gray i j)) /\
  length (texture_features gray) = ((shape0 gray - 2) * (shape1 gray - 2))%nat /\
  length (texture_hist gray) = 16%nat /\
  (forall k : nat, (k < 16)%nat ->
      nth k (texture_hist gray) 0
      = Z.of_nat (length (List.filter (spec_in_bin16 k) (texture_features gray)))).
Proof.
  intros Hi Hj p.
  assert (Hp : p = lbp_pattern gray i j) by (apply texture_features_nth; lia).
  assert (Hs : p = spec_lbp_pattern gray i j)
    by (rewrite Hp; apply lbp_pattern_spec; lia).
  destruct (spec_lbp_pattern_bits gray i j) as [Hr Hb].
  split; [exact Hp |]. split; [exact Hs |].
  split; [rewrite Hs; exact Hr |].
  split; [intros k d Hk; rewrite Hs; now apply Hb |].
  split; [apply texture_features_length |].
  split; [apply texture_hist_length |].
  intros k Hk. unfold texture_hist. rewrite np_histogram_nth by exact Hk.
  do 2 f_equal. apply filter_ext. intros v. now apply in_bin16_spec.
Qed.

Lemma texture_is_local_binary_pattern_witness :
  nth 0 (texture_features corner_gray) (-1) = spec_lbp_pattern corner_gray 1 1
  /\ spec_lbp_pattern corner_gray 1 1 = 1
  /\ texture_hist corner_gray = [3; 1; 0; 0; 0; 0; 0; 0; 0; 0; 0; 0; 0; 0; 0; 0].
Proof.
  pose proof (texture_is_local_binary_pattern corner_gray 1 1) as T.
  simpl in T. destruct T as (_ & Hs & _); [lia | lia |].
  split; [exact Hs |]. split; reflexivity.
Defined.

Section Layout.
Context `{Platform}.

Lemma extract_features_parts (image : f32_image) (features : fvec) :
  extract_features image = Some features ->
  exists p, extract_parts image = Some p /\ features = concat_parts p.
Proof.
  unfold extract_features. destruct (extract_parts image) as [p |];
    simpl; intros Hf; [| discriminate].
  injection Hf as <-. eauto.
Qed.

Lemma extract_parts_inv (image : f32_image) (p : feature_parts) :
  extract_parts image = Some p ->
  exists gray hsv edges,
    cv_rgb2gray (scale_u8 image) = Some gray /\
    cv_rgb2hsv (scale_u8 image) = Some hsv /\
    cv_calcHist_f32 (channel 0 image) 32 0 1 = Some (hist_r p) /\
    cv_calcHist_f32 (channel 1 image) 32 0 1 = Some (hist_g p) /\
    cv_calcHist_f32 (channel 2 image) 32 0 1 = Some (hist_b p) /\
    cv_calcHist_u8 (channel 0 hsv) 32 0 180 = Some (hist_h p) /\
    cv_calcHist_u8 (channel 1 hsv) 32 0 256 = Some (hist_s p) /\
    cv_Canny gray 50 150 = Some edges /\
    p_edge_density p = edge_density edges /\
    p_texture_hist p = texture_hist gray.
Proof.
  unfold extract_parts. intros Hp.
  destruct (cv_rgb2gray (scale_u8 image)) as [gray |]; [| discriminate].
  destruct (cv_rgb2hsv (scale_u8 image)) as [hsv |]; [| discriminate].
  simpl in Hp.
  destruct (cv_calcHist_f32 (channel 0 image) 32 0 1) as [hr |];
    [| discriminate].
  destruct (cv_calcHist_f32 (channel 1 image) 32 0 1) as [hg |];
    [| discriminate].
  destruct (cv_calcHist_f32 (channel 2 image) 32 0 1) as [hb |];
    [| discriminate].
  simpl in Hp.
  destruct (cv_calcHist_u8 (channel 0 hsv) 32 0 180) as [hh |] eqn:Ehh;
    [| discriminate].
  destruct (cv_calcHist_u8 (channel 1 hsv) 32 0 256) as [hs |] eqn:Ehs;
    [| discriminate].
  simpl in Hp.
  destruct (cv_Canny gray 50 150) as [edges |] eqn:Eed; [| discriminate].
  injection Hp as <-. exists gray, hsv, edges. simpl. auto 12.
Qed.

Lemma extract_parts_total (image : f32_image) (gray : plane Z)
      (hsv : u8_image) (edges : plane Z) (hr hg hb hh hs : list f32) :
  cv_rgb2gray (scale_u8 image) = Some gray ->
  cv_rgb2hsv (scale_u8 image) = Some hsv ->
  cv_calcHist_f32 (channel 0 image) 32 0 1 = Some hr ->
  cv_calcHist_f32 (channel 1 image) 32 0 1 = Some hg ->
  cv_calcHist_f32 (channel 2 image) 32 0 1 = Some hb ->
  cv_calcHist_u8 (channel 0 hsv) 32 0 180 = Some hh ->
  cv_calcHist_u8 (channel 1 hsv) 32 0 256 = Some hs ->
  cv_Canny gray 50 150 = Some edges ->
  extract_parts image
  = Some (FeatureParts hr hg hb hh hs (edge_density edges) (texture_hist gray)).
Proof.
  intros Hg Hh Hr Hgr Hb Hhu Hs He. unfold extract_parts.
  rewrite Hg, Hh. simpl. rewrite Hr, Hgr, Hb. simpl. rewrite Hhu, Hs. simpl.
  rewrite He. reflexivity.
Qed.

(** C4.  [extract_features] returns exactly when the library calls it
    makes return, and the vector it returns is the concatenation, in this
    order, of the 32-bin histograms of the red, green and blue channels,
    of the hue and of the saturation, the edge density, and the 16-bin
    texture histogram: 177 numbers. *)
Theorem extract_features_layout (image : f32_image) (features : fvec) :
  extract_features image = Some features ->
  (exists gray hsv edges hr hg hb hh hs,
    cv_rgb2gray (scale_u8 image) = Some gray /\
    cv_rgb2hsv (scale_u8 image) = Some hsv /\
    cv_calcHist_f32 (channel 0 image) 32 0 1 = Some hr /\
    cv_calcHist_f32 (channel 1 image) 32 0 1 = Some hg /\
    cv_calcHist_f32 (channel 2 image) 32 0 1 = Some hb /\
    cv_calcHist_u8 (channel 0 hsv) 32 0 180 = Some hh /\
    cv_calcHist_u8 (channel 1 hsv) 32 0 256 = Some hs /\
    cv_Canny gray 50 150 = Some edges /\
    features = hr ++ hg ++ hb ++ hh ++ hs
               ++ [f32_of_f64 (edge_density edges)]
               ++ map (fun c => f32_of_f64 (f64_of_Z c)) (texture_hist gray) /\
    length hr = 32%nat /\ length hg = 32%nat /\ length hb = 32%nat /\
    length hh = 32%nat /\ length hs = 32%nat /\
    length (texture_hist gray) = 16%nat) /\
  length features = 177%nat /\
  (forall gray hsv edges hr hg hb hh hs,
    cv_rgb2gray (scale_u8 image) = Some gray ->
    cv_rgb2hsv (scale_u8 image) = Some hsv ->
    cv_calcHist_f32 (channel 0 image) 32 0 1 = Some hr ->
    cv_calcHist_f32 (channel 1 image) 32 0 1 = Some hg ->
    cv_calcHist_f32 (channel 2 image) 32 0 1 = Some hb ->
    cv_calcHist_u8 (channel 0 hsv) 32 0 180 = Some hh ->
    cv_calcHist_u8 (channel 1 hsv) 32 0 256 = Some hs ->
    cv_Canny gray 50 150 = Some edges ->
    features = hr ++ hg ++ hb ++ hh ++ hs
               ++ [f32_of_f64 (edge_density edges)]
               ++ map (fun c => f32_of_f64 (f64_of_Z c)) (texture_hist gray)).
Proof.
  intros Hf. destruct (extract_features_parts _ _ Hf) as (p & Hp & ->).
  destruct (extract_parts_inv _ _ Hp)
    as (gray & hsv & edges & Hg & Hh & Hr & Hgr & Hb & Hhu & Hs & He & Hd & Ht).
  pose proof (cv_calcHist_f32_bins _ _ _ _ _ Hr) as Lr.
  pose proof (cv_calcHist_f32_bins _ _ _ _ _ Hgr) as Lg.
  pose proof (cv_calcHist_f32_bins _ _ _ _ _ Hb) as Lb.
  pose proof (cv_calcHist_u8_bins _ _ _ _ _ Hhu) as Lh.
  pose proof (cv_calcHist_u8_bins _ _ _ _ _ Hs) as Ls.
  pose proof (texture_hist_length gray) as Lt.
  split.
  { exists gray, hsv, edges, (hist_r p), (hist_g p), (hist_b p), (hist_h p),
      (hist_s p).
    repeat (split; [assumption |]).
    split; [unfold concat_parts; now rewrite Hd, Ht |].
    repeat (split; [assumption |]). assumption. }
  split.
  { unfold concat_parts. rewrite !length_app, length_map, Ht. simpl. lia. }
  intros gray' hsv' edges' hr hg hb hh hs Hg' Hh' Hr' Hgr' Hb' Hhu' Hs' He'.
  pose proof (extract_parts_total _ _ _ _ _ _ _ _ _
                Hg' Hh' Hr' Hgr' Hb' Hhu' Hs' He') as Hp'.
  rewrite Hp in Hp'. injection Hp' as ->. reflexivity.
Qed.

(** The other direction: when the library calls return, so does
    [extract_features]. *)
Lemma extract_features_returns (image : f32_image) (gray : plane Z)
      (hsv : u8_image) (edges : plane Z) (hr hg hb hh hs : list f32) :
  cv_rgb2gray (scale_u8 image) = Some gray ->
  cv_rgb2hsv (scale_u8 image) = Some hsv ->
  cv_calcHist_f32 (channel 0 image) 32 0 1 = Some hr ->
  cv_calcHist_f32 (channel 1 image) 32 0 1 = Some hg ->
  cv_calcHist_f32 (channel 2 image) 32 0 1 = Some hb ->
  cv_calcHist_u8 (channel 0 hsv) 32 0 180 = Some hh ->
  cv_calcHist_u8 (channel 1 hsv) 32 0 256 = Some hs ->
  cv_Canny gray 50 150 = Some edges ->
  exists features,
    extract_features image = Some features /\ length features = 177%nat.
Proof.
  intros Hg Hh Hr Hgr Hb Hhu Hs He. unfold extract_features.
  rewrite (extract_parts_total _ _ _ _ _ _ _ _ _ Hg Hh Hr Hgr Hb Hhu Hs He).
  eexists. split; [reflexivity |].
  unfold concat_parts. cbn [hist_r hist_g hist_b hist_h hist_s
                             p_edge_density p_texture_hist].
  rewrite !length_app, length_map, texture_hist_length.
  rewrite (cv_calcHist_f32_bins _ _ _ _ _ Hr),
    (cv_calcHist_f32_bins _ _ _ _ _ Hgr), (cv_calcHist_f32_bins _ _ _ _ _ Hb),
    (cv_calcHist_u8_bins _ _ _ _ _ Hhu), (cv_calcHist_u8_bins _ _ _ _ _ Hs).
  reflexivity.
Qed.
End Layout.

Lemma extract_features_layout_witness :
  exists features,
    descriptor (H := Demo.platform) Demo.ramp = Some features /\
    length features = 177%nat.
Proof.
  unfold descriptor.
  destruct (preprocess_bytes (H := Demo.platform) Demo.ramp) as [image |] eqn:Ei;
    [| discriminate].
  destruct (extract_features (H := Demo.platform) image) as [features |] eqn:Ef;
    [| vm_compute in Ei; injection Ei as <-; discriminate].
  exists features. split; [exact Ef |].
  apply (extract_features_layout (H := Demo.platform) image features Ef).
Defined.

(** ** Strings *)

Local Open Scope string_scope.

Lemma append_cons (c : ascii) (s t : string) :
  String c s ++ t = String c (s ++ t).
Proof. reflexivity. Qed.

Lemma append_nil (t : string) : "" ++ t = t.
Proof. reflexivity. Qed.

Lemma append_assoc (a b c : string) : (a ++ b) ++ c = a ++ (b ++ c).
Proof.
  induction a as [| x a IH]; [reflexivity |].
  rewrite !append_cons. now f_equal.
Qed.

Lemma length_append (a b : string) :
  String.length (a ++ b) = (String.length a + String.length b)%nat.
Proof.
  induction a as [| x a IH]; [reflexivity |].
  rewrite append_cons. simpl. now f_equal.
Qed.

Lemma stem_jpg (s : string) : s <> "" -> stem (s ++ ".jpg") = s.
Proof.
  induction s as [| c s IH]; intros Hs; [congruence |].
  rewrite append_cons. simpl.
  destruct s as [| c' s].
  - reflexivity.
  - replace ((String c' s ++ ".jpg" =? ".jpg")) with false.
    + rewrite IH by discriminate. reflexivity.
    + symmetry. apply String.eqb_neq. intros E.
      apply (f_equal String.length) in E. simpl in E.
      rewrite length_append in E. simpl in E. lia.
Qed.

Lemma matches_jpg_suffix (s : string) : matches_jpg (s ++ ".jpg") = true.
Proof.
  induction s as [| c s IH]; [reflexivity |].
  rewrite append_cons. cbn [matches_jpg]. rewrite IH. apply orb_true_r.
Qed.

Lemma split_head_append (sep : ascii) (a b : string) :
  split_head sep (a ++ String sep b) = split_head sep a.
Proof.
  induction a as [| c a IH]; rewrite ?append_cons, ?append_nil; simpl.
  - now rewrite Ascii.eqb_refl.
  - destruct (Ascii.eqb c sep); [reflexivity | now rewrite IH].
Qed.


Lemma split_head_no_sep (sep : ascii) (s : string) :
  contains_char sep s = false -> split_head sep s = s.
Proof.
  induction s as [| c s IH]; simpl; [reflexivity |].
  destruct (Ascii.eqb c sep); simpl; [discriminate |].
  intros Hs. now rewrite IH.
Qed.


Lemma contains_char_append (a : ascii) (s t : string) :
  contains_char a (s ++ t) = contains_char a s || contains_char a t.
Proof.
  induction s as [| c s IH]; [reflexivity |].
  rewrite append_cons. simpl. rewrite IH. apply orb_assoc.
Qed.




Lemma learned_name_of_file_name (plant_name timestamp image_hash : string) :
  learned_name_of (learned_file_name plant_name timestamp image_hash)
  = split_head "_" plant_name.
Proof.
  unfold learned_name_of, learned_file_name.
  replace (plant_name ++ "_" ++ timestamp ++ "_" ++ image_hash ++ ".jpg")
    with ((plant_name ++ "_" ++ timestamp ++ "_" ++ image_hash) ++ ".jpg")
    by (rewrite !append_assoc; reflexivity).
  rewrite stem_jpg.
  - apply (split_head_append "_" plant_name).
  - destruct plant_name; discriminate.
Qed.

Lemma learned_file_name_matches (plant_name timestamp image_hash : string) :
  matches_jpg (learned_file_name plant_name timestamp image_hash) = true.
Proof.
  unfold learned_file_name.
  replace (plant_name ++ "_" ++ timestamp ++ "_" ++ image_hash ++ ".jpg")
    with ((plant_name ++ "_" ++ timestamp ++ "_" ++ image_hash) ++ ".jpg")
    by (rewrite !append_assoc; reflexivity).
  apply matches_jpg_suffix.
Qed.

Local Close Scope string_scope.

(** ** The store *)

Lemma store_file_In (name : string) (content : bytes)
      (files : list (string * bytes)) :
  In (name, content) (store_file name content files).
Proof.
  unfold store_file.
  destruct (existsb _ files) eqn:E.
  - apply existsb_exists in E as (e & He & Hn). apply in_map_iff.
    exists e. rewrite Hn. auto.
  - apply in_or_app. right. now left.
Qed.

Lemma learned_files_mkdir (w : world) :
  learned_files (set_learned (default [] (w_learned w)) w) = learned_files w.
Proof. reflexivity. Qed.

Lemma read_file_mkdir (w : world) (p : string) :
  read_file (set_learned (default [] (w_learned w)) w) p = read_file w p.
Proof. reflexivity. Qed.

Lemma entries_for_lookup (label : string) (d : fvec) (cache : gmap string fvec) :
  cache !! label = Some d -> entries_for label cache = 1%nat.
Proof.
  intros Hl. unfold entries_for.
  pose proof (NoDup_fst_map_to_list cache) as Hnd.
  apply elem_of_map_to_list, list_elem_of_In in Hl.
  apply NoDup_ListNoDup in Hnd.
  induction (map_to_list cache) as [| [k v] l IH]; [contradiction |].
  cbn [fmap list_fmap fst] in Hnd. apply List.NoDup_cons_iff in Hnd as [Hk Hnd].
  cbn [List.filter fst]. destruct Hl as [E | Hl].
  - injection E as -> ->. rewrite String.eqb_refl. simpl. f_equal.
    apply length_zero_iff_nil.
    destruct (List.filter _ l) as [| e l'] eqn:Ef; [reflexivity |].
    exfalso. assert (He : In e (List.filter (fun e => String.eqb e.1 label) l))
      by (rewrite Ef; now left).
    apply filter_In in He as [He1 He2]. apply String.eqb_eq in He2.
    apply Hk. apply in_map_iff. exists e. auto.
  - destruct (String.eqb k label) eqn:E.
    + exfalso. apply String.eqb_eq in E as ->. apply Hk.
      apply in_map_iff. exists (label, d). auto.
    + now apply IH.
Qed.

(** ** LearningService *)

Section Learning.
Context `{Platform}.

(** What a successful [learn_plant] did. *)
Lemma learn_plant_stored (now now' : datetime) (w w' : world)
      (image_path plant_name label dest : string) :
  learn_plant now now' w image_path plant_name = (LearnStored label dest, w') ->
  exists content d,
    let file_name :=
      learned_file_name label (strftime_stamp now) (md5_hex8 content) in
    read_file w image_path = Some content /\
    descriptor content = Some d /\
    label = clean_plant_name plant_name /\
    dest = path_join learned_dataset_path file_name /\
    contains_char "/" file_name = false /\
    image_path <> dest /\
    w_files w' = w_files w /\
    w_dataset w' = w_dataset w /\
    w_learned w'
    = Some (store_file file_name content (default [] (w_learned w))) /\
    w_cache w' = Some (<[label := d]> (default ∅ (w_cache w))).
Proof.
  unfold learn_plant.
  destruct (path_exists w image_path); simpl; [| discriminate].
  destruct (String.eqb plant_name "" || String.eqb (strip plant_name) "");
    [discriminate |].
  rewrite read_file_mkdir.
  destruct (read_file w image_path) as [content |]; [| discriminate].
  destruct (contains_char "/" _ || String.eqb image_path _) eqn:Ec;
    [discriminate |].
  apply orb_false_iff in Ec as [Ec1 Ec2].
  destruct (descriptor content) as [d |] eqn:Ed; [| discriminate].
  intros E. injection E as <- <- <-.
  exists content, d. cbn zeta. repeat split; auto.
  now apply String.eqb_neq.
Qed.

(** C9.  A call that fails validation, because the path names no file
    or because the name is empty once trimmed, returns the error of
    that check and leaves the store as it was: no file, no cache entry
    and no log entry is written. *)
Theorem learn_plant_rejects_without_effect (now now' : datetime) (w : world)
        (image_path plant_name : string) :
  path_exists w image_path = false \/ strip plant_name = ""%string ->
  exists err,
    learn_plant now now' w image_path plant_name = (err, w) /\
    learn_success err = false /\
    (path_exists w image_path = false -> err = LearnNotFound image_path) /\
    (path_exists w image_path = true -> err = LearnEmptyName).
Proof.
  intros Hbad. unfold learn_plant.
  destruct (path_exists w image_path) eqn:Ep; simpl.
  - destruct Hbad as [Hbad | Hbad]; [discriminate |].
    rewrite Hbad. simpl. rewrite orb_true_r.
    exists LearnEmptyName. repeat split; auto. discriminate.
  - exists (LearnNotFound image_path). repeat split; auto. discriminate.
Qed.

(** C6.  After two successful calls for one cleaned label, the cache has
    exactly one entry for the label, and it is the descriptor of the
    file taught by the second call. *)
Theorem learn_plant_last_write_wins (now1 now1' now2 now2' : datetime)
        (w w1 w2 : world) (path1 path2 name1 name2 label dest1 dest2 : string) :
  learn_plant now1 now1' w path1 name1 = (LearnStored label dest1, w1) ->
  learn_plant now2 now2' w1 path2 name2 = (LearnStored label dest2, w2) ->
  exists content d cache,
    read_file w1 path2 = Some content /\
    descriptor content = Some d /\
    w_cache w2 = Some cache /\
    cache !! label = Some d /\
    entries_for label cache = 1%nat.
Proof.
  intros _ H2.
  destruct (learn_plant_stored _ _ _ _ _ _ _ _ H2)
    as (content & d & Hr & Hd & _ & _ & _ & _ & _ & _ & _ & Hc).
  exists content, d, (<[label := d]> (default ∅ (w_cache w1))).
  assert (Hl : <[label := d]> (default ∅ (w_cache w1)) !! label = Some d)
    by apply lookup_insert_eq.
  repeat split; auto. now apply entries_for_lookup with d.
Qed.

End Learning.

(** ** ReferenceStore: the scan *)

Lemma best_of_app (l1 l2 : list (string * f64)) (b : best) :
  best_of (l1 ++ l2) b = best_of l2 (best_of l1 b).
Proof. apply fold_left_app. Qed.

Lemma update_best_cases (s : f64) (n : string) (b : best) :
  (update_best s n b = b /\ py_gt s (fst b) = false) \/
  (update_best s n b = (s, Some n) /\ py_gt s (fst b) = true).
Proof. unfold update_best. destruct (py_gt s (fst b)); auto. Qed.

(** Where the running best comes from: it is the start, or an entry that
    beat the start. *)
Lemma best_of_origin (entries : list (string * f64)) (b0 : best) :
  best_of entries b0 = b0 \/
  exists n s, best_of entries b0 = (s, Some n) /\ In (n, s) entries /\
              py_gt s (fst b0) = true.
Proof.
  revert b0. induction entries as [| [n s] entries IH]; intros b0;
    [now left |].
  cbn [best_of fold_left fst snd].
  fold (best_of entries (update_best s n b0)).
  destruct (IH (update_best s n b0)) as [E | (n' & s' & E & Hin & Hgt)];
    destruct (update_best_cases s n b0) as [[U Hs] | [U Hs]];
    rewrite U in *.
  - now left.
  - right. exists n, s. repeat split; auto. now left.
  - right. exists n', s'. repeat split; auto. now right.
  - right. exists n', s'. repeat split; auto; [now right |].
    unfold py_gt in *. simpl in Hgt. eapply SFltb_trans; eauto.
Qed.

(** The running best only grows, and no entry beats the final one. *)
Lemma best_of_max (entries : list (string * f64)) (b0 : best) :
  is_nan (fst b0) = false ->
  is_nan (fst (best_of entries b0)) = false /\
  SFleb (fst b0) (fst (best_of entries b0)) = true /\
  forall e, In e entries -> py_gt (snd e) (fst (best_of entries b0)) = false.
Proof.
  revert b0. induction entries as [| [n s] entries IH]; intros b0 Hnan.
  - simpl. split; [exact Hnan |]. split; [now apply SFleb_refl |].
    intros e [].
  - cbn [best_of fold_left fst snd].
    fold (best_of entries (update_best s n b0)).
    destruct (update_best_cases s n b0) as [[U Hs] | [U Hs]]; rewrite U.
    + destruct (IH b0 Hnan) as (N & L & M). repeat split; auto.
      intros e [<- | He]; [| now apply M]. simpl.
      unfold py_gt in *.
      destruct (SFltb (fst (best_of entries b0)) s) eqn:E; [| reflexivity].
      rewrite (SFleb_ltb_trans _ _ _ L E) in Hs. discriminate.
    + unfold py_gt in Hs. destruct (SFltb_not_nan _ _ Hs) as [_ Hsn].
      destruct (IH (s, Some n) Hsn) as (N & L & M). simpl in L.
      repeat split; auto.
      * eapply SFleb_trans; [apply SFltb_leb, Hs | exact L].
      * intros e [<- | He]; [| now apply M]. simpl.
        unfold py_gt. now apply SFltb_irrefl_leb.
Qed.

Section Scan.
Context `{Platform}.

Lemma static_step_entry (features : fvec) (label : string) (b : best)
      (file : string * bytes) :
  static_step features label b file
  = best_of (static_entry features label file) b.
Proof.
  unfold static_step, static_entry. now destruct (descriptor (snd file)).
Qed.

Lemma scan_label_dir_entries (features : fvec)
      (dir : string * list (string * bytes)) (b : best) :
  scan_label_dir features b dir
  = best_of (flat_map (static_entry features (fst dir))
                      (glob_jpg (snd dir))) b.
Proof.
  unfold scan_label_dir. destruct dir as [label files]. cbn [fst snd].
  revert b. induction (glob_jpg files) as [| f l IH]; intros b;
    [reflexivity |].
  simpl. rewrite best_of_app, IH, static_step_entry. reflexivity.
Qed.

Lemma scan_dataset_entries (w : world) (features : fvec) (b : best) :
  scan_dataset w features b = best_of (static_compared w features) b.
Proof.
  unfold scan_dataset, static_compared.
  destruct (w_dataset w) as [dirs |]; [| reflexivity]. simpl.
  revert b. induction dirs as [| d dirs IH]; intros b; [reflexivity |].
  simpl. rewrite best_of_app, IH, scan_label_dir_entries. reflexivity.
Qed.

Lemma scan_learned_entries (features : fvec) (files : list (string * bytes))
      (cached : gmap string fvec) (b : best) :
  snd (fold_left (learned_step features) files (cached, b))
  = best_of (learned_compared features cached files) b.
Proof.
  revert cached b. induction files as [| f files IH]; intros cached b;
    [reflexivity |].
  cbn [fold_left learned_compared]. unfold learned_step at 2.
  cbn [fst snd].
  destruct (learned_features cached (learned_name_of (fst f)) (snd f))
    as [[d cached'] |]; [| apply IH].
  rewrite IH. reflexivity.
Qed.

Lemma scan_entries (w : world) (features : fvec) :
  snd (scan w features) = best_of (compared w features) (pzero, None).
Proof.
  unfold scan, compared, scan_learned.
  rewrite best_of_app, <- scan_dataset_entries.
  destruct (w_learned w) as [files |]; [apply scan_learned_entries |].
  reflexivity.
Qed.

(** What [identify_plant] does once the query has a descriptor. *)
Lemma identify_plant_scanned (w : world) (image_path : string)
      (content : bytes) (features : fvec) :
  read_file w image_path = Some content ->
  pil_verify content = true ->
  descriptor content = Some features ->
  identify_plant w image_path
  = (decide_result (snd (scan w features)),
     set_cache (fst (scan w features)) w).
Proof.
  intros Hr Hv Hd. unfold identify_plant, path_exists.
  rewrite Hr. simpl. rewrite Hv, Hd. reflexivity.
Qed.
End Scan.

(** ** IdentificationService *)

Lemma threshold_above_zero : py_gt similarity_threshold pzero = true.
Proof. reflexivity. Qed.

Section Identify.
Context `{Platform}.

(** The best of a whole scan: never NaN, never beaten by an entry, and
    either the initial zero or the score of a compared entry that is
    above zero. *)
Lemma scan_best (w : world) (features : fvec) :
  let b := snd (scan w features) in
  is_nan (fst b) = false /\
  (forall e, In e (compared w features) -> py_gt (snd e) (fst b) = false) /\
  (b = (pzero, None) \/
   exists name, snd b = Some name /\ In (name, fst b) (compared w features) /\
                py_gt (fst b) pzero = true).
Proof.
  cbn zeta. rewrite scan_entries.
  destruct (best_of_max (compared w features) (pzero, None) eq_refl)
    as (N & _ & M).
  split; [exact N |]. split; [exact M |].
  destruct (best_of_origin (compared w features) (pzero, None))
    as [E | (n & s & E & Hin & Hgt)]; rewrite E; [now left |].
  right. exists n. simpl. auto.
Qed.

Lemma scan_best_above (w : world) (features : fvec) (t : f64) :
  nonneg t ->
  py_gt (fst (snd (scan w features))) t = true <->
  exists e, In e (compared w features) /\ py_gt (snd e) t = true.
Proof.
  intros Ht.
  destruct (scan_best w features) as (N & M & O). unfold py_gt in *. split.
  - intros Hgt. destruct O as [E | (name & _ & Hin & _)].
    + rewrite E in Hgt. simpl in Hgt.
      rewrite (SFltb_irrefl_leb _ _ Ht) in Hgt. discriminate.
    + eauto.
  - intros ([n s] & Hin & Hgt). simpl in Hgt.
    pose proof (M _ Hin) as Hm. simpl in Hm.
    destruct (SFltb_not_nan _ _ Hgt) as [_ Hs].
    eapply SFltb_leb_trans; [exact Hgt |].
    now apply SFltb_total.
Qed.

Lemma unknown_confidence (m : f64) :
  m = pzero \/ py_gt m pzero = true ->
  (if py_gt m pzero then py_round3 m else pzero) = py_round3 m.
Proof. intros [-> | ->]; reflexivity. Qed.

(** C1, amended.  A call that completes its scan returns a match exactly
    when some compared reference scores strictly above the threshold;
    the match carries the label of the entry with the best score, and
    otherwise the result is unknown with [needs_learning].  In both
    cases the confidence is the best score observed rounded to three
    decimals, where the best score is the initial zero or the score of
    an entry that no other entry beats. *)
Theorem identify_plant_decision (w : world) (image_path : string)
        (content : bytes) (features : fvec) :
  read_file w image_path = Some content ->
  pil_verify content = true ->
  descriptor content = Some features ->
  let r := fst (identify_plant w image_path) in
  let m := fst (snd (scan w features)) in
  (id_success r = true <->
   exists e, In e (compared w features) /\
             py_gt (snd e) similarity_threshold = true) /\
  (id_success r = true ->
   exists name, r = IdMatch (Some name) (py_round3 m) /\
                In (name, m) (compared w features)) /\
  (id_success r = false ->
   r = IdUnknown (py_round3 m) /\ id_needs_learning r = true) /\
  (forall e, In e (compared w features) -> py_gt (snd e) m = false) /\
  (m = pzero \/ exists name, In (name, m) (compared w features)).
Proof.
  intros Hr Hv Hd. cbn zeta.
  rewrite (identify_plant_scanned _ _ _ _ Hr Hv Hd). cbn [fst].
  destruct (scan_best w features) as (N & M & O).
  pose proof (scan_best_above w features similarity_threshold eq_refl) as A.
  unfold decide_result.
  destruct (py_gt (fst (snd (scan w features))) similarity_threshold) eqn:E;
    cbn [id_success id_needs_learning].
  - split; [split; [intros _; now apply A | reflexivity] |].
    split.
    { intros _. destruct O as [O | (name & Hn & Hin & _)].
      - rewrite O in E. discriminate.
      - exists name. now rewrite Hn. }
    split; [discriminate |]. split; [exact M |].
    destruct O as [O | (name & _ & Hin & _)]; [rewrite O; now left | eauto].
  - split.
    { split; [discriminate |]. intros He. apply A in He. congruence. }
    split; [discriminate |].
    split.
    { intros _. split; [| reflexivity]. f_equal. apply unknown_confidence.
      destruct O as [O | (_ & _ & _ & Hp)]; [rewrite O; now left | now right]. }
    split; [exact M |].
    destruct O as [O | (name & _ & Hin & _)]; [rewrite O; now left | eauto].
Qed.

(** C10.  The confidence a completed call reports is never negative, and
    the reference it names scored strictly above zero: a reference with
    a negative score is never the best match. *)
Theorem identify_plant_confidence_nonneg (w : world) (image_path : string)
        (content : bytes) (features : fvec) :
  read_file w image_path = Some content ->
  pil_verify content = true ->
  descriptor content = Some features ->
  let r := fst (identify_plant w image_path) in
  (exists c, id_confidence r = Some c /\ nonneg c) /\
  (forall name, snd (snd (scan w features)) = Some name ->
     exists s, In (name, s) (compared w features) /\
               s = fst (snd (scan w features)) /\
               py_gt s pzero = true) /\
  (forall name c, r = IdMatch (Some name) c ->
     exists s, In (name, s) (compared w features) /\
               py_gt s pzero = true /\ c = py_round3 s) /\
  (forall e, In e (compared w features) ->
     py_gt (snd e) pzero = false ->
     (forall b, nonneg (fst b) -> update_best (snd e) (fst e) b = b) /\
     (snd (snd (scan w features)) = Some (fst e) ->
      snd e <> fst (snd (scan w features)))).
Proof.
  intros Hr Hv Hd. cbn zeta.
  rewrite (identify_plant_scanned _ _ _ _ Hr Hv Hd). cbn [fst].
  destruct (scan_best w features) as (N & M & O).
  assert (Hsel : forall name, snd (snd (scan w features)) = Some name ->
     exists s, In (name, s) (compared w features) /\
               s = fst (snd (scan w features)) /\ py_gt s pzero = true).
  { intros name Hn. destruct O as [O | (name' & Hn' & Hin & Hp)].
    - rewrite O in Hn. discriminate.
    - rewrite Hn in Hn'. injection Hn' as <-. eauto. }
  split.
  { unfold decide_result.
    destruct (py_gt (fst (snd (scan w features))) similarity_threshold) eqn:E;
      cbn [id_confidence]; eexists; (split; [reflexivity |]).
    - apply py_round3_nonneg. unfold py_gt in *.
      eapply SFltb_trans; [apply threshold_above_zero | exact E].
    - destruct (py_gt (fst (snd (scan w features))) pzero) eqn:E0.
      + now apply py_round3_nonneg.
      + reflexivity. }
  split; [exact Hsel |].
  split.
  { intros name c. unfold decide_result.
    destruct (py_gt (fst (snd (scan w features))) similarity_threshold);
      [| discriminate].
    intros E. injection E as Hn <-.
    destruct (Hsel name Hn) as (s & Hin & -> & Hp). eauto. }
  intros [n s] Hin Hneg. cbn [fst snd] in *.
  split.
  { intros b Hb. destruct (update_best_cases s n b) as [[U _] | [_ E]];
      [exact U |].
    unfold py_gt in *.
    rewrite (SFleb_ltb_trans _ _ _ Hb E) in Hneg. discriminate. }
  intros Hn. destruct (Hsel n Hn) as (s' & _ & <- & Hp). congruence.
Qed.
End Identify.

(** ** Reference files that cannot be processed *)

Section Skip.
Context `{Platform}.

Lemma static_step_skips (features : fvec) (label : string) (b : best)
      (file : string * bytes) :
  descriptor (snd file) = None -> static_step features label b file = b.
Proof. intros Hd. unfold static_step. now rewrite Hd. Qed.

Lemma learned_step_skips (features : fvec) (st : gmap string fvec * best)
      (file : string * bytes) :
  fst st !! learned_name_of (fst file) = None ->
  descriptor (snd file) = None ->
  learned_step features st file = st.
Proof.
  intros Hc Hd. unfold learned_step, learned_features. now rewrite Hc, Hd.
Qed.

Lemma glob_jpg_app (l1 l2 : list (string * bytes)) :
  glob_jpg (l1 ++ l2) = glob_jpg l1 ++ glob_jpg l2.
Proof. apply List.filter_app. Qed.

Lemma glob_jpg_cons (file : string * bytes) (l : list (string * bytes)) :
  glob_jpg (file :: l)
  = if matches_jpg (fst file) then file :: glob_jpg l else glob_jpg l.
Proof. reflexivity. Qed.

Lemma scan_dataset_skips (w : world) (features : fvec) (b : best)
      (dirs1 dirs2 : list (string * list (string * bytes))) (label : string)
      (files1 files2 : list (string * bytes)) (bad : string * bytes) :
  w_dataset w = Some (dirs1 ++ (label, files1 ++ bad :: files2) :: dirs2) ->
  descriptor (snd bad) = None ->
  scan_dataset w features b
  = scan_dataset
      (set_dataset (dirs1 ++ (label, files1 ++ files2) :: dirs2) w)
      features b.
Proof.
  intros Hw Hd. unfold scan_dataset. rewrite Hw. cbn [w_dataset set_dataset].
  rewrite !fold_left_app. cbn [fold_left]. f_equal.
  unfold scan_label_dir. cbn [fst snd].
  rewrite !glob_jpg_app, !fold_left_app, glob_jpg_cons.
  destruct (matches_jpg (fst bad)); [| reflexivity].
  cbn [fold_left]. now rewrite static_step_skips.
Qed.

Lemma scan_learned_skips (w : world) (features : fvec)
      (st : gmap string fvec * best)
      (files1 files2 : list (string * bytes)) (bad : string * bytes) :
  w_learned w = Some (files1 ++ bad :: files2) ->
  fst (fold_left (learned_step features) (glob_jpg files1) st)
    !! learned_name_of (fst bad) = None ->
  descriptor (snd bad) = None ->
  scan_learned w features st
  = scan_learned (set_learned (files1 ++ files2) w) features st.
Proof.
  intros Hw Hc Hd. unfold scan_learned. rewrite Hw.
  cbn [w_learned set_learned]. rewrite !glob_jpg_app, !fold_left_app.
  rewrite glob_jpg_cons.
  destruct (matches_jpg (fst bad)); [| reflexivity].
  cbn [fold_left]. now rewrite learned_step_skips.
Qed.

(** C7.  A reference file that cannot be processed changes nothing: the
    step of either loop returns the state it was given, the scan goes
    on to the files after it and ends as it would without the file, and
    a call whose own image was processed returns a match or an unknown
    plant, never a failure. *)
Theorem bad_reference_is_skipped (w : world) (features : fvec)
        (bad : string * bytes) :
  descriptor (snd bad) = None ->
  (forall label b, static_step features label b bad = b) /\
  (forall st, fst st !! learned_name_of (fst bad) = None ->
              learned_step features st bad = st) /\
  (forall dirs1 dirs2 label files1 files2 b,
      w_dataset w = Some (dirs1 ++ (label, files1 ++ bad :: files2) :: dirs2) ->
      scan_dataset w features b
      = scan_dataset
          (set_dataset (dirs1 ++ (label, files1 ++ files2) :: dirs2) w)
          features b) /\
  (forall files1 files2 st,
      w_learned w = Some (files1 ++ bad :: files2) ->
      fst (fold_left (learned_step features) (glob_jpg files1) st)
        !! learned_name_of (fst bad) = None ->
      scan_learned w features st
      = scan_learned (set_learned (files1 ++ files2) w) features st) /\
  (forall image_path content,
      read_file w image_path = Some content ->
      pil_verify content = true ->
      descriptor content = Some features ->
      exists b cache,
        identify_plant w image_path = (decide_result b, set_cache cache w) /\
        (id_success (decide_result b) = true \/
         id_needs_learning (decide_result b) = true)).
Proof.
  intros Hd.
  split; [intros; now apply static_step_skips |].
  split; [intros; now apply learned_step_skips |].
  split; [intros; now apply scan_dataset_skips with bad |].
  split; [intros; now apply scan_learned_skips with bad |].
  intros image_path content Hr Hv Hf.
  exists (snd (scan w features)), (fst (scan w features)).
  split; [now apply identify_plant_scanned with content |].
  unfold decide_result. destruct (py_gt _ similarity_threshold); auto.
Qed.
End Skip.

(** ** Teaching, then identifying *)

Lemma lookup_path_store (dir name p : string) (content : bytes)
      (files : list (string * bytes)) :
  p <> path_join dir name ->
  lookup_path p (with_paths dir (store_file name content files))
  = lookup_path p (with_paths dir files).
Proof.
  intros Hp. unfold lookup_path. f_equal. unfold store_file.
  assert (Hne : String.eqb (path_join dir name) p = false)
    by (apply String.eqb_neq; congruence).
  destruct (existsb _ files).
  - induction files as [| [n c] files IH]; [reflexivity |].
    cbn [map with_paths fst snd find].
    destruct (String.eqb n name) eqn:E; cbn [fst snd].
    + apply String.eqb_eq in E as ->. rewrite Hne. exact IH.
    + destruct (String.eqb (path_join dir n) p); [reflexivity | exact IH].
  - induction files as [| [n c] files IH]; cbn [app map with_paths fst snd find].
    + now rewrite Hne.
    + destruct (String.eqb (path_join dir n) p); [reflexivity | exact IH].
Qed.

Lemma best_of_label (label : string) (s : f64)
      (entries : list (string * f64)) (b0 : best) :
  (forall e, In e entries -> fst e <> label -> py_ge (snd e) s = false) ->
  (py_ge (fst b0) s = true -> snd b0 = Some label) ->
  py_ge (fst (best_of entries b0)) s = true ->
  snd (best_of entries b0) = Some label.
Proof.
  revert b0. induction entries as [| [n x] entries IH]; intros b0 Hlow Hb0;
    [exact Hb0 |].
  cbn [best_of fold_left fst snd]. fold (best_of entries (update_best x n b0)).
  apply IH; [intros e He; apply Hlow; now right |].
  destruct (update_best_cases x n b0) as [[U _] | [U _]]; rewrite U;
    [exact Hb0 |].
  cbn [fst snd]. intros Hx. f_equal.
  destruct (String.eqb_spec n label) as [E | E]; [exact E |].
  pose proof (Hlow (n, x) (or_introl eq_refl) E) as Hl. cbn [snd] in Hl.
  congruence.
Qed.

Section Converge.
Context `{Platform}.

Lemma learned_features_keeps (cached cached' : gmap string fvec)
      (name label : string) (content : bytes) (f d : fvec) :
  cached !! label = Some d ->
  learned_features cached name content = Some (f, cached') ->
  cached' !! label = Some d /\ (name = label -> f = d).
Proof.
  intros Hl. unfold learned_features.
  destruct (cached !! name) as [g |] eqn:E.
  - intros Hf. injection Hf as <- <-. split; [exact Hl |].
    intros ->. congruence.
  - destruct (descriptor content) as [g |]; simpl; [| discriminate].
    intros Hf. injection Hf as <- <-.
    assert (name <> label) by congruence.
    split; [now rewrite lookup_insert_ne | contradiction].
Qed.

Lemma learned_compared_hit (features d : fvec) (label : string)
      (files : list (string * bytes)) (cached : gmap string fvec)
      (file : string * bytes) :
  cached !! label = Some d ->
  In file files ->
  learned_name_of (fst file) = label ->
  In (label, calculate_similarity features d)
     (learned_compared features cached files).
Proof.
  revert cached. induction files as [| f files IH]; intros cached Hl Hin Hn;
    [contradiction |].
  cbn [learned_compared].
  destruct (learned_features cached (learned_name_of (fst f)) (snd f))
    as [[g cached'] |] eqn:E.
  - destruct (learned_features_keeps _ _ _ _ _ _ _ Hl E) as [Hl' Hg].
    destruct Hin as [-> | Hin].
    + left. rewrite Hn in *. now rewrite Hg.
    + right. now apply IH.
  - destruct Hin as [-> | Hin]; [| now apply IH].
    exfalso. unfold learned_features in E. rewrite Hn, Hl in E. discriminate.
Qed.

Lemma read_file_after_learn (now now' : datetime) (w w1 : world)
      (image_path plant_name label dest : string) :
  learn_plant now now' w image_path plant_name = (LearnStored label dest, w1) ->
  read_file w1 image_path = read_file w image_path.
Proof.
  intros Hl.
  destruct (learn_plant_stored _ _ _ _ _ _ _ _ Hl)
    as (content & d & _ & _ & _ & Hdest & _ & Hne & Hf & Hds & Hle & _).
  unfold read_file. rewrite Hf.
  destruct (w_files w !! image_path); [reflexivity |].
  unfold learned_files, dataset_files. rewrite Hle, Hds.
  change (default [] (Some ?l)) with l.
  rewrite lookup_path_store by congruence. reflexivity.
Qed.

(** Every score of a scan is a result of [calculate_similarity]. *)
Lemma learned_compared_scores (features : fvec) (cached : gmap string fvec)
      (files : list (string * bytes)) (e : string * f64) :
  In e (learned_compared features cached files) ->
  exists v, snd e = calculate_similarity features v.
Proof.
  revert cached. induction files as [| f files IH]; intros cached;
    [contradiction |].
  cbn [learned_compared].
  destruct (learned_features cached (learned_name_of (fst f)) (snd f))
    as [[g cached'] |]; [| apply IH].
  intros [<- | He]; [eauto | eapply IH, He].
Qed.

Lemma compared_scores (w : world) (features : fvec) (e : string * f64) :
  In e (compared w features) ->
  exists v, snd e = calculate_similarity features v.
Proof.
  unfold compared. intros He. apply in_app_iff in He as [He | He].
  - unfold static_compared in He.
    apply in_flat_map in He as (dir & _ & He).
    apply in_flat_map in He as (file & _ & He).
    unfold static_entry in He.
    destruct (descriptor (snd file)) as [v |]; [| contradiction].
    destruct He as [<- | []]. eauto.
  - eapply learned_compared_scores, He.
Qed.

(** C2, amended.  After a successful [learn_plant] whose cleaned label
    has neither an underscore nor a [/], the taught entry is among the
    references of an immediately following [identify_plant] on the same
    file, with the score [s] of the file's descriptor against itself.
    If the file passes the image check of [identify_plant] and the
    squared norm of the descriptor is a positive normal [float32], the
    call returns a match with a confidence [round(m, 3)] above [0.999],
    for a best score [m >= s]; the match names the cleaned label provided
    every reference under another label scores strictly below [s]. *)
Theorem learn_then_identify (now now' : datetime) (w w1 : world)
        (image_path plant_name label dest : string) :
  learn_plant now now' w image_path plant_name = (LearnStored label dest, w1) ->
  contains_char "_" label = false ->
  contains_char "/" label = false ->
  exists content d,
    read_file w1 image_path = Some content /\
    descriptor content = Some d /\
    label = clean_plant_name plant_name /\
    In (label, calculate_similarity d d) (compared w1 d) /\
    (pil_verify content = true ->
     positive_normal (np_dot f32_arith d d) = true ->
     exists name m,
       fst (identify_plant w1 image_path) = IdMatch (Some name) (py_round3 m) /\
       py_ge m (calculate_similarity d d) = true /\
       py_gt (py_round3 m) confidence_floor = true /\
       ((forall e, In e (compared w1 d) -> fst e <> label ->
                   py_ge (snd e) (calculate_similarity d d) = false) ->
        name = label)).
Proof.
  intros Hl Hu _.
  pose proof (read_file_after_learn _ _ _ _ _ _ _ _ Hl) as Hrf.
  destruct (learn_plant_stored _ _ _ _ _ _ _ _ Hl)
    as (content & d & Hr & Hd & Hlab & Hdest & _ & Hne & Hf & Hds & Hle & Hc).
  exists content, d. rewrite Hrf.
  split; [exact Hr |]. split; [exact Hd |]. split; [exact Hlab |].
  set (s := calculate_similarity d d).
  assert (Hin : In (label, s) (compared w1 d)).
  { unfold compared. apply in_or_app. right. rewrite Hc, Hle.
    change (default ∅ (Some ?c)) with c.
    change (default [] (Some ?l)) with l.
    eapply learned_compared_hit with
      (file := (learned_file_name label (strftime_stamp now)
                                  (md5_hex8 content), content)).
    - apply lookup_insert_eq.
    - unfold glob_jpg. apply filter_In.
      split; [apply store_file_In | apply learned_file_name_matches].
    - cbn [fst]. rewrite learned_name_of_file_name.
      now apply split_head_no_sep. }
  split; [exact Hin |].
  intros Hv Hnorm.
  destruct (self_score_shape d Hnorm) as (ms & es & Es & Hdig & Hes & Hms).
  fold s in Es.
  assert (Hs : py_gt s similarity_threshold = true).
  { rewrite Es. unfold py_gt, SFltb, similarity_threshold. cbn [SFcompare].
    destruct (Z.compare_spec (-53) es) as [E | E | E]; [| reflexivity | lia].
    rewrite compare_cont_Eq.
    specialize (Hms (eq_sym E)).
    replace (6305039478318694 ?= ms)%positive with Lt; [reflexivity |].
    symmetry. apply Pos.compare_lt_iff. lia. }
  assert (Hr1 : read_file w1 image_path = Some content) by congruence.
  rewrite (identify_plant_scanned _ _ _ _ Hr1 Hv Hd). cbn [fst].
  destruct (scan_best w1 d) as (N & M & O).
  pose proof (M _ Hin) as Hm. cbn [snd] in Hm. unfold py_gt in Hs, Hm, O.
  destruct (SFltb_not_nan _ _ Hs) as [_ Hsn].
  assert (Hge : SFleb s (fst (snd (scan w1 d))) = true)
    by now apply SFltb_total.
  assert (Hgt : SFltb similarity_threshold (fst (snd (scan w1 d))) = true)
    by (eapply SFltb_leb_trans; eauto).
  unfold decide_result, py_gt at 1. rewrite Hgt.
  destruct O as [O | (name & Hn & Hbest & _)];
    [rewrite O in Hgt; discriminate |].
  exists name, (fst (snd (scan w1 d))).
  split; [now rewrite Hn |]. split; [exact Hge |].
  split.
  { destruct (compared_scores _ _ _ Hbest) as [v Ev]. cbn [snd] in Ev.
    pose proof (calculate_similarity_canonical d v) as Hcan.
    rewrite <- Ev in Hcan. rewrite Es in Hge.
    destruct (fst (snd (scan w1 d))) as [sm | [] | | [] mm em];
      try discriminate; try reflexivity.
    cbn [f64_canonical] in Hcan.
    unfold SFleb in Hge. cbn [SFcompare] in Hge.
    destruct (Z.compare_spec es em) as [E | E | E]; try discriminate.
    - subst em. rewrite compare_cont_Eq in Hge.
      apply py_round3_near_one; [exact Hcan | exact Hes |].
      intros E. specialize (Hms E).
      destruct (Pos.compare_spec ms mm); try discriminate; lia.
    - apply py_round3_near_one; [exact Hcan | lia | lia]. }
  intros Hlow.
  assert (Hb : snd (snd (scan w1 d)) = Some label).
  { rewrite scan_entries in *. apply best_of_label with s; auto.
    cbn [fst snd]. unfold py_ge. intros H0. exfalso.
    assert (Hp : SFltb pzero s = true)
      by (eapply SFltb_trans; [apply threshold_above_zero | exact Hs]).
    rewrite (SFltb_irrefl_leb _ _ H0) in Hp. discriminate. }
  congruence.
Qed.
End Converge.

(** ** The services on concrete stores *)

Lemma learn_plant_pairing `{Platform} (now now' : datetime) (w : world)
      (image_path plant_name : string) (r : learn_result) :
  fst (learn_plant now now' w image_path plant_name) = r ->
  learn_plant now now' w image_path plant_name
  = (r, snd (learn_plant now now' w image_path plant_name)).
Proof. intros <-. apply surjective_pairing. Qed.

(** C1, as stated, fails on the code: the unknown-plant result of
    [pasture] carries [0.525], the best score [0.5245...] rounded to three
    decimals, and not the best score itself. *)
Lemma identify_plant_confidence_is_rounded :
  descriptor (H := Demo.platform) Demo.checker
  = Some (Demo.features_of Demo.checker) /\
  fst (snd (scan (H := Demo.platform) Demo.pasture
                 (Demo.features_of Demo.checker)))
  = S754_finite false 4724454898794496 (-53) /\
  fst (identify_plant (H := Demo.platform) Demo.pasture "query.jpg")
  = IdUnknown (S754_finite false 4728779608739021 (-53)) /\
  id_confidence (fst (identify_plant (H := Demo.platform) Demo.pasture
                                     "query.jpg"))
  <> Some (fst (snd (scan (H := Demo.platform) Demo.pasture
                          (Demo.features_of Demo.checker)))).
Proof. vm_compute. repeat split. discriminate. Qed.

Lemma identify_plant_decision_witness :
  id_success (fst (identify_plant (H := Demo.platform) Demo.farm "query.jpg"))
  = true <->
  exists e,
    In e (compared (H := Demo.platform) Demo.farm (Demo.features_of Demo.ramp'))
    /\ py_gt (snd e) similarity_threshold = true.
Proof.
  apply (identify_plant_decision (H := Demo.platform) Demo.farm "query.jpg"
           Demo.ramp' (Demo.features_of Demo.ramp'));
    vm_compute; reflexivity.
Defined.

Lemma identify_plant_confidence_nonneg_witness :
  exists c,
    id_confidence (fst (identify_plant (H := Demo.platform) Demo.pasture
                                       "query.jpg")) = Some c
    /\ nonneg c.
Proof.
  apply (identify_plant_confidence_nonneg (H := Demo.platform) Demo.pasture
           "query.jpg" Demo.checker (Demo.features_of Demo.checker));
    vm_compute; reflexivity.
Defined.

Lemma bad_reference_is_skipped_witness :
  descriptor (H := Demo.platform) (snd Demo.torn) = None /\
  static_step (H := Demo.platform) (Demo.features_of Demo.ramp) "maize"
              (pzero, None) Demo.torn = (pzero, None).
Proof.
  split; [reflexivity |].
  apply (bad_reference_is_skipped (H := Demo.platform) Demo.farm
           (Demo.features_of Demo.ramp) Demo.torn).
  vm_compute. reflexivity.
Defined.

Lemma learn_plant_rejects_without_effect_witness :
  exists err,
    learn_plant (H := Demo.platform) Demo.noon Demo.noon Demo.farm
                "query.jpg" "   " = (err, Demo.farm)
    /\ learn_success err = false.
Proof.
  destruct (learn_plant_rejects_without_effect (H := Demo.platform)
              Demo.noon Demo.noon Demo.farm "query.jpg" "   ")
    as (err & E & S & _); [right; reflexivity |].
  exists err. split; assumption.
Defined.

Lemma learn_plant_last_write_wins_witness :
  exists content d cache,
    read_file Demo.rose_store "second.jpg" = Some content /\
    descriptor (H := Demo.platform) content = Some d /\
    w_cache Demo.rose_store' = Some cache /\
    cache !! "rose"%string = Some d /\
    entries_for "rose" cache = 1%nat.
Proof.
  apply (learn_plant_last_write_wins (H := Demo.platform)
           Demo.noon Demo.noon Demo.later Demo.later Demo.cellar
           Demo.rose_store Demo.rose_store'
           "query.jpg" "second.jpg" "Rose" " rose " "rose"
           "ai-service/learned_plants/rose_20240517_120000_00001350.jpg"
           "ai-service/learned_plants/rose_20240517_120007_00003810.jpg");
    apply learn_plant_pairing; vm_compute; reflexivity.
Defined.


(** C2, as stated, fails on the code.  In [garden] the taught picture is
    also the static reference of [maize]: the static entry is compared
    first, the learned one ties with it, and the call keeps [maize].  In
    [cellar] the name [Sweet Potato] is stored as [sweet_potato] and
    reported as [sweet]. *)
Lemma learn_then_identify_names_another_label :
  (learn_success (fst (Demo.taught Demo.garden "foo")) = true /\
   id_success (Demo.asked Demo.garden "foo") = true /\
   id_plant_name (Demo.asked Demo.garden "foo") = Some "maize"%string) /\
  (learn_success (fst (Demo.taught Demo.cellar "Sweet Potato")) = true /\
   id_success (Demo.asked Demo.cellar "Sweet Potato") = true /\
   id_plant_name (Demo.asked Demo.cellar "Sweet Potato")
   = Some "sweet"%string).
Proof. vm_compute. repeat split. Qed.

Lemma learn_then_identify_witness :
  exists name m,
    fst (identify_plant (H := Demo.platform) Demo.foo_store "query.jpg")
    = IdMatch (Some name) (py_round3 m) /\
    py_gt (py_round3 m) confidence_floor = true.
Proof.
  destruct (learn_then_identify (H := Demo.platform) Demo.noon Demo.noon
              Demo.cellar Demo.foo_store "query.jpg" "Foo" "foo"
              "ai-service/learned_plants/foo_20240517_120000_00001350.jpg")
    as (content & d & Hr & Hd & _ & _ & Hmatch);
    [apply learn_plant_pairing; vm_compute; reflexivity
    | reflexivity | reflexivity |].
  assert (Hc : Some content = Some Demo.ramp) by (rewrite <- Hr; reflexivity).
  injection Hc as Hc.
  rewrite Hc in Hd, Hmatch.
  assert (Hf : d = Demo.features_of Demo.ramp)
    by (unfold Demo.features_of; rewrite Hd; reflexivity).
  rewrite Hf in Hmatch.
  destruct Hmatch as (name & m & E & _ & Hconf & _);
    [reflexivity | vm_compute; reflexivity |].
  exists name, m. split; [exact E | exact Hconf].
Defined.

(** * Further properties of the code *)

(** ** Pixels through [preprocess_image] and back *)

Lemma u8_cases (v : Z) : is_u8 v -> In v (map Z.of_nat (seq 0 256)).
Proof.
  intros Hv. apply in_map_iff. exists (Z.to_nat v).
  split; [apply Z2Nat.id; apply Hv |].
  apply in_seq. unfold is_u8 in Hv. lia.
Qed.

Lemma normalise_u8_back (v : Z) :
  is_u8 v -> u8_of_f32 (f32_mul (normalise_u8 v) (f32_of_Z 255)) = v.
Proof.
  intros Hv.
  assert (Hall : forallb (fun v => u8_of_f32 (f32_mul (normalise_u8 v)
                                                      (f32_of_Z 255)) =? v)
                         (map Z.of_nat (seq 0 256)) = true)
    by (vm_compute; reflexivity).
  rewrite forallb_forall in Hall.
  apply Z.eqb_eq, Hall, u8_cases, Hv.
Qed.

Lemma normalise_u8_unit (v : Z) : is_u8 v -> unit_range (normalise_u8 v).
Proof.
  intros Hv.
  assert (Hall : forallb (fun v => SFleb pzero (normalise_u8 v)
                                   && SFleb (normalise_u8 v) (f32_of_Z 1))
                         (map Z.of_nat (seq 0 256)) = true)
    by (vm_compute; reflexivity).
  rewrite forallb_forall in Hall.
  apply andb_true_iff, Hall, u8_cases, Hv.
Qed.

Section Pixels.
Context `{Platform}.

Lemma preprocess_bytes_inv (content : bytes) (image : f32_image) :
  preprocess_bytes content = Some image ->
  exists raw resized,
    cv_imread content = Some raw /\
    cv_resize (pmap (fun '(b, g, r) => (r, g, b)) raw) image_size
    = Some resized /\
    image = pmap (fun '(r, g, b) =>
                    (normalise_u8 r, normalise_u8 g, normalise_u8 b)) resized.
Proof.
  unfold preprocess_bytes. intros Hp.
  destruct (cv_imread content) as [raw |]; [| discriminate]. simpl in Hp.
  destruct (cv_resize _ image_size) as [resized |] eqn:Er; [| discriminate].
  injection Hp as <-. exists raw, resized. auto.
Qed.

Lemma scale_u8_normalised (resized : u8_image) :
  u8_pixels resized ->
  scale_u8 (pmap (fun '(r, g, b) =>
                    (normalise_u8 r, normalise_u8 g, normalise_u8 b)) resized)
  = resized.
Proof.
  unfold scale_u8, pmap, u8_pixels. intros Hu.
  rewrite map_map. induction Hu as [| row rows Hrow _ IH]; [reflexivity |].
  cbn [map]. rewrite IH. f_equal.
  rewrite map_map. induction Hrow as [| [[r g] b] row (Hr & Hg & Hb) _ IHr];
    [reflexivity |].
  cbn [map fst snd] in *. rewrite IHr.
  now rewrite !normalise_u8_back.
Qed.

Lemma unit_pixels_normalised (resized : u8_image) :
  u8_pixels resized ->
  unit_pixels (pmap (fun '(r, g, b) =>
                       (normalise_u8 r, normalise_u8 g, normalise_u8 b))
                    resized).
Proof.
  unfold unit_pixels, pmap, u8_pixels. intros Hu.
  induction Hu as [| row rows Hrow _ IH]; [constructor |].
  cbn [map]. constructor; [| exact IH].
  induction Hrow as [| [[r g] b] row (Hr & Hg & Hb) _ IHr]; [constructor |].
  cbn [map fst snd] in *. constructor; [| exact IHr].
  cbn [fst snd]. auto using normalise_u8_unit.
Qed.

(** X1.  The picture [preprocess_image] returns, scaled back by
    [(image * 255).astype(np.uint8)] as [extract_features] does, is
    exactly the resized 8-bit picture: no channel value is off by one
    after the division by 255 and the multiplication in [float32]. *)
Theorem scale_u8_recovers_pixels (content : bytes) (image : f32_image)
        (raw resized : u8_image) :
  preprocess_bytes content = Some image ->
  cv_imread content = Some raw ->
  cv_resize (pmap (fun '(b, g, r) => (r, g, b)) raw) image_size
  = Some resized ->
  u8_pixels resized ->
  scale_u8 image = resized.
Proof.
  intros Hp Hraw Hres Hu.
  destruct (preprocess_bytes_inv _ _ Hp) as (raw' & resized' & Hraw' & Hres' & ->).
  rewrite Hraw in Hraw'. injection Hraw' as <-.
  rewrite Hres in Hres'. injection Hres' as <-.
  now apply scale_u8_normalised.
Qed.

(** X2.  Every channel of the picture [preprocess_image] returns lies
    between 0 and 1, the ends included: 255 is mapped to exactly 1.0. *)
Theorem preprocess_values_in_unit_range (content : bytes) (image : f32_image)
        (raw resized : u8_image) :
  preprocess_bytes content = Some image ->
  cv_imread content = Some raw ->
  cv_resize (pmap (fun '(b, g, r) => (r, g, b)) raw) image_size
  = Some resized ->
  u8_pixels resized ->
  unit_pixels image /\ normalise_u8 255 = f32_of_Z 1
  /\ normalise_u8 0 = pzero.
Proof.
  intros Hp Hraw Hres Hu.
  destruct (preprocess_bytes_inv _ _ Hp) as (raw' & resized' & Hraw' & Hres' & ->).
  rewrite Hraw in Hraw'. injection Hraw' as <-.
  rewrite Hres in Hres'. injection Hres' as <-.
  split; [now apply unit_pixels_normalised |]. split; reflexivity.
Qed.
End Pixels.

(** ** The texture histogram *)

Lemma lbp_pattern_range (gray : plane Z) (i j : nat) :
  0 <= lbp_pattern gray i j <= 255.
Proof.
  unfold lbp_pattern. cbn zeta.
  repeat match goal with
         | |- context [?a >? ?b] => destruct (a >? b)
         end; simpl; lia.
Qed.

Lemma total_app (l1 l2 : list Z) : total (l1 ++ l2) = total l1 + total l2.
Proof. induction l1 as [| x l1 IH]; simpl; [reflexivity | rewrite IH; lia]. Qed.

Lemma total_map_add {A} (f g : A -> Z) (l : list A) :
  total (map (fun k => f k + g k) l) = total (map f l) + total (map g l).
Proof. induction l as [| x l IH]; simpl; [reflexivity | rewrite IH; lia]. Qed.

Lemma total_map_zero {A} (f : A -> Z) (l : list A) :
  (forall k, f k = 0) -> total (map f l) = 0.
Proof.
  intros Hf. induction l as [| x l IH]; simpl; [reflexivity |].
  fold (total (map f l)). rewrite Hf, IH. reflexivity.
Qed.

Lemma total_indicator (b start len : nat) :
  total (map (fun k => Z.b2z (Nat.eqb b k)) (seq start len))
  = Z.b2z ((start <=? b)%nat && (b <? start + len)%nat).
Proof.
  revert start. induction len as [| len IH]; intros start.
  - simpl. destruct (start <=? b)%nat eqn:E1; [| reflexivity].
    destruct (b <? start + 0)%nat eqn:E2; [| reflexivity].
    apply Nat.leb_le in E1. apply Nat.ltb_lt in E2. lia.
  - cbn [seq map total fold_right]. fold (total (map (fun k => Z.b2z (Nat.eqb b k))
                                                    (seq (S start) len))).
    rewrite IH.
    destruct (Nat.eqb_spec b start) as [-> | Hne].
    + rewrite Nat.leb_refl.
      replace (start <? start + S len)%nat with true
        by (symmetry; apply Nat.ltb_lt; lia).
      replace (S start <=? start)%nat with false
        by (symmetry; apply Nat.leb_gt; lia).
      reflexivity.
    + destruct (start <=? b)%nat eqn:E1, (S start <=? b)%nat eqn:E2,
        (b <? start + S len)%nat eqn:E3, (b <? S start + len)%nat eqn:E4;
        try reflexivity;
        rewrite ?Nat.leb_le, ?Nat.leb_gt, ?Nat.ltb_lt, ?Nat.ltb_ge in *; lia.
Qed.

Lemma histogram_bin_bound (bins : nat) (lo hi v : Z) (b : nat) :
  (0 < bins)%nat -> lo < hi ->
  histogram_bin bins lo hi v = Some b -> (b < bins)%nat.
Proof.
  intros Hb Hlh. unfold histogram_bin.
  destruct ((v <? lo) || (hi <? v)) eqn:E; [discriminate |].
  apply orb_false_iff in E as [E1 E2].
  apply Z.ltb_ge in E1. apply Z.ltb_ge in E2.
  intros Hs. injection Hs as <-.
  assert (0 <= Z.of_nat bins * (v - lo) / (hi - lo))
    by (apply Z.div_pos; nia).
  lia.
Qed.

(** The counts of a histogram add up to the number of values in range. *)
Lemma np_histogram_total (values : list Z) (bins : nat) (lo hi : Z) :
  (0 < bins)%nat -> lo < hi ->
  total (np_histogram values bins lo hi)
  = Z.of_nat (length (List.filter (fun v => (lo <=? v) && (v <=? hi)) values)).
Proof.
  intros Hb Hlh. unfold np_histogram.
  induction values as [| v values IH].
  - simpl. now apply total_map_zero.
  - rewrite (map_ext _ (fun k => Z.b2z (in_bin bins lo hi k v)
       + Z.of_nat (length (List.filter (in_bin bins lo hi k) values)))).
    2:{ intros k. cbn [List.filter]. destruct (in_bin bins lo hi k v);
          cbn [length Z.b2z]; lia. }
    rewrite total_map_add, IH. cbn [List.filter].
    assert (Hv : total (map (fun k => Z.b2z (in_bin bins lo hi k v)) (seq 0 bins))
                 = Z.b2z ((lo <=? v) && (v <=? hi))).
    { unfold in_bin. destruct (histogram_bin bins lo hi v) as [b |] eqn:E.
      - rewrite total_indicator.
        pose proof (histogram_bin_bound _ _ _ _ _ Hb Hlh E) as Hlt.
        replace (0 <=? b)%nat with true by (symmetry; apply Nat.leb_le; lia).
        replace (b <? 0 + bins)%nat with true
          by (symmetry; apply Nat.ltb_lt; lia).
        unfold histogram_bin in E.
        destruct ((v <? lo) || (hi <? v)) eqn:E'; [discriminate |].
        apply orb_false_iff in E' as [E1 E2].
        apply Z.ltb_ge in E1. apply Z.ltb_ge in E2.
        replace (lo <=? v) with true by (symmetry; apply Z.leb_le; lia).
        replace (v <=? hi) with true by (symmetry; apply Z.leb_le; lia).
        reflexivity.
      - unfold histogram_bin in E.
        destruct ((v <? lo) || (hi <? v)) eqn:E'; [| discriminate].
        replace ((lo <=? v) && (v <=? hi)) with false.
        + now apply total_map_zero.
        + symmetry. apply orb_true_iff in E' as [E1 | E1];
            apply Z.ltb_lt in E1; apply andb_false_iff;
            [left | right]; apply Z.leb_gt; lia. }
    rewrite Hv. destruct ((lo <=? v) && (v <=? hi)); cbn [length Z.b2z]; lia.
Qed.

(** X3.  The sixteen counts of the texture histogram add up to the number
    of interior pixels, [(height - 2) * (width - 2)] (none when the
    picture has fewer than three rows or columns): every pattern falls
    into a bin, and no count is negative. *)
Theorem texture_hist_counts_every_interior_pixel (gray : plane Z) :
  total (texture_hist gray)
  = Z.of_nat ((shape0 gray - 2) * (shape1 gray - 2)) /\
  Forall (fun c => 0 <= c) (texture_hist gray).
Proof.
  split.
  - unfold texture_hist. rewrite np_histogram_total by lia.
    rewrite <- texture_features_length. do 2 f_equal.
    apply forallb_filter_id. apply forallb_forall. intros p Hp.
    unfold texture_features in Hp. apply in_flat_map in Hp as (i & _ & Hp).
    apply in_map_iff in Hp as (j & <- & _).
    pose proof (lbp_pattern_range gray i j).
    apply andb_true_iff. split; apply Z.leb_le; lia.
  - unfold texture_hist, np_histogram. apply List.Forall_forall. intros c Hc.
    apply in_map_iff in Hc as (k & <- & _). lia.
Qed.

Lemma rectangular_row {A} (width : nat) (a : plane A) (i : nat) :
  rectangular width a -> (i < length a)%nat -> length (nth i a []) = width.
Proof.
  unfold rectangular. intros Hr Hi.
  rewrite List.Forall_forall in Hr. apply Hr, nth_In, Hi.
Qed.

Lemma at2_pmap (f : Z -> Z) (width : nat) (gray : plane Z) (i j : nat) :
  rectangular width gray -> (i < length gray)%nat -> (j < width)%nat ->
  at2 (pmap f gray) i j = f (at2 gray i j).
Proof.
  intros Hr Hi Hj. unfold at2, pmap.
  change (@nil Z) with (map f []) at 1. rewrite map_nth.
  rewrite nth_indep with (d' := f 0)
    by (rewrite length_map, (rectangular_row width) by assumption; exact Hj).
  apply map_nth.
Qed.

Lemma shape1_pmap {A B} (f : A -> B) (a : plane A) :
  shape1 (pmap f a) = shape1 a.
Proof. unfold shape1, pmap. destruct a; simpl; [reflexivity | apply length_map]. Qed.

Lemma shape0_pmap {A B} (f : A -> B) (a : plane A) :
  shape0 (pmap f a) = shape0 a.
Proof. apply length_map. Qed.

Lemma flat_map_ext_seq {B} (f g : nat -> list B) (start len : nat) :
  (forall i, (start <= i < start + len)%nat -> f i = g i) ->
  flat_map f (seq start len) = flat_map g (seq start len).
Proof.
  revert start. induction len as [| len IH]; intros start Hfg; [reflexivity |].
  simpl. rewrite Hfg by lia. f_equal. apply IH. intros i Hi. apply Hfg. lia.
Qed.

Lemma lbp_pattern_monotone (f : Z -> Z) (gray : plane Z) (i j : nat) :
  rectangular (shape1 gray) gray ->
  (forall x y, x < y -> f x < f y) ->
  (1 <= i < shape0 gray - 1)%nat -> (1 <= j < shape1 gray - 1)%nat ->
  lbp_pattern (pmap f gray) i j = lbp_pattern gray i j.
Proof.
  intros Hr Hf Hi Hj. unfold shape0 in Hi.
  assert (Hcmp : forall a b, (f a >? f b) = (a >? b)).
  { intros a b. destruct (Z.gtb_spec a b) as [Hab | Hab].
    - apply Z.gtb_lt. now apply Hf.
    - rewrite Z.gtb_ltb. apply Z.ltb_ge.
      destruct (Z.eq_dec a b) as [-> | Hne]; [lia |].
      apply Z.lt_le_incl, Hf. lia. }
  unfold lbp_pattern. cbn zeta.
  rewrite !(at2_pmap f (shape1 gray)) by (assumption || lia).
  now rewrite !Hcmp.
Qed.

(** X4.  The texture values, and with them the texture histogram, do not
    change when the grey levels of the picture go through a strictly
    increasing map (a brightness or contrast change that keeps the order
    of the grey levels): the patterns only record which neighbours are
    brighter than the centre. *)
Theorem texture_invariant_under_increasing_map (f : Z -> Z) (gray : plane Z) :
  rectangular (shape1 gray) gray ->
  (forall x y, x < y -> f x < f y) ->
  texture_features (pmap f gray) = texture_features gray /\
  texture_hist (pmap f gray) = texture_hist gray.
Proof.
  intros Hr Hf.
  assert (Ht : texture_features (pmap f gray) = texture_features gray).
  { unfold texture_features. rewrite shape0_pmap, shape1_pmap.
    apply flat_map_ext_seq. intros i Hi. apply map_ext_in. intros j Hj.
    apply in_seq in Hj.
    apply lbp_pattern_monotone; auto; lia. }
  split; [exact Ht |]. unfold texture_hist. now rewrite Ht.
Qed.

Lemma at2_flat (c : Z) (height width i j : nat) :
  (i < height)%nat -> (j < width)%nat ->
  at2 (repeat (repeat c width) height) i j = c.
Proof.
  intros Hi Hj. unfold at2.
  rewrite nth_indep with (d' := repeat c width) by (now rewrite repeat_length).
  rewrite nth_repeat.
  rewrite nth_indep with (d' := c) by (now rewrite repeat_length).
  apply nth_repeat.
Qed.

Lemma np_histogram_zeros (values : list Z) :
  Forall (fun v => v = 0) values ->
  np_histogram values 16 0 255 = Z.of_nat (length values) :: repeat 0 15.
Proof.
  intros Hz. unfold np_histogram.
  rewrite (map_ext_in _ (fun k => if Nat.eqb k 0 then Z.of_nat (length values)
                                  else 0)).
  - reflexivity.
  - intros k _. induction Hz as [| v values -> _ IH].
    + now destruct (Nat.eqb k 0).
    + cbn [List.filter]. destruct k as [| k].
      * simpl in *. lia.
      * simpl in *. exact IH.
Qed.

(** X5.  A picture of one grey level, of whatever size, has no neighbour
    brighter than its centre anywhere: every pattern is 0 and the texture
    histogram holds all interior pixels in its first bin. *)
Theorem flat_picture_texture (c : Z) (height width : nat) :
  Forall (fun p => p = 0) (texture_features (repeat (repeat c width) height))
  /\ texture_hist (repeat (repeat c width) height)
     = Z.of_nat ((height - 2) * (width - 2)) :: repeat 0 15.
Proof.
  set (gray := repeat (repeat c width) height).
  assert (Hs0 : shape0 gray = height) by apply repeat_length.
  assert (Hs1 : (1 <= height)%nat -> shape1 gray = width).
  { intros Hh. unfold shape1, gray. destruct height; [lia |].
    apply repeat_length. }
  assert (Hz : Forall (fun p => p = 0) (texture_features gray)).
  { apply List.Forall_forall. intros p Hp. unfold texture_features in Hp.
    apply in_flat_map in Hp as (i & Hi & Hp).
    apply in_map_iff in Hp as (j & <- & Hj).
    apply in_seq in Hi. apply in_seq in Hj. rewrite Hs0 in Hi.
    rewrite Hs1 in Hj by lia.
    unfold lbp_pattern, gray. cbn zeta.
    rewrite !at2_flat by lia. rewrite Z.gtb_ltb, Z.ltb_irrefl. reflexivity. }
  split; [exact Hz |].
  unfold texture_hist. rewrite np_histogram_zeros by exact Hz.
  rewrite texture_features_length, Hs0.
  destruct height as [| height]; [reflexivity |]. now rewrite Hs1 by lia.
Qed.

(** ** More on the scorer *)

Lemma f32_mul_comm (x y : f32) : f32_mul x y = f32_mul y x.
Proof.
  unfold f32_mul, SFmul.
  destruct x as [sx | sx | | sx mx ex], y as [sy | sy | | sy my ey];
    try reflexivity; try (now rewrite xorb_comm).
  now rewrite xorb_comm, Pos.mul_comm, Z.add_comm.
Qed.

Lemma np_dot_f32_fold_comm (u v : fvec) (acc : f32) :
  fold_left (fun acc p => f32_add acc (f32_mul (fst p) (snd p))) (combine u v) acc
  = fold_left (fun acc p => f32_add acc (f32_mul (fst p) (snd p)))
              (combine v u) acc.
Proof.
  revert v acc. induction u as [| x u IH]; intros [| y v] acc; try reflexivity.
  cbn [combine fold_left fst snd]. rewrite (f32_mul_comm x y). apply IH.
Qed.

Lemma np_dot_f32_comm (u v : fvec) :
  np_dot f32_arith u v = np_dot f32_arith v u.
Proof. unfold np_dot. cbn [a_add a_mul a_zero f32_arith]. apply np_dot_f32_fold_comm. Qed.

(** X6.  The score is symmetric, bit for bit: comparing the query with a
    reference gives the same float as comparing the reference with the
    query. *)
Theorem calculate_similarity_symmetric (features1 features2 : fvec) :
  calculate_similarity features1 features2
  = calculate_similarity features2 features1.
Proof.
  unfold calculate_similarity, cosine. cbn [a_eq0 a_zero a_div a_mul f32_arith].
  rewrite (orb_comm (is_zero (np_norm f32_arith features1))).
  rewrite (Nat.eqb_sym (length features1)).
  rewrite (np_dot_f32_comm features1 features2).
  rewrite (f32_mul_comm (np_norm f32_arith features1)).
  reflexivity.
Qed.

(** X7.  A descriptor whose length differs from the query's (one cached
    under another feature layout, say) scores exactly [0.0]: [np.dot]
    raises, the handler returns zero, and so the entry never replaces
    the running best of a scan. *)
Theorem mismatched_descriptor_never_matches (features f : fvec)
        (name : string) (b : best) :
  length f <> length features ->
  nonneg (fst b) ->
  calculate_similarity features f = pzero /\
  update_best (calculate_similarity features f) name b = b.
Proof.
  intros Hlen Hb.
  assert (Hs : calculate_similarity features f = pzero).
  { unfold calculate_similarity, cosine. cbn [a_eq0 a_zero f32_arith].
    destruct (is_zero _ || is_zero _); [reflexivity |].
    replace (Nat.eqb (length features) (length f)) with false
      by (symmetry; apply Nat.eqb_neq; congruence).
    reflexivity. }
  split; [exact Hs |]. rewrite Hs.
  destruct (update_best_cases pzero name b) as [[U _] | [_ E]]; [exact U |].
  unfold py_gt in E. rewrite (SFltb_irrefl_leb _ _ Hb) in E. discriminate.
Qed.

(** ** More on the scan *)

Lemma SFltb_not_leb (a b : spec_float) : SFltb a b = true -> SFleb b a = false.
Proof.
  unfold SFleb, SFltb, SFcompare. destruct a, b; intros H1; sf_cases.
Qed.

(** Two positive floats neither of which is below the other are equal. *)
Lemma positive_max_unique (a b : f64) :
  py_gt a pzero = true -> py_gt b pzero = true ->
  SFltb a b = false -> SFltb b a = false -> a = b.
Proof.
  intros Ha Hb.
  destruct (gt_zero_cases a Ha) as [-> | (ma & ea & ->)];
    destruct (gt_zero_cases b Hb) as [-> | (mb & eb & ->)];
    unfold SFltb, SFcompare; cbn beta iota; intros H1 H2;
    try discriminate; try reflexivity.
  revert H1 H2.
  change (Pos.compare_cont Eq ma mb) with (ma ?= mb)%positive.
  change (Pos.compare_cont Eq mb ma) with (mb ?= ma)%positive.
  destruct (Z.compare_spec ea eb) as [He | Hlt | Hgt];
    destruct (Z.compare_spec eb ea) as [E | Hlt' | Hgt'];
    try lia; try (intros; discriminate).
  destruct (Pos.compare_spec ma mb) as [Hm | Hlt | Hgt];
    destruct (Pos.compare_spec mb ma) as [E' | Hlt' | Hgt'];
    try lia; try (intros; discriminate).
  intros _ _. now subst.
Qed.

(** The winner of a scan is the first entry that reaches the best score. *)
Lemma best_of_first_wins (entries : list (string * f64)) (b0 : best)
      (m : f64) (n : string) :
  best_of entries b0 = (m, Some n) ->
  (b0 = (m, Some n) /\ forall e, In e entries -> py_gt (snd e) m = false) \/
  exists l1 l2,
    entries = l1 ++ (n, m) :: l2 /\
    py_gt m (fst b0) = true /\
    (forall e, In e l1 -> py_ge (snd e) m = false) /\
    (forall e, In e l2 -> py_gt (snd e) m = false).
Proof.
  revert b0. induction entries as [| [n0 s0] entries IH]; intros b0 Hb.
  - left. split; [exact Hb | intros e []].
  - cbn [best_of fold_left fst snd] in Hb.
    fold (best_of entries (update_best s0 n0 b0)) in Hb.
    destruct (IH _ Hb) as [[E Hrest] | (l1 & l2 & -> & Hgt & H1 & H2)];
      destruct (update_best_cases s0 n0 b0) as [[U Hs] | [U Hs]];
      rewrite U in *.
    + left. split; [exact E |]. intros e [<- | He]; [| now apply Hrest].
      subst b0. exact Hs.
    + right. injection E as <- <-. exists [], entries.
      repeat split; auto. intros e [].
    + right. exists ((n0, s0) :: l1), l2. repeat split; auto.
      intros e [<- | He]; [| now apply H1]. cbn [snd].
      unfold py_ge, py_gt in *.
      destruct (SFleb m s0) eqn:E; [| reflexivity].
      rewrite (SFltb_leb_trans _ _ _ Hgt E) in Hs. discriminate.
    + right. exists ((n0, s0) :: l1), l2. cbn [fst] in Hgt.
      unfold py_ge, py_gt in *. repeat split; auto.
      * eapply SFltb_trans; eauto.
      * intros e [<- | He]; [| now apply H1]. now apply SFltb_not_leb.
Qed.

Section ScanMore.
Context `{Platform}.

(** X8.  Ties go to the reference met first.  When a call returns a
    match, the named entry is the first one of the scan (static files
    before learned ones) whose score is the best score: every entry before
    it scores strictly less, or is NaN, and no entry after it scores
    more. *)
Theorem match_names_first_best_entry (w : world) (image_path : string)
        (content : bytes) (features : fvec) (name : string) (c : f64) :
  read_file w image_path = Some content ->
  pil_verify content = true ->
  descriptor content = Some features ->
  fst (identify_plant w image_path) = IdMatch (Some name) c ->
  exists m l1 l2,
    c = py_round3 m /\
    compared w features = l1 ++ (name, m) :: l2 /\
    (forall e, In e l1 -> py_ge (snd e) m = false) /\
    (forall e, In e l2 -> py_gt (snd e) m = false).
Proof.
  intros Hr Hv Hd. rewrite (identify_plant_scanned _ _ _ _ Hr Hv Hd).
  cbn [fst]. unfold decide_result.
  destruct (py_gt (fst (snd (scan w features))) similarity_threshold);
    [| discriminate].
  intros E. injection E as Hn <-.
  assert (Hb : best_of (compared w features) (pzero, None)
               = (fst (snd (scan w features)), Some name)).
  { rewrite <- scan_entries, <- Hn. apply surjective_pairing. }
  destruct (best_of_first_wins _ _ _ _ Hb)
    as [[E _] | (l1 & l2 & Hc & _ & H1 & H2)]; [discriminate |].
  exists (fst (snd (scan w features))), l1, l2. auto.
Qed.
End ScanMore.

(** The best score of a scan, characterised: the initial zero or the
    score of an entry above zero, which no entry beats. *)
Lemma best_score_spec (entries : list (string * f64)) :
  let m := fst (best_of entries (pzero, None)) in
  (m = pzero \/ exists n, In (n, m) entries /\ py_gt m pzero = true) /\
  (forall e, In e entries -> py_gt (snd e) m = false) /\
  is_nan m = false.
Proof.
  cbn zeta.
  destruct (best_of_max entries (pzero, None) eq_refl) as (N & _ & M).
  split; [| split; assumption].
  destruct (best_of_origin entries (pzero, None))
    as [E | (n & s & E & Hin & Hgt)]; rewrite E; [now left |].
  right. exists n. auto.
Qed.

Lemma best_score_incl (l l' : list (string * f64)) :
  incl l l' ->
  SFleb (fst (best_of l (pzero, None))) (fst (best_of l' (pzero, None))) = true.
Proof.
  intros Hi.
  destruct (best_score_spec l) as (O & _ & N).
  destruct (best_score_spec l') as (O' & M' & N').
  destruct O as [-> | (n & Hin & Hp)].
  - destruct O' as [-> | (n' & _ & Hp')]; [reflexivity |].
    now apply SFltb_leb.
  - apply SFltb_total; auto. exact (M' _ (Hi _ Hin)).
Qed.

Lemma best_score_same_entries (l l' : list (string * f64)) :
  incl l l' -> incl l' l ->
  fst (best_of l (pzero, None)) = fst (best_of l' (pzero, None)).
Proof.
  intros Hi Hi'.
  destruct (best_score_spec l) as (O & M & N).
  destruct (best_score_spec l') as (O' & M' & N').
  destruct O as [E | (n & Hin & Hp)], O' as [E' | (n' & Hin' & Hp')].
  - congruence.
  - pose proof (M _ (Hi' _ Hin')) as Hc. cbn [snd] in Hc.
    rewrite E in Hc. congruence.
  - pose proof (M' _ (Hi _ Hin)) as Hc. cbn [snd] in Hc.
    rewrite E' in Hc. congruence.
  - apply positive_max_unique; auto.
    + exact (M _ (Hi' _ Hin')).
    + exact (M' _ (Hi _ Hin)).
Qed.

Section Order.
Context `{Platform}.

Lemma static_compared_labelled (w : world) (features : fvec) :
  static_compared w features
  = flat_map (fun lf => static_entry features (fst lf) (snd lf))
             (labelled_files (default [] (w_dataset w))).
Proof.
  unfold static_compared, labelled_files.
  induction (default [] (w_dataset w)) as [| d dirs IH]; [reflexivity |].
  cbn [flat_map]. rewrite flat_map_app, IH. f_equal.
  induction (glob_jpg (snd d)) as [| f fs IHf]; [reflexivity |].
  cbn [map flat_map fst snd]. now rewrite IHf.
Qed.

Lemma compared_incl (w : world) (dirs' : list (string * list (string * bytes)))
      (features : fvec) :
  incl (labelled_files (default [] (w_dataset w))) (labelled_files dirs') ->
  incl (compared w features) (compared (set_dataset dirs' w) features).
Proof.
  intros Hi e He. unfold compared in *. apply in_app_iff in He.
  apply in_app_iff. destruct He as [He | He]; [left | right; exact He].
  rewrite static_compared_labelled in *. apply in_flat_map in He as (lf & Hl & He).
  apply in_flat_map. exists lf. split; [| exact He]. apply Hi, Hl.
Qed.

Lemma decide_result_success (b : best) :
  id_success (decide_result b) = py_gt (fst b) similarity_threshold.
Proof.
  unfold decide_result. now destruct (py_gt (fst b) similarity_threshold).
Qed.

Lemma decide_result_score (b b' : best) :
  fst b = fst b' ->
  id_success (decide_result b) = id_success (decide_result b') /\
  id_needs_learning (decide_result b) = id_needs_learning (decide_result b') /\
  id_confidence (decide_result b) = id_confidence (decide_result b').
Proof.
  unfold decide_result. intros ->.
  destruct (py_gt (fst b') similarity_threshold); auto.
Qed.

(** X9.  The order in which the operating system lists the static
    dataset does not change whether a call succeeds nor the confidence it
    reports: two stores with the same labelled reference files, listed in
    different orders, give the same success flag, the same
    [needs_learning] and the same confidence. *)
Theorem listing_order_keeps_confidence (w : world)
        (dirs dirs' : list (string * list (string * bytes)))
        (image_path : string) (content : bytes) (features : fvec) :
  w_dataset w = Some dirs ->
  Permutation (labelled_files dirs) (labelled_files dirs') ->
  read_file w image_path = Some content ->
  read_file (set_dataset dirs' w) image_path = Some content ->
  pil_verify content = true ->
  descriptor content = Some features ->
  let r := fst (identify_plant w image_path) in
  let r' := fst (identify_plant (set_dataset dirs' w) image_path) in
  id_success r = id_success r' /\
  id_needs_learning r = id_needs_learning r' /\
  id_confidence r = id_confidence r'.
Proof.
  intros Hw Hp Hr Hr' Hv Hd. cbn zeta.
  rewrite (identify_plant_scanned _ _ _ _ Hr Hv Hd),
    (identify_plant_scanned _ _ _ _ Hr' Hv Hd). cbn [fst].
  apply decide_result_score. rewrite !scan_entries.
  assert (Ew : set_dataset dirs (set_dataset dirs' w) = w).
  { unfold set_dataset. cbn [w_files w_learned w_cache w_log].
    rewrite <- Hw. now destruct w. }
  apply best_score_same_entries.
  - apply compared_incl. rewrite Hw. intros e He.
    eapply Permutation_in; eauto.
  - rewrite <- Ew at 2.
    apply compared_incl. intros e He. cbn [w_dataset set_dataset] in He.
    change (default [] (Some dirs')) with dirs' in He.
    eapply Permutation_in; [symmetry |]; eauto.
Qed.

(** X10.  More static reference files never lose a match: when every
    labelled file of the dataset is still there, the best score does not
    drop, and a call that succeeded still succeeds. *)
Theorem more_references_keep_a_match (w : world)
        (dirs' : list (string * list (string * bytes)))
        (image_path : string) (content : bytes) (features : fvec) :
  incl (labelled_files (default [] (w_dataset w))) (labelled_files dirs') ->
  read_file w image_path = Some content ->
  read_file (set_dataset dirs' w) image_path = Some content ->
  pil_verify content = true ->
  descriptor content = Some features ->
  py_ge (fst (snd (scan (set_dataset dirs' w) features)))
        (fst (snd (scan w features))) = true /\
  (id_success (fst (identify_plant w image_path)) = true ->
   id_success (fst (identify_plant (set_dataset dirs' w) image_path)) = true).
Proof.
  intros Hi Hr Hr' Hv Hd.
  pose proof (compared_incl w dirs' features Hi) as Hc.
  split.
  - unfold py_ge. rewrite !scan_entries. now apply best_score_incl.
  - rewrite (identify_plant_scanned _ _ _ _ Hr Hv Hd),
      (identify_plant_scanned _ _ _ _ Hr' Hv Hd). cbn [fst].
    rewrite !decide_result_success. intros Hs.
    apply (scan_best_above _ _ similarity_threshold eq_refl)
      in Hs as (e & He & Hgt).
    apply (scan_best_above _ _ similarity_threshold eq_refl).
    exists e. split; [apply Hc, He | exact Hgt].
Qed.
End Order.

(** ** The cache through [identify_plant] *)

Section Cache.
Context `{Platform}.

Lemma scan_learned_fold (w : world) (features : fvec)
      (st : gmap string fvec * best) :
  scan_learned w features st
  = fold_left (learned_step features) (glob_jpg (default [] (w_learned w))) st.
Proof. unfold scan_learned. now destruct (w_learned w). Qed.

Lemma learned_features_cases (cached : gmap string fvec) (name : string)
      (content : bytes) :
  (exists v, cached !! name = Some v /\
             learned_features cached name content = Some (v, cached)) \/
  (exists v, cached !! name = None /\ descriptor content = Some v /\
             learned_features cached name content
             = Some (v, <[name := v]> cached)) \/
  (cached !! name = None /\ descriptor content = None /\
   learned_features cached name content = None).
Proof.
  unfold learned_features. destruct (cached !! name) as [v |]; [left; eauto |].
  right. destruct (descriptor content) as [v |]; simpl; [left | right]; eauto.
Qed.

(** What one scan of the learned files does to the cache and which
    entries it compares. *)
Lemma learned_scan_facts (features : fvec) (files : list (string * bytes))
      (c : gmap string fvec) (b : best) :
  let c' := fst (fold_left (learned_step features) files (c, b)) in
  (forall k v, c !! k = Some v -> c' !! k = Some v) /\
  (forall e, In e (learned_compared features c files) ->
     exists x v, In x files /\ fst e = learned_name_of (fst x) /\
                 c' !! fst e = Some v /\
                 snd e = calculate_similarity features v) /\
  (forall k v, c' !! k = Some v ->
     c !! k = Some v \/
     exists x, In x files /\ learned_name_of (fst x) = k /\
               descriptor (snd x) = Some v /\
               In (k, calculate_similarity features v)
                  (learned_compared features c files)) /\
  (forall x, In x files -> c' !! learned_name_of (fst x) = None ->
             descriptor (snd x) = None).
Proof.
  revert c b. induction files as [| x0 files IH]; intros c b; cbn zeta.
  - simpl. repeat split; auto; intros; contradiction.
  - cbn [fold_left learned_compared]. unfold learned_step at 2 4 6 8.
    cbn [fst snd].
    destruct (learned_features_cases c (learned_name_of (fst x0)) (snd x0))
      as [(v0 & Hc & ->) | [(v0 & Hc & Hd & ->) | (Hc & Hd & ->)]].
    + destruct (IH c (update_best (calculate_similarity features v0)
                                  (learned_name_of (fst x0)) b))
        as (A1 & A2 & A5 & A4).
      split; [exact A1 |]. split; [| split].
      * intros e [<- | He].
        -- exists x0, v0. cbn [fst snd]. repeat split; auto. now left.
        -- destruct (A2 e He) as (x & v & Hx & Hn & Hv & Hs).
           exists x, v. repeat split; auto. now right.
      * intros k v Hk. destruct (A5 k v Hk) as [Hl | (x & Hx & Hn & Hdx & Hin)];
          [now left |].
        right. exists x. repeat split; auto; now right.
      * intros x [<- | Hx] Hn; [| now apply A4].
        rewrite (A1 _ _ Hc) in Hn. discriminate.
    + destruct (IH (<[learned_name_of (fst x0) := v0]> c)
                   (update_best (calculate_similarity features v0)
                                (learned_name_of (fst x0)) b))
        as (A1 & A2 & A5 & A4).
      assert (Hins : forall k v, c !! k = Some v ->
                <[learned_name_of (fst x0) := v0]> c !! k = Some v).
      { intros k v Hk. rewrite lookup_insert_ne; [exact Hk | congruence]. }
      split; [intros k v Hk; apply A1, Hins, Hk |]. split; [| split].
      * intros e [<- | He].
        -- exists x0, v0. cbn [fst snd]. repeat split; auto; [now left |].
           apply A1, lookup_insert_eq.
        -- destruct (A2 e He) as (x & v & Hx & Hn & Hv & Hs).
           exists x, v. repeat split; auto. now right.
      * intros k v Hk. destruct (A5 k v Hk) as [Hl | (x & Hx & Hn & Hdx & Hin)].
        -- destruct (decide (learned_name_of (fst x0) = k)) as [<- | Hne].
           ++ rewrite lookup_insert_eq in Hl. injection Hl as <-.
              right. exists x0. repeat split; auto; now left.
           ++ rewrite lookup_insert_ne in Hl by exact Hne. now left.
        -- right. exists x. repeat split; auto; now right.
      * intros x [<- | Hx] Hn; [| now apply A4].
        rewrite (A1 _ _ (lookup_insert_eq _ _ _)) in Hn. discriminate.
    + destruct (IH c b) as (A1 & A2 & A5 & A4).
      split; [exact A1 |]. split; [| split].
      * intros e He. destruct (A2 e He) as (x & v & Hx & Hn & Hv & Hs).
        exists x, v. repeat split; auto. now right.
      * intros k v Hk. destruct (A5 k v Hk) as [Hl | (x & Hx & Hn & Hdx & Hin)];
          [now left |].
        right. exists x. repeat split; auto. now right.
      * intros x [<- | Hx] Hn; [exact Hd | now apply A4].
Qed.

(** A cache that already holds every learned label that can be computed
    is left as it is. *)
Lemma learned_scan_closed (features : fvec) (files : list (string * bytes))
      (c : gmap string fvec) (b : best) :
  (forall x, In x files -> c !! learned_name_of (fst x) = None ->
             descriptor (snd x) = None) ->
  fst (fold_left (learned_step features) files (c, b)) = c.
Proof.
  revert b. induction files as [| x0 files IH]; intros b Hcl; [reflexivity |].
  cbn [fold_left]. unfold learned_step at 2. cbn [fst snd].
  destruct (learned_features_cases c (learned_name_of (fst x0)) (snd x0))
    as [(v0 & Hc & ->) | [(v0 & Hc & Hd & ->) | (Hc & Hd & ->)]].
  - apply IH. intros x Hx. apply Hcl. now right.
  - rewrite (Hcl x0 (or_introl eq_refl) Hc) in Hd. discriminate.
  - apply IH. intros x Hx. apply Hcl. now right.
Qed.

(** X11.  [identify_plant] never touches the files, the static dataset,
    the learned directory or the log, and a call that ends in an error
    leaves the whole store as it was.  A completed call only adds to the
    cache: every entry that was cached keeps its descriptor, and a new
    entry is the descriptor of a learned file, under the label derived
    from that file's name. *)
Theorem identify_plant_only_extends_cache (w : world) (image_path : string) :
  let r := fst (identify_plant w image_path) in
  let w' := snd (identify_plant w image_path) in
  w_files w' = w_files w /\ w_dataset w' = w_dataset w /\
  w_learned w' = w_learned w /\ w_log w' = w_log w /\
  (id_confidence r = None -> w' = w) /\
  (forall k v, default ∅ (w_cache w) !! k = Some v ->
               default ∅ (w_cache w') !! k = Some v) /\
  (forall k v, default ∅ (w_cache w') !! k = Some v ->
     default ∅ (w_cache w) !! k = Some v \/
     exists x, In x (glob_jpg (default [] (w_learned w))) /\
               learned_name_of (fst x) = k /\ descriptor (snd x) = Some v).
Proof.
  cbn zeta. unfold identify_plant.
  destruct (path_exists w image_path); cbn [negb];
    [| cbn [fst snd]; repeat split; auto].
  destruct (read_file w image_path) as [content |];
    [| cbn [fst snd]; repeat split; auto].
  destruct (pil_verify content); cbn [negb];
    [| cbn [fst snd]; repeat split; auto].
  destruct (descriptor content) as [features |];
    [| cbn [fst snd]; repeat split; auto].
  cbn [fst snd w_files w_dataset w_learned w_log w_cache set_cache].
  repeat (split; [reflexivity |]).
  split.
  { unfold decide_result. destruct (py_gt _ similarity_threshold); discriminate. }
  change (default ∅ (Some ?c)) with c.
  unfold scan. rewrite scan_learned_fold.
  destruct (learned_scan_facts features (glob_jpg (default [] (w_learned w)))
              (default ∅ (w_cache w))
              (scan_dataset w features (pzero, None))) as (A1 & _ & A5 & _).
  split; [exact A1 |].
  intros k v Hk. destruct (A5 k v Hk) as [Hl | (x & Hx & Hn & Hd & _)];
    [now left | right; eauto].
Qed.

Lemma set_cache_twice (c : gmap string fvec) (w : world) :
  set_cache c (set_cache c w) = set_cache c w.
Proof. reflexivity. Qed.

(** The second of two scans compares the same entries, as a set, and
    writes the same cache. *)
Lemma scan_again (w : world) (features : fvec) :
  let w1 := set_cache (fst (scan w features)) w in
  fst (scan w1 features) = fst (scan w features) /\
  fst (snd (scan w1 features)) = fst (snd (scan w features)).
Proof.
  cbn zeta.
  set (files := glob_jpg (default [] (w_learned w))).
  set (c0 := default ∅ (w_cache w)).
  set (bs := scan_dataset w features (pzero, None)).
  assert (Hscan : scan w features = fold_left (learned_step features) files (c0, bs))
    by (unfold scan; now rewrite scan_learned_fold).
  destruct (learned_scan_facts features files c0 bs) as (A1 & A2 & A5 & A4).
  rewrite <- Hscan in A1, A2, A5, A4.
  set (c1 := fst (scan w features)) in *.
  assert (Hscan1 : scan (set_cache c1 w) features
                   = fold_left (learned_step features) files (c1, bs))
    by (unfold scan; now rewrite scan_learned_fold).
  split.
  - rewrite Hscan1. now apply learned_scan_closed.
  - rewrite !scan_entries. apply best_score_same_entries.
    + unfold compared. cbn [w_cache w_learned set_cache].
      change (default ∅ (Some c1)) with c1.
      apply incl_app; [apply incl_appl, incl_refl | apply incl_appr].
      intros e He.
      destruct (learned_scan_facts features files c1 bs) as (_ & B2 & _ & _).
      rewrite (learned_scan_closed features files c1 bs A4) in B2.
      destruct (B2 e He) as (x & v & Hx & Hn & Hv & Hs).
      destruct e as [n s]. cbn [fst snd] in *. subst n s.
      destruct (A5 _ _ Hv) as [Hl | (y & _ & _ & _ & Hin)]; [| exact Hin].
      now apply learned_compared_hit with x.
    + unfold compared. cbn [w_cache w_learned set_cache].
      change (default ∅ (Some c1)) with c1.
      apply incl_app; [apply incl_appl, incl_refl | apply incl_appr].
      intros e He. destruct (A2 e He) as (x & v & Hx & Hn & Hv & Hs).
      destruct e as [n s]. cbn [fst snd] in *. subst n s.
      now apply learned_compared_hit with x.
Qed.

Lemma identify_plant_cases (w : world) (image_path : string) :
  (exists r, identify_plant w image_path = (r, w)) \/
  (exists content features,
      read_file w image_path = Some content /\
      pil_verify content = true /\
      descriptor content = Some features).
Proof.
  unfold identify_plant.
  destruct (path_exists w image_path); cbn [negb]; [| left; eauto].
  destruct (read_file w image_path) as [content |]; [| left; eauto].
  destruct (pil_verify content) eqn:Ev; cbn [negb]; [| left; eauto].
  destruct (descriptor content) as [features |] eqn:Ed; [| left; eauto].
  right. eauto.
Qed.

(** X12.  Asking twice gives the same verdict.  A second call on the store
    the first call left, for the same path, leaves that store as it is and
    returns the same success flag, [needs_learning] and confidence. *)
Theorem identify_plant_repeatable (w : world) (image_path : string) :
  snd (identify_plant (snd (identify_plant w image_path)) image_path)
  = snd (identify_plant w image_path) /\
  id_success (fst (identify_plant (snd (identify_plant w image_path))
                                  image_path))
  = id_success (fst (identify_plant w image_path)) /\
  id_needs_learning (fst (identify_plant (snd (identify_plant w image_path))
                                         image_path))
  = id_needs_learning (fst (identify_plant w image_path)) /\
  id_confidence (fst (identify_plant (snd (identify_plant w image_path))
                                     image_path))
  = id_confidence (fst (identify_plant w image_path)).
Proof.
  destruct (identify_plant_cases w image_path)
    as [(r & E) | (content & features & Er & Ev & Ed)].
  - rewrite E. cbn [fst snd]. rewrite E. auto.
  - rewrite (identify_plant_scanned _ _ _ _ Er Ev Ed). cbn [fst snd].
    assert (Er1 : read_file (set_cache (fst (scan w features)) w) image_path
                  = Some content) by exact Er.
    rewrite (identify_plant_scanned _ _ _ _ Er1 Ev Ed). cbn [fst snd].
    destruct (scan_again w features) as [Hc Hm].
    split; [rewrite Hc; apply set_cache_twice |].
    now apply decide_result_score.
Qed.
End Cache.

(** ** More on [learn_plant] *)

Lemma default_some {A} (x y : A) : default x (Some y) = y.
Proof. reflexivity. Qed.

Lemma store_file_keeps_other (name : string) (content : bytes)
      (files : list (string * bytes)) (n : string) (c : bytes) :
  In (n, c) files -> n <> name -> In (n, c) (store_file name content files).
Proof.
  intros Hin Hne. unfold store_file. destruct (existsb _ files).
  - apply in_map_iff. exists (n, c). split; [| exact Hin]. cbn [fst].
    now replace (String.eqb n name) with false
      by (symmetry; now apply String.eqb_neq).
  - apply in_or_app. now left.
Qed.

Lemma store_file_idempotent (name : string) (content : bytes)
      (files : list (string * bytes)) :
  store_file name content (store_file name content files)
  = store_file name content files.
Proof.
  assert (Hmap : forall l,
    map (fun e : string * bytes =>
           if String.eqb (fst e) name then (name, content) else e)
        (map (fun e : string * bytes =>
                if String.eqb (fst e) name then (name, content) else e) l)
    = map (fun e : string * bytes =>
             if String.eqb (fst e) name then (name, content) else e) l).
  { intros l. rewrite map_map. apply map_ext. intros e.
    destruct (String.eqb (fst e) name) eqn:E; cbn [fst];
      [now rewrite String.eqb_refl | now rewrite E]. }
  assert (Hex : existsb (fun e => String.eqb (fst e) name)
                        (store_file name content files) = true).
  { apply existsb_exists. exists (name, content).
    split; [apply store_file_In | apply String.eqb_refl]. }
  unfold store_file at 1. rewrite Hex.
  unfold store_file. destruct (existsb _ files) eqn:E; [apply Hmap |].
  rewrite map_app. cbn [map fst]. rewrite String.eqb_refl. f_equal.
  rewrite <- (map_id files) at 2. apply map_ext_in. intros e He.
  destruct (String.eqb (fst e) name) eqn:En; [| reflexivity].
  exfalso. assert (Ht : existsb (fun e => String.eqb (fst e) name) files = true)
    by (apply existsb_exists; eauto).
  congruence.
Qed.

Lemma append_cancel (a b c : string) :
  (a ++ b)%string = (a ++ c)%string -> b = c.
Proof.
  induction a as [| x a IH]; [auto |].
  rewrite !append_cons. intros E. injection E as E. now apply IH.
Qed.

Lemma path_join_injective (dir n n' : string) :
  path_join dir n = path_join dir n' -> n = n'.
Proof.
  unfold path_join. intros E. apply append_cancel in E.
  now apply (append_cancel "/") in E.
Qed.

Lemma lookup_path_stored (dir name : string) (content : bytes)
      (files : list (string * bytes)) :
  lookup_path (path_join dir name)
              (with_paths dir (store_file name content files))
  = Some content.
Proof.
  unfold lookup_path.
  assert (Hfind : forall l : list (string * bytes),
    In (name, content) l ->
    (forall e, In e l -> fst e = name -> e = (name, content)) ->
    find (fun e => String.eqb (fst e) (path_join dir name)) (with_paths dir l)
    = Some (path_join dir name, content)).
  { induction l as [| [n c] l IH]; intros Hin Hall; [contradiction |].
    cbn [with_paths map find fst snd].
    destruct (String.eqb_spec (path_join dir n) (path_join dir name)) as [E | E].
    - apply path_join_injective in E. subst n.
      pose proof (Hall (name, c) (or_introl eq_refl) eq_refl) as Hc.
      now injection Hc as ->.
    - destruct Hin as [Hin | Hin]; [injection Hin as -> ->; congruence |].
      apply IH; [exact Hin |]. intros e He. apply Hall. now right. }
  rewrite Hfind; [reflexivity | apply store_file_In |].
  intros e He Hn. unfold store_file in He.
  destruct (existsb _ files) eqn:E.
  - apply in_map_iff in He as (e' & <- & _).
    destruct (String.eqb (fst e') name) eqn:En; [reflexivity |].
    apply String.eqb_neq in En. contradiction.
  - apply in_app_iff in He as [He | [<- | []]]; [| reflexivity].
    exfalso. assert (Ht : existsb (fun e => String.eqb (fst e) name) files = true)
      by (apply existsb_exists; exists e; split;
          [exact He | now apply String.eqb_eq]).
    congruence.
Qed.

Section LearnMore.
Context `{Platform}.

(** Everything a successful call changed. *)
Lemma learn_plant_stored_world (now now' : datetime) (w w' : world)
      (image_path plant_name label dest : string) :
  learn_plant now now' w image_path plant_name = (LearnStored label dest, w') ->
  exists content d,
    read_file w image_path = Some content /\
    descriptor content = Some d /\
    strip plant_name <> EmptyString /\
    label = clean_plant_name plant_name /\
    dest = path_join learned_dataset_path
             (learned_file_name label (strftime_stamp now) (md5_hex8 content)) /\
    contains_char "/" (learned_file_name label (strftime_stamp now)
                                         (md5_hex8 content)) = false /\
    image_path <> dest /\
    w' = World (w_files w) (w_dataset w)
           (Some (store_file (learned_file_name label (strftime_stamp now)
                                                (md5_hex8 content))
                             content (default [] (w_learned w))))
           (Some (<[label := d]> (default ∅ (w_cache w))))
           (Some (default [] (w_log w)
                  ++ [LogEntry (isoformat now') label dest image_path])).
Proof.
  unfold learn_plant.
  destruct (path_exists w image_path); simpl; [| discriminate].
  destruct (String.eqb plant_name "") eqn:E1; [discriminate |].
  destruct (String.eqb (strip plant_name) "") eqn:E2; [discriminate |].
  cbn [orb]. rewrite read_file_mkdir.
  destruct (read_file w image_path) as [content |]; [| discriminate].
  destruct (contains_char "/" _ || String.eqb image_path _) eqn:Ec;
    [discriminate |].
  apply orb_false_iff in Ec as [Ec1 Ec2].
  destruct (descriptor content) as [d |] eqn:Ed; [| discriminate].
  intros E. injection E as <- <- <-.
  exists content, d. repeat split; auto.
  - now apply String.eqb_neq.
  - now apply String.eqb_neq.
Qed.

(** What a call that did not succeed left alone. *)
Lemma learn_plant_failed_world (now now' : datetime) (w : world)
      (image_path plant_name : string) :
  learn_success (fst (learn_plant now now' w image_path plant_name)) = false ->
  let w' := snd (learn_plant now now' w image_path plant_name) in
  w_files w' = w_files w /\ w_dataset w' = w_dataset w /\
  w_cache w' = w_cache w /\ w_log w' = w_log w.
Proof.
  unfold learn_plant.
  destruct (path_exists w image_path); cbn [negb]; [| cbn; auto].
  destruct (String.eqb plant_name "" || String.eqb (strip plant_name) "");
    [cbn; auto |].
  destruct (read_file _ image_path) as [content |]; [| cbn; auto].
  destruct (contains_char "/" _ || String.eqb image_path _); [cbn; auto |].
  destruct (descriptor content) as [d |]; [discriminate | cbn; auto].
Qed.

(** X13.  The log only grows, and only on success.  For a name without
    [/], a successful call appends exactly one entry, behind the entries
    already there, naming the cleaned label, the stored path and the
    original path; a call that fails leaves the log as it was.  Neither
    touches the caller's files or the static dataset. *)
Theorem learn_plant_log_is_append_only (now now' : datetime) (w : world)
        (image_path plant_name : string) :
  contains_char "/" (clean_plant_name plant_name) = false ->
  let r := fst (learn_plant now now' w image_path plant_name) in
  let w' := snd (learn_plant now now' w image_path plant_name) in
  w_files w' = w_files w /\ w_dataset w' = w_dataset w /\
  (forall label dest, r = LearnStored label dest ->
     w_log w' = Some (default [] (w_log w)
                      ++ [LogEntry (isoformat now') label dest image_path])) /\
  (learn_success r = false -> w_log w' = w_log w).
Proof.
  intros _. cbn zeta.
  destruct (learn_plant now now' w image_path plant_name) as [r w'] eqn:E.
  cbn [fst snd].
  destruct (learn_success r) eqn:Es.
  - destruct r; try discriminate.
    destruct (learn_plant_stored_world _ _ _ _ _ _ _ _ E)
      as (content & d & _ & _ & _ & _ & _ & _ & _ & ->).
    cbn [w_files w_dataset w_log]. repeat split; auto; try discriminate.
    intros label dest Hr. now injection Hr as <- <-.
  - pose proof (learn_plant_failed_world now now' w image_path plant_name) as F.
    rewrite E in F. cbn [fst snd] in F. destruct (F Es) as (F1 & F2 & F3 & F4).
    repeat split; auto. intros label dest ->. discriminate.
Qed.

(** X14.  The picture is copied, not moved.  After a successful call the
    original path still holds its content, and the stored path holds the
    same content (as long as no other file already owns that path). *)
Theorem learn_plant_copies (now now' : datetime) (w w' : world)
        (image_path plant_name label dest : string) :
  learn_plant now now' w image_path plant_name = (LearnStored label dest, w') ->
  exists content,
    read_file w image_path = Some content /\
    read_file w' image_path = Some content /\
    (w_files w !! dest = None -> read_file w' dest = Some content).
Proof.
  intros Hl.
  pose proof (read_file_after_learn _ _ _ _ _ _ _ _ Hl) as Hsame.
  destruct (learn_plant_stored_world _ _ _ _ _ _ _ _ Hl)
    as (content & d & Hr & _ & _ & _ & Hdest & _ & _ & ->).
  exists content. split; [exact Hr |]. split; [congruence |].
  intros Hfree. unfold read_file. cbn [w_files]. rewrite Hfree.
  unfold learned_files. cbn [w_learned].
  change (default [] (Some ?l)) with l.
  rewrite Hdest at 1. now rewrite lookup_path_stored.
Qed.

(** X15.  Teaching one label, a label without [/], does not disturb the
    others: the cache entries of every other label keep their
    descriptors, and every learned file stored under another name is
    still there with its content. *)
Theorem learn_plant_keeps_other_labels (now now' : datetime) (w w' : world)
        (image_path plant_name label dest : string) :
  learn_plant now now' w image_path plant_name = (LearnStored label dest, w') ->
  contains_char "/" label = false ->
  (forall k, k <> label ->
     default ∅ (w_cache w') !! k = default ∅ (w_cache w) !! k) /\
  (forall n c, In (n, c) (default [] (w_learned w)) ->
     path_join learned_dataset_path n <> dest ->
     In (n, c) (default [] (w_learned w'))).
Proof.
  intros Hl _.
  destruct (learn_plant_stored_world _ _ _ _ _ _ _ _ Hl)
    as (content & d & _ & _ & _ & _ & Hdest & _ & _ & ->).
  cbn [w_cache w_learned]. split.
  - intros k Hk. change (default ∅ (Some ?c)) with c.
    apply lookup_insert_ne. congruence.
  - intros n c Hin Hne. change (default [] (Some ?l)) with l.
    apply store_file_keeps_other; [exact Hin |]. congruence.
Qed.

(** X16.  A picture that exists but cannot be processed is still copied:
    the call reports failure, yet the file is in the learned directory
    afterwards, with no cache entry and no log entry written for it. *)
Theorem learn_plant_failure_leaves_copy (now now' : datetime) (w : world)
        (image_path plant_name : string) (content : bytes) :
  read_file w image_path = Some content ->
  strip plant_name <> EmptyString ->
  descriptor content = None ->
  let file_name := learned_file_name (clean_plant_name plant_name)
                     (strftime_stamp now) (md5_hex8 content) in
  contains_char "/" file_name = false ->
  image_path <> path_join learned_dataset_path file_name ->
  let w' := snd (learn_plant now now' w image_path plant_name) in
  fst (learn_plant now now' w image_path plant_name) = LearnFailed /\
  In (file_name, content) (default [] (w_learned w')) /\
  w_cache w' = w_cache w /\ w_log w' = w_log w.
Proof.
  intros Hr Hn Hd file_name Hs Hp. cbn zeta. unfold learn_plant, path_exists.
  rewrite Hr. cbn [negb].
  assert (Hn' : plant_name <> EmptyString) by (intros ->; now apply Hn).
  apply String.eqb_neq in Hn, Hn'. rewrite Hn, Hn'. cbn [orb].
  rewrite read_file_mkdir, Hr. fold file_name. rewrite Hs.
  apply String.eqb_neq in Hp. rewrite Hp. cbn [orb]. rewrite Hd.
  cbn [fst snd w_learned w_cache w_log set_learned].
  change (default [] (Some ?l)) with l.
  repeat split; auto. apply store_file_In.
Qed.

(** X17.  Teaching the same picture under the same name twice within one
    second stores one file: the second call succeeds with the same stored
    path, the learned directory and the cache stay as the first call left
    them, and only the log gets a second entry. *)
Theorem learn_plant_again_same_second (now now1 now2 : datetime) (w w1 : world)
        (image_path plant_name label dest : string) :
  learn_plant now now1 w image_path plant_name = (LearnStored label dest, w1) ->
  exists w2,
    learn_plant now now2 w1 image_path plant_name = (LearnStored label dest, w2)
    /\ w_learned w2 = w_learned w1
    /\ w_cache w2 = w_cache w1
    /\ w_log w2 = Some (default [] (w_log w1)
                        ++ [LogEntry (isoformat now2) label dest image_path]).
Proof.
  intros Hl.
  pose proof (read_file_after_learn _ _ _ _ _ _ _ _ Hl) as Hsame.
  destruct (learn_plant_stored_world _ _ _ _ _ _ _ _ Hl)
    as (content & d & Hr & Hd & Hn & Hlab & Hdest & Hs & Hp & Hw).
  rewrite Hr in Hsame.
  assert (Hn' : plant_name <> EmptyString) by (intros ->; now apply Hn).
  unfold learn_plant, path_exists. rewrite Hsame. cbn [negb].
  apply String.eqb_neq in Hn, Hn'. rewrite Hn, Hn'. cbn [orb].
  rewrite read_file_mkdir, Hsame, <- Hlab, Hs, <- Hdest.
  apply String.eqb_neq in Hp. rewrite Hp. cbn [orb]. rewrite Hd.
  eexists. split; [reflexivity |].
  rewrite Hw. cbn [w_learned w_cache w_log set_learned set_cache set_log].
  rewrite !default_some.
  rewrite store_file_idempotent, insert_insert_eq. auto.
Qed.
End LearnMore.

(** ** Names and file names *)

Local Open Scope string_scope.

Lemma is_space_lower_char (c : ascii) : is_space (lower_char c) = is_space c.
Proof. destruct c as [[] [] [] [] [] [] [] []]; reflexivity. Qed.

Lemma lower_char_idempotent (c : ascii) :
  lower_char (lower_char c) = lower_char c.
Proof. destruct c as [[] [] [] [] [] [] [] []]; reflexivity. Qed.

Lemma lower_char_space (c : ascii) :
  Ascii.eqb (lower_char c) " " = Ascii.eqb c " ".
Proof. destruct c as [[] [] [] [] [] [] [] []]; reflexivity. Qed.

Lemma lower_char_not_upper (c : ascii) :
  let n := nat_of_ascii (lower_char c) in ((65 <=? n) && (n <=? 90))%nat = false.
Proof. destruct c as [[] [] [] [] [] [] [] []]; reflexivity. Qed.

Lemma lower_idempotent (s : string) : lower (lower s) = lower s.
Proof.
  induction s as [| c s IH]; simpl; [reflexivity |].
  now rewrite lower_char_idempotent, IH.
Qed.

Lemma replace_space_idempotent (s : string) :
  replace_char " " "_" (replace_char " " "_" s) = replace_char " " "_" s.
Proof.
  induction s as [| c s IH]; simpl; [reflexivity |]. rewrite IH. f_equal.
  destruct (Ascii.eqb c " ") eqn:E; [reflexivity | now rewrite E].
Qed.

Lemma replace_space_none_left (s : string) :
  contains_char " " (replace_char " " "_" s) = false.
Proof.
  induction s as [| c s IH]; simpl; [reflexivity |]. rewrite IH.
  destruct (Ascii.eqb c " ") eqn:E; [reflexivity | now rewrite E].
Qed.

Lemma lower_replace_space (s : string) :
  lower (replace_char " " "_" s) = replace_char " " "_" (lower s).
Proof.
  induction s as [| c s IH]; simpl; [reflexivity |]. rewrite IH. f_equal.
  rewrite lower_char_space. destruct (Ascii.eqb c " "); reflexivity.
Qed.

(** A string with no white space in front, and one with none at the end. *)
Lemma lstrip_fixed (s : string) : lstrip (lstrip s) = lstrip s.
Proof.
  induction s as [| c s IH]; [reflexivity |]. simpl.
  destruct (is_space c) eqn:E; [exact IH |]. simpl. now rewrite E.
Qed.

Lemma rstrip_fixed (s : string) : rstrip (rstrip s) = rstrip s.
Proof.
  induction s as [| c s IH]; [reflexivity |]. simpl.
  destruct (rstrip s) as [| c' r] eqn:E.
  - destruct (is_space c) eqn:Ec; [reflexivity |]. simpl. now rewrite Ec.
  - change (rstrip (String c (String c' r)) = String c (String c' r)).
    cbn [rstrip] in *. now rewrite IH.
Qed.

Lemma rstrip_keeps_lstrip_fixed (s : string) :
  lstrip s = s -> lstrip (rstrip s) = rstrip s.
Proof.
  destruct s as [| c s]; [reflexivity |]. simpl.
  destruct (is_space c) eqn:Ec.
  - intros E. exfalso.
    assert (Hlen : forall t, (String.length (lstrip t) <= String.length t)%nat).
    { induction t as [| x t IHt]; simpl; [lia |].
      destruct (is_space x); simpl; lia. }
    pose proof (Hlen s) as Hl. rewrite E in Hl. simpl in Hl. lia.
  - intros _. destruct (rstrip s); simpl; now rewrite Ec.
Qed.

Lemma strip_fixed (s : string) : strip (strip s) = strip s.
Proof.
  unfold strip.
  rewrite (rstrip_keeps_lstrip_fixed (lstrip s)) by apply lstrip_fixed.
  apply rstrip_fixed.
Qed.

Section CharMap.
Variable g : ascii -> ascii.
Variable map_g : string -> string.
Hypothesis map_g_nil : map_g "" = "".
Hypothesis map_g_cons : forall c s, map_g (String c s) = String (g c) (map_g s).
Hypothesis g_keeps_non_space : forall c, is_space c = false -> is_space (g c) = false.

Lemma lstrip_fixed_map (s : string) : lstrip s = s -> lstrip (map_g s) = map_g s.
Proof.
  destruct s as [| c s]; [now rewrite map_g_nil |].
  rewrite map_g_cons. simpl. destruct (is_space c) eqn:Ec.
  - intros E. exfalso.
    assert (Hlen : forall t, (String.length (lstrip t) <= String.length t)%nat).
    { induction t as [| x t IHt]; simpl; [lia |].
      destruct (is_space x); simpl; lia. }
    pose proof (Hlen s) as Hl. rewrite E in Hl. simpl in Hl. lia.
  - intros _. now rewrite g_keeps_non_space.
Qed.

Lemma map_g_empty (s : string) : map_g s = "" -> s = "".
Proof. destruct s; [reflexivity |]. rewrite map_g_cons. discriminate. Qed.

Lemma rstrip_fixed_map (s : string) : rstrip s = s -> rstrip (map_g s) = map_g s.
Proof.
  induction s as [| c s IH]; [now rewrite map_g_nil |].
  rewrite map_g_cons. simpl. destruct (rstrip s) as [| c' r] eqn:E.
  - destruct (is_space c) eqn:Ec; [discriminate |].
    intros Es. injection Es as <-. rewrite map_g_nil. simpl.
    now rewrite g_keeps_non_space.
  - intros Es. injection Es as Es. rewrite IH by exact Es.
    destruct (map_g s) eqn:Em; [| reflexivity].
    apply map_g_empty in Em. subst s. discriminate.
Qed.
End CharMap.

Lemma strip_lower_fixed (s : string) :
  strip s = s -> strip (lower s) = lower s.
Proof.
  unfold strip. intros E.
  assert (Hl : lstrip s = s).
  { rewrite <- E at 1. rewrite rstrip_keeps_lstrip_fixed by apply lstrip_fixed.
    exact E. }
  assert (Hr : rstrip s = s) by (rewrite Hl in E; exact E).
  rewrite (lstrip_fixed_map lower_char lower) by
    (auto; intros c Hc; now rewrite is_space_lower_char).
  apply (rstrip_fixed_map lower_char lower); auto.
  intros c Hc. now rewrite is_space_lower_char.
Qed.

Lemma replace_space_keeps_non_space (c : ascii) :
  is_space c = false ->
  is_space (if Ascii.eqb c " " then "_"%char else c) = false.
Proof. destruct (Ascii.eqb c " "); auto. Qed.

Lemma strip_replace_fixed (s : string) :
  strip s = s -> strip (replace_char " " "_" s) = replace_char " " "_" s.
Proof.
  unfold strip. intros E.
  assert (Hl : lstrip s = s).
  { rewrite <- E at 1. rewrite rstrip_keeps_lstrip_fixed by apply lstrip_fixed.
    exact E. }
  assert (Hr : rstrip s = s) by (rewrite Hl in E; exact E).
  rewrite (lstrip_fixed_map (fun c => if Ascii.eqb c " " then "_"%char else c)
                            (replace_char " " "_"))
    by (auto using replace_space_keeps_non_space).
  apply (rstrip_fixed_map (fun c => if Ascii.eqb c " " then "_"%char else c)
                          (replace_char " " "_"));
    auto using replace_space_keeps_non_space.
Qed.

Lemma lower_no_upper (s : string) (c : ascii) :
  In c (list_ascii_of_string (lower s)) ->
  let n := nat_of_ascii c in ((65 <=? n) && (n <=? 90))%nat = false.
Proof.
  induction s as [| x s IH]; simpl; [contradiction |].
  intros [<- | Hc]; [apply lower_char_not_upper | now apply IH].
Qed.

Lemma replace_space_chars (s : string) (c : ascii) :
  In c (list_ascii_of_string (replace_char " " "_" s)) ->
  c = "_"%char \/ In c (list_ascii_of_string s).
Proof.
  induction s as [| x s IH]; simpl; [contradiction |].
  intros [<- | Hc].
  - destruct (Ascii.eqb x " "); auto.
  - destruct (IH Hc); auto.
Qed.

(** X18.  The cleaned name is in normal form: it has no space and no
    upper-case letter, no white space at either end, and cleaning it
    again returns it unchanged, so the label a call returns can be
    passed back as a name and addresses the same cache entry. *)
Theorem clean_plant_name_normal_form (plant_name : string) :
  let label := clean_plant_name plant_name in
  clean_plant_name label = label /\
  strip label = label /\
  contains_char " " label = false /\
  (forall c, In c (list_ascii_of_string label) ->
     let n := nat_of_ascii c in ((65 <=? n) && (n <=? 90))%nat = false).
Proof.
  cbn zeta. unfold clean_plant_name.
  set (t := strip plant_name).
  assert (Ht : strip t = t) by apply strip_fixed.
  assert (Hs : strip (replace_char " " "_" (lower t))
               = replace_char " " "_" (lower t))
    by (apply strip_replace_fixed, strip_lower_fixed, Ht).
  split; [| split; [exact Hs | split]].
  - rewrite Hs, lower_replace_space, lower_idempotent.
    apply replace_space_idempotent.
  - apply replace_space_none_left.
  - intros c Hc. apply replace_space_chars in Hc as [-> | Hc]; [reflexivity |].
    now apply lower_no_upper with t.
Qed.

(** ** Stored file names *)

Local Open Scope string_scope.

Lemma digits_length (w : nat) (n : Z) : String.length (digits w n) = w.
Proof.
  revert n. induction w as [| w IH]; intros n; [reflexivity |].
  simpl. rewrite length_append, IH. simpl. lia.
Qed.

Lemma append_split (a b c d : string) :
  String.length a = String.length c ->
  a ++ b = c ++ d -> a = c /\ b = d.
Proof.
  revert c. induction a as [| x a IH]; intros [| y c] Hlen; try discriminate.
  - auto.
  - rewrite !append_cons. intros E. injection E as -> E.
    destruct (IH c) as [-> ->]; auto.
Qed.

Lemma digit_char_injective (a b : Z) :
  0 <= a < 10 -> 0 <= b < 10 -> digit_char a = digit_char b -> a = b.
Proof.
  intros Ha Hb E. unfold digit_char in E.
  apply (f_equal nat_of_ascii) in E.
  rewrite !nat_ascii_embedding in E by lia. lia.
Qed.

Lemma digits_injective (w : nat) (a b : Z) :
  0 <= a < 10 ^ Z.of_nat w -> 0 <= b < 10 ^ Z.of_nat w ->
  digits w a = digits w b -> a = b.
Proof.
  revert a b. induction w as [| w IH]; intros a b Ha Hb E.
  - simpl in Ha, Hb. lia.
  - rewrite Nat2Z.inj_succ, Z.pow_succ_r in Ha, Hb by lia.
    simpl in E. apply append_split in E as [E1 E2];
      [| now rewrite !digits_length].
    injection E2 as E2.
    apply digit_char_injective in E2; [| apply Z.mod_pos_bound; lia ..].
    apply IH in E1;
      [| split; [apply Z.div_pos; lia | apply Z.div_lt_upper_bound; lia] ..].
    rewrite (Z.div_mod a 10), (Z.div_mod b 10) by lia. congruence.
Qed.

Lemma digit_char_not_underscore (d : Z) :
  0 <= d < 10 -> Ascii.eqb (digit_char d) "_" = false.
Proof.
  intros Hd.
  assert (Hc : d = 0 \/ d = 1 \/ d = 2 \/ d = 3 \/ d = 4 \/ d = 5 \/ d = 6
               \/ d = 7 \/ d = 8 \/ d = 9) by lia.
  repeat (destruct Hc as [-> | Hc]; [reflexivity |]). now subst.
Qed.

Lemma digits_no_underscore (w : nat) (n : Z) :
  contains_char "_" (digits w n) = false.
Proof.
  revert n. induction w as [| w IH]; intros n; [reflexivity |].
  cbn [digits]. rewrite contains_char_append, IH. cbn [contains_char orb].
  rewrite digit_char_not_underscore by (apply Z.mod_pos_bound; lia).
  reflexivity.
Qed.

Lemma year_digits_no_underscore (y : Z) :
  contains_char "_" (year_digits y) = false.
Proof.
  unfold year_digits.
  repeat match goal with |- context [Z.ltb ?a ?b] => destruct (Z.ltb a b) end;
    apply digits_no_underscore.
Qed.

(** The year of a valid reading is determined by its digits. *)
Lemma year_digits_injective (y y' : Z) :
  1 <= y <= 9999 -> 1 <= y' <= 9999 ->
  year_digits y = year_digits y' -> y = y'.
Proof.
  intros Hy Hy'. unfold year_digits.
  destruct (Z.ltb_spec y 10); [| destruct (Z.ltb_spec y 100);
    [| destruct (Z.ltb_spec y 1000)]];
  (destruct (Z.ltb_spec y' 10); [| destruct (Z.ltb_spec y' 100);
    [| destruct (Z.ltb_spec y' 1000)]]);
  intros E;
  try (apply (f_equal String.length) in E; rewrite !digits_length in E;
       discriminate);
  eapply digits_injective; eauto; simpl; lia.
Qed.

(** A stamp followed by more text: the date, which has no underscore,
    and the rest behind the underscore. *)
Lemma strftime_stamp_split (t t' : datetime) (r r' : string) :
  strftime_stamp t ++ r = strftime_stamp t' ++ r' ->
  year_digits (year t) ++ digits 2 (month t) ++ digits 2 (day t)
  = year_digits (year t') ++ digits 2 (month t') ++ digits 2 (day t') /\
  (digits 2 (hour t) ++ digits 2 (minute t) ++ digits 2 (second t)) ++ r
  = (digits 2 (hour t') ++ digits 2 (minute t') ++ digits 2 (second t')) ++ r'.
Proof.
  unfold strftime_stamp.
  set (A := year_digits (year t) ++ digits 2 (month t) ++ digits 2 (day t)).
  set (A' := year_digits (year t') ++ digits 2 (month t') ++ digits 2 (day t')).
  set (B := digits 2 (hour t) ++ digits 2 (minute t) ++ digits 2 (second t)).
  set (B' := digits 2 (hour t') ++ digits 2 (minute t') ++ digits 2 (second t')).
  replace ((year_digits (year t) ++ digits 2 (month t) ++ digits 2 (day t)
            ++ "_" ++ B) ++ r)
    with (A ++ String "_" (B ++ r))
    by (unfold A; rewrite !append_assoc; reflexivity).
  replace ((year_digits (year t') ++ digits 2 (month t') ++ digits 2 (day t')
            ++ "_" ++ B') ++ r')
    with (A' ++ String "_" (B' ++ r'))
    by (unfold A'; rewrite !append_assoc; reflexivity).
  assert (HA : forall t0, contains_char "_"
             (year_digits (year t0) ++ digits 2 (month t0) ++ digits 2 (day t0))
             = false).
  { intros t0. rewrite !contains_char_append, year_digits_no_underscore,
      !digits_no_underscore. reflexivity. }
  intros E.
  assert (EA : A = A').
  { apply (f_equal (split_head "_")) in E.
    rewrite !split_head_append in E.
    rewrite !split_head_no_sep in E by apply HA. exact E. }
  split; [exact EA |]. rewrite EA in E. apply append_cancel in E.
  exact (append_cancel "_" (B ++ r) (B' ++ r') E).
Qed.

(** The stamp of a valid reading determines its second. *)
Lemma strftime_stamp_injective (t t' : datetime) :
  valid_datetime t -> valid_datetime t' ->
  strftime_stamp t = strftime_stamp t' -> same_second t t'.
Proof.
  intros (Hy & Hm & Hd & Hh & Hmi & Hs) (Hy' & Hm' & Hd' & Hh' & Hmi' & Hs') E.
  assert (E' : strftime_stamp t ++ "" = strftime_stamp t' ++ "")
    by now rewrite E.
  apply strftime_stamp_split in E' as [EA EB].
  assert (Hlen : String.length (year_digits (year t))
                 = String.length (year_digits (year t'))).
  { apply (f_equal String.length) in EA.
    rewrite !length_append, !digits_length in EA. lia. }
  apply append_split in EA as [Ey EA]; [| exact Hlen].
  apply append_split in EA as [Em Ed]; [| now rewrite !digits_length].
  apply append_split in EB as [EB _];
    [| now rewrite !length_append, !digits_length].
  apply append_split in EB as [Eh EB]; [| now rewrite !digits_length].
  apply append_split in EB as [Emi Es]; [| now rewrite !digits_length].
  unfold same_second.
  split; [now apply year_digits_injective |].
  repeat split; eapply digits_injective; eauto; simpl; lia.
Qed.

Lemma learned_file_name_stamp (label h h' : string) (t t' : datetime) :
  learned_file_name label (strftime_stamp t) h
  = learned_file_name label (strftime_stamp t') h' ->
  strftime_stamp t = strftime_stamp t'.
Proof.
  unfold learned_file_name. intros E.
  apply append_cancel in E. apply (append_cancel "_") in E.
  apply strftime_stamp_split in E as [EA EB].
  apply append_split in EB as [EB _];
    [| now rewrite !length_append, !digits_length].
  unfold strftime_stamp.
  replace (year_digits (year t) ++ digits 2 (month t) ++ digits 2 (day t)
           ++ "_" ++ digits 2 (hour t) ++ digits 2 (minute t)
           ++ digits 2 (second t))
    with ((year_digits (year t) ++ digits 2 (month t) ++ digits 2 (day t))
          ++ "_" ++ digits 2 (hour t) ++ digits 2 (minute t)
          ++ digits 2 (second t))
    by (rewrite !append_assoc; reflexivity).
  rewrite EA, EB. rewrite !append_assoc. reflexivity.
Qed.

Local Close Scope string_scope.

Section FileNames.
Context `{Platform}.

(** X19.  Calls in different seconds never overwrite each other's file.
    Two successful calls for the same label, a label without [/], whose
    clock readings differ in the second (or minute, hour, day, ...) store
    under different paths, and after the second call both stored files
    are in the learned directory, each with the content it was taught
    with. *)
Theorem learn_plant_distinct_seconds (now1 now1' now2 now2' : datetime)
        (w w1 w2 : world) (path1 path2 name1 name2 label dest1 dest2 : string) :
  learn_plant now1 now1' w path1 name1 = (LearnStored label dest1, w1) ->
  learn_plant now2 now2' w1 path2 name2 = (LearnStored label dest2, w2) ->
  contains_char "/" label = false ->
  valid_datetime now1 -> valid_datetime now2 ->
  ~ same_second now1 now2 ->
  dest1 <> dest2 /\
  exists file1 file2 content1 content2,
    dest1 = path_join learned_dataset_path file1 /\
    dest2 = path_join learned_dataset_path file2 /\
    read_file w path1 = Some content1 /\
    read_file w1 path2 = Some content2 /\
    In (file1, content1) (default [] (w_learned w2)) /\
    In (file2, content2) (default [] (w_learned w2)).
Proof.
  intros H1 H2 _ V1 V2 Hdiff.
  destruct (learn_plant_stored_world _ _ _ _ _ _ _ _ H1)
    as (c1 & d1 & Hr1 & _ & _ & _ & Hdest1 & _ & _ & Hw1).
  destruct (learn_plant_stored_world _ _ _ _ _ _ _ _ H2)
    as (c2 & d2 & Hr2 & _ & _ & _ & Hdest2 & _ & _ & Hw2).
  set (file1 := learned_file_name label (strftime_stamp now1) (md5_hex8 c1)) in *.
  set (file2 := learned_file_name label (strftime_stamp now2) (md5_hex8 c2)) in *.
  assert (Hne : file1 <> file2).
  { intros E. apply Hdiff. apply strftime_stamp_injective; auto.
    now apply learned_file_name_stamp in E. }
  split.
  { rewrite Hdest1, Hdest2. intros E. now apply path_join_injective in E. }
  exists file1, file2, c1, c2. repeat split; auto.
  - rewrite Hw2. cbn [w_learned]. rewrite default_some.
    apply store_file_keeps_other; [| exact Hne].
    rewrite Hw1. cbn [w_learned]. rewrite default_some. apply store_file_In.
  - rewrite Hw2. cbn [w_learned]. rewrite default_some. apply store_file_In.
Qed.
End FileNames.

(** ** The command line *)

Section MainProps.
Context `{Platform}.

Lemma identify_plant_frame (w : world) (image_path : string) :
  w_learned (snd (identify_plant w image_path)) = w_learned w /\
  w_log (snd (identify_plant w image_path)) = w_log w.
Proof.
  destruct (identify_plant_cases w image_path)
    as [(r & E) | (content & features & Er & Ev & Ed)].
  - rewrite E. auto.
  - rewrite (identify_plant_scanned _ _ _ _ Er Ev Ed). auto.
Qed.

(** The exit code follows the printed result: whatever the
    arguments, [main] exits with 0 exactly when the dictionary it prints
    has [success] true, and with 1 otherwise; with no image path it prints
    the usage error, exits with 1 and leaves the store alone. *)
Lemma main_exit_code (now now' : datetime) (w : world) (argv : list string) :
  let out := fst (fst (main now now' w argv)) in
  let code := snd (fst (main now now' w argv)) in
  (code = 0 <-> out_success out = true) /\
  (code = 0 \/ code = 1) /\
  ((length argv < 2)%nat -> main now now' w argv = (OutUsage, 1, w)).
Proof.
  cbn zeta. unfold main.
  destruct (length argv <? 2)%nat eqn:E2.
  - cbn [fst snd out_success]. repeat split; auto; try discriminate.
  - apply Nat.ltb_ge in E2.
    destruct (length argv =? 3)%nat.
    + destruct (learn_plant now now' w (nth 1 argv EmptyString)
                            (nth 2 argv EmptyString)) as [r w'].
      cbn [fst snd out_success].
      destruct (learn_success r); repeat split; auto; try discriminate; lia.
    + destruct (identify_plant w (nth 1 argv EmptyString)) as [r w'].
      cbn [fst snd out_success].
      destruct (id_success r); repeat split; auto; try discriminate; lia.
Qed.

(** X20.  Only a call with exactly two arguments teaches.  With one
    argument, or with three or more (a plant name of several words that
    was not quoted, say), [main] identifies the first argument and ignores
    the rest: it prints the result of [identify_plant], and the learned
    directory and the log are as before. *)
Theorem main_teaches_only_with_two_arguments (now now' : datetime) (w : world)
        (argv : list string) :
  (2 <= length argv)%nat -> length argv <> 3%nat ->
  main now now' w argv
  = (OutIdentify (fst (identify_plant w (nth 1 argv EmptyString))),
     if id_success (fst (identify_plant w (nth 1 argv EmptyString)))
     then 0 else 1,
     snd (identify_plant w (nth 1 argv EmptyString))) /\
  w_learned (snd (main now now' w argv)) = w_learned w /\
  w_log (snd (main now now' w argv)) = w_log w.
Proof.
  intros H2 H3.
  assert (Hm : main now now' w argv
    = (OutIdentify (fst (identify_plant w (nth 1 argv EmptyString))),
       if id_success (fst (identify_plant w (nth 1 argv EmptyString)))
       then 0 else 1,
       snd (identify_plant w (nth 1 argv EmptyString)))).
  { unfold main.
    replace (length argv <? 2)%nat with false
      by (symmetry; apply Nat.ltb_ge; lia).
    replace (length argv =? 3)%nat with false
      by (symmetry; now apply Nat.eqb_neq).
    now destruct (identify_plant w (nth 1 argv EmptyString)). }
  split; [exact Hm |]. rewrite Hm. cbn [snd]. apply identify_plant_frame.
Qed.
End MainProps.

(** ** A store without a usable reference *)

Section NoReference.
Context `{Platform}.

Lemma static_compared_unusable (w : world) (features : fvec) :
  (forall lf, In lf (labelled_files (default [] (w_dataset w))) ->
              descriptor (snd (snd lf)) = None) ->
  static_compared w features = [].
Proof.
  intros Hbad. rewrite static_compared_labelled.
  induction (labelled_files (default [] (w_dataset w))) as [| lf l IH];
    [reflexivity |].
  cbn [flat_map]. unfold static_entry at 1.
  rewrite (Hbad lf (or_introl eq_refl)). cbn [app].
  apply IH. intros lf' Hlf. apply Hbad. now right.
Qed.

Lemma learned_compared_unusable (features : fvec) (c : gmap string fvec)
      (files : list (string * bytes)) :
  (forall x, In x files ->
             c !! learned_name_of (fst x) = None /\ descriptor (snd x) = None) ->
  learned_compared features c files = [].
Proof.
  induction files as [| x files IH]; intros Hbad; [reflexivity |].
  cbn [learned_compared].
  destruct (Hbad x (or_introl eq_refl)) as [Hc Hd].
  destruct (learned_features_cases c (learned_name_of (fst x)) (snd x))
    as [(v & Hc' & _) | [(v & _ & Hd' & _) | (_ & _ & ->)]];
    [congruence | congruence |].
  apply IH. intros x' Hx'. apply Hbad. now right.
Qed.

(** X21.  Without a usable reference the answer is "unknown" with
    confidence 0.  When the store holds no reference picture, or none that
    can be processed (every [.jpg] of the static dataset fails, every
    learned [.jpg] has no cached label and fails too), a call for a valid
    picture reports [needs_learning] with confidence 0 and writes the
    cache back with the entries it had (an empty cache when there was no
    cache file). *)
Theorem identify_plant_without_usable_reference (w : world)
        (image_path : string) (content : bytes) (features : fvec) :
  read_file w image_path = Some content ->
  pil_verify content = true ->
  descriptor content = Some features ->
  (forall lf, In lf (labelled_files (default [] (w_dataset w))) ->
              descriptor (snd (snd lf)) = None) ->
  (forall x, In x (glob_jpg (default [] (w_learned w))) ->
             default ∅ (w_cache w) !! learned_name_of (fst x) = None /\
             descriptor (snd x) = None) ->
  identify_plant w image_path
  = (IdUnknown pzero, set_cache (default ∅ (w_cache w)) w).
Proof.
  intros Hr Hv Hd Hstatic Hlearned.
  rewrite (identify_plant_scanned _ _ _ _ Hr Hv Hd).
  assert (Hb : snd (scan w features) = (pzero, None)).
  { rewrite scan_entries. unfold compared.
    rewrite (static_compared_unusable _ _ Hstatic),
      (learned_compared_unusable _ _ _ Hlearned). reflexivity. }
  assert (Hc : fst (scan w features) = default ∅ (w_cache w)).
  { unfold scan. rewrite scan_learned_fold. apply learned_scan_closed.
    intros x Hx _. now apply Hlearned. }
  rewrite Hb, Hc. reflexivity.
Qed.
End NoReference.

(** ** The further properties on concrete stores *)

Lemma ramp_resized_u8 : u8_pixels Demo.ramp_resized.
Proof. vm_compute. repeat constructor; discriminate. Qed.

Lemma scale_u8_recovers_pixels_witness :
  scale_u8 Demo.ramp_image = Demo.ramp_resized.
Proof.
  apply (scale_u8_recovers_pixels (H := Demo.platform) Demo.ramp
           Demo.ramp_image Demo.ramp_raw Demo.ramp_resized);
    [reflexivity | reflexivity | reflexivity | exact ramp_resized_u8].
Defined.

Lemma preprocess_values_in_unit_range_witness : unit_pixels Demo.ramp_image.
Proof.
  apply (preprocess_values_in_unit_range (H := Demo.platform) Demo.ramp
           Demo.ramp_image Demo.ramp_raw Demo.ramp_resized);
    [reflexivity | reflexivity | reflexivity | exact ramp_resized_u8].
Defined.

Lemma double_increasing (x y : Z) : x < y -> Demo.double x < Demo.double y.
Proof. unfold Demo.double. lia. Qed.

Lemma texture_invariant_under_increasing_map_witness :
  texture_hist (pmap Demo.double corner_gray) = texture_hist corner_gray.
Proof.
  apply (texture_invariant_under_increasing_map Demo.double corner_gray);
    [repeat constructor | exact double_increasing].
Defined.


Lemma mismatched_descriptor_never_matches_witness :
  update_best (calculate_similarity unit_pair [f32_of_Z 1]) "old" (pzero, None)
  = (pzero, None).
Proof.
  apply (mismatched_descriptor_never_matches unit_pair [f32_of_Z 1] "old"
           (pzero, None)); [discriminate | reflexivity].
Defined.

Lemma match_names_first_best_entry_witness :
  exists m l1 l2,
    S754_finite false 8872091265919877 (-53) = py_round3 m /\
    compared (H := Demo.platform) Demo.farm (Demo.features_of Demo.ramp')
    = l1 ++ ("maize"%string, m) :: l2 /\
    (forall e, In e l1 -> py_ge (snd e) m = false) /\
    (forall e, In e l2 -> py_gt (snd e) m = false).
Proof.
  apply (match_names_first_best_entry (H := Demo.platform) Demo.farm
           "query.jpg" Demo.ramp' (Demo.features_of Demo.ramp'));
    vm_compute; reflexivity.
Defined.

Lemma listing_order_keeps_confidence_witness :
  id_confidence (fst (identify_plant (H := Demo.platform) Demo.orchard
                                     "query.jpg"))
  = id_confidence (fst (identify_plant (H := Demo.platform)
                          (set_dataset (rev Demo.two_labels) Demo.orchard)
                          "query.jpg")).
Proof.
  apply (listing_order_keeps_confidence (H := Demo.platform) Demo.orchard
           Demo.two_labels (rev Demo.two_labels) "query.jpg" Demo.ramp'
           (Demo.features_of Demo.ramp'));
    try (vm_compute; reflexivity).
  apply perm_swap.
Defined.

Lemma more_references_keep_a_match_witness :
  py_ge (fst (snd (scan (H := Demo.platform)
                        (set_dataset Demo.two_labels Demo.farm)
                        (Demo.features_of Demo.ramp'))))
        (fst (snd (scan (H := Demo.platform) Demo.farm
                        (Demo.features_of Demo.ramp')))) = true.
Proof.
  apply (more_references_keep_a_match (H := Demo.platform) Demo.farm
           Demo.two_labels "query.jpg" Demo.ramp'
           (Demo.features_of Demo.ramp'));
    try (vm_compute; reflexivity).
  intros e [<- | []]. now left.
Defined.

Lemma rose_store_taught :
  learn_plant (H := Demo.platform) Demo.noon Demo.noon Demo.cellar
              "query.jpg" "Rose"
  = (LearnStored "rose"
       "ai-service/learned_plants/rose_20240517_120000_00001350.jpg",
     Demo.rose_store).
Proof. apply learn_plant_pairing. vm_compute. reflexivity. Qed.

Lemma rose_store_taught_again :
  learn_plant (H := Demo.platform) Demo.later Demo.later Demo.rose_store
              "second.jpg" " rose "
  = (LearnStored "rose"
       "ai-service/learned_plants/rose_20240517_120007_00003810.jpg",
     Demo.rose_store').
Proof. apply learn_plant_pairing. vm_compute. reflexivity. Qed.

Lemma learn_plant_log_is_append_only_witness :
  w_log Demo.rose_store
  = Some (default [] (w_log Demo.cellar)
          ++ [LogEntry (isoformat Demo.noon) "rose"
                "ai-service/learned_plants/rose_20240517_120000_00001350.jpg"
                "query.jpg"]).
Proof.
  destruct (learn_plant_log_is_append_only (H := Demo.platform) Demo.noon
              Demo.noon Demo.cellar "query.jpg" "Rose" eq_refl)
    as (_ & _ & Hlog & _).
  exact (Hlog _ _ (f_equal fst rose_store_taught)).
Defined.

Lemma learn_plant_copies_witness :
  exists content,
    read_file Demo.cellar "query.jpg" = Some content /\
    read_file Demo.rose_store "query.jpg" = Some content /\
    (w_files Demo.cellar
       !! "ai-service/learned_plants/rose_20240517_120000_00001350.jpg"%string
     = None ->
     read_file Demo.rose_store
       "ai-service/learned_plants/rose_20240517_120000_00001350.jpg"
     = Some content).
Proof.
  exact (learn_plant_copies (H := Demo.platform) _ _ _ _ _ _ _ _
           rose_store_taught).
Defined.

Lemma foo_taught_after_sweet :
  learn_plant (H := Demo.platform) Demo.later Demo.later Demo.primed
              "query.jpg" "Foo"
  = (LearnStored "foo"
       "ai-service/learned_plants/foo_20240517_120007_00001350.jpg",
     snd (Demo.taught Demo.primed "Foo")).
Proof. apply learn_plant_pairing. vm_compute. reflexivity. Qed.

Lemma learn_plant_keeps_other_labels_witness :
  default ∅ (w_cache (snd (Demo.taught Demo.primed "Foo"))) !! "sweet"%string
  = default ∅ (w_cache Demo.primed) !! "sweet"%string.
Proof.
  apply (learn_plant_keeps_other_labels (H := Demo.platform) _ _ _ _ _ _ _ _
           foo_taught_after_sweet eq_refl).
  discriminate.
Defined.

Lemma learn_plant_failure_leaves_copy_witness :
  fst (learn_plant (H := Demo.platform) Demo.noon Demo.noon Demo.attic
                   "torn.jpg" "fern") = LearnFailed /\
  In ("fern_20240517_120000_00000001.jpg"%string, Demo.broken)
     (default [] (w_learned (snd (learn_plant (H := Demo.platform) Demo.noon
                                    Demo.noon Demo.attic "torn.jpg" "fern")))).
Proof.
  destruct (learn_plant_failure_leaves_copy (H := Demo.platform) Demo.noon
              Demo.noon Demo.attic "torn.jpg" "fern" Demo.broken)
    as (Hf & Hin & _); try reflexivity; try discriminate.
  split; [exact Hf | exact Hin].
Defined.

Lemma learn_plant_again_same_second_witness :
  exists w2,
    learn_plant (H := Demo.platform) Demo.noon Demo.later Demo.rose_store
                "query.jpg" "Rose"
    = (LearnStored "rose"
         "ai-service/learned_plants/rose_20240517_120000_00001350.jpg", w2)
    /\ w_learned w2 = w_learned Demo.rose_store
    /\ w_cache w2 = w_cache Demo.rose_store.
Proof.
  destruct (learn_plant_again_same_second (H := Demo.platform) Demo.noon
              Demo.noon Demo.later _ _ _ _ _ _ rose_store_taught)
    as (w2 & E & Hl & Hc & _).
  exists w2. auto.
Defined.

Lemma noon_valid : valid_datetime Demo.noon.
Proof. unfold valid_datetime. simpl. lia. Qed.

Lemma later_valid : valid_datetime Demo.later.
Proof. unfold valid_datetime. simpl. lia. Qed.

Lemma learn_plant_distinct_seconds_witness :
  "ai-service/learned_plants/rose_20240517_120000_00001350.jpg"%string
  <> "ai-service/learned_plants/rose_20240517_120007_00003810.jpg"%string /\
  exists file1 file2 content1 content2,
    In (file1, content1) (default [] (w_learned Demo.rose_store')) /\
    In (file2, content2) (default [] (w_learned Demo.rose_store')) /\
    read_file Demo.cellar "query.jpg" = Some content1 /\
    read_file Demo.rose_store "second.jpg" = Some content2.
Proof.
  destruct (learn_plant_distinct_seconds (H := Demo.platform) _ _ _ _ _ _ _
              _ _ _ _ _ _ _ rose_store_taught rose_store_taught_again
              eq_refl noon_valid later_valid)
    as (Hne & f1 & f2 & c1 & c2 & _ & _ & Hr1 & Hr2 & Hi1 & Hi2).
  { unfold same_second. simpl. lia. }
  split; [exact Hne |]. exists f1, f2, c1, c2. auto.
Defined.

Lemma main_teaches_only_with_two_arguments_witness :
  fst (fst (main (H := Demo.platform) Demo.noon Demo.noon Demo.farm
                 ["identify_plant.py"; "query.jpg"; "sweet"; "potato"]%string))
  = OutIdentify (fst (identify_plant (H := Demo.platform) Demo.farm
                                     "query.jpg")).
Proof.
  destruct (main_teaches_only_with_two_arguments (H := Demo.platform)
              Demo.noon Demo.noon Demo.farm
              ["identify_plant.py"; "query.jpg"; "sweet"; "potato"]%string)
    as (E & _); [simpl; lia | discriminate |].
  now rewrite E.
Defined.

Lemma identify_plant_without_usable_reference_witness :
  identify_plant (H := Demo.platform) Demo.cellar "query.jpg"
  = (IdUnknown pzero, set_cache ∅ Demo.cellar).
Proof.
  apply (identify_plant_without_usable_reference (H := Demo.platform)
           Demo.cellar "query.jpg" Demo.ramp (Demo.features_of Demo.ramp));
    try reflexivity; intros x Hx; destruct Hx.
Defined.
